(** * Servoo: attribute extraction and title matching

    A shallow embedding of the two core scripts of the repository,
    [DATA_ENGINEERING/Code/Merging_code.py] (weight, units-per-carton and
    packaging extraction, catalogue consolidation) and
    [DATA_SCRAPING/CODE/2COSINE/Cosine_Similarity_Code.py] (TF-IDF cosine
    scoring and match resolution), together with the part of the Python
    runtime they rely on: [str] methods, the backtracking [re] matcher,
    [int], [float], [round], binary64 arithmetic and the pieces of numpy,
    pandas and scikit-learn that the scripts call. *)

From Stdlib Require Import ZArith NArith List Bool Lia String Ascii.
From Stdlib Require Import SpecFloat.
From stdpp Require Import gmap sorting pretty.

Local Open Scope Z_scope.

(** ** Python values *)

(** A Python [str] is a sequence of Unicode code points. *)
Abbreviation str := (list N).

(** ASCII literals of the development, written as Rocq strings. *)
Definition py (s : string) : str :=
  map N_of_ascii (list_ascii_of_string s).

(** Exceptions that the modelled code can raise. *)
Inductive exn :=
| ValueError | OverflowError | AttributeError | KeyError | TypeError
| ProgrammingError | UnicodeEncodeError.

Inductive outcome (A : Type) :=
| Return (a : A)
| Raise (e : exn).
Arguments Return {A} a.
Arguments Raise {A} e.

#[global] Instance outcome_ret : MRet outcome := fun A a => Return a.

#[global] Instance outcome_bind : MBind outcome := fun A B f x =>
  match x with
  | Return a => f a
  | Raise e => Raise e
  end.

(** A cell of a pandas column read from CSV: missing ([None] or [NaN],
    both satisfy [pd.isna]) or text. *)
Inductive cell :=
| CNone
| CNaN
| CStr (s : str).

Definition pd_isna (c : cell) : bool :=
  match c with
  | CStr _ => false
  | _ => true
  end.

(** ** The runtime interface

    [str.upper], [str.lower], [\d], [\w] and case-insensitive matching
    consult CPython's Unicode tables, and [np.prod] leaves [int64] when an
    element does not fit.  The functions below take these as an
    interface, so that what is proved of them holds whatever the tables
    are; [ascii_runtime] implements the interface for ASCII text, on which
    the worked examples run. *)
Class Runtime := {
  (** [Py_UNICODE_TODECIMAL]: the value of a decimal digit *)
  uni_decimal : N -> option N;
  (** [Py_UNICODE_ISALNUM] *)
  uni_alnum : N -> bool;
  (** full upper-case mapping of one code point, as [str.upper] *)
  uni_upper : N -> str;
  (** [str.lower] *)
  uni_lower : str -> str;
  (** [re.IGNORECASE] comparison of a pattern literal with a code point *)
  uni_icase : N -> N -> bool;
  (** [int(np.prod(l))] when some element of [l] is outside [int64] *)
  np_prod_wide : list Z -> outcome Z
}.

(** [Py_UNICODE_ISSPACE]: the code points [str.strip] removes and [\s]
    matches. *)
Definition is_space (c : N) : bool :=
  ((9 <=? c) && (c <=? 13) || (28 <=? c) && (c <=? 32) || (c =? 133)
   || (c =? 160) || (c =? 5760) || (8192 <=? c) && (c <=? 8202)
   || (c =? 8232) || (c =? 8233) || (c =? 8239) || (c =? 8287)
   || (c =? 12288))%N.

Definition ascii_upper (c : N) : N :=
  if ((97 <=? c) && (c <=? 122))%N then (c - 32)%N else c.

Definition ascii_lower (c : N) : N :=
  if ((65 <=? c) && (c <=? 90))%N then (c + 32)%N else c.

Definition ascii_decimal (c : N) : option N :=
  if ((48 <=? c) && (c <=? 57))%N then Some (c - 48)%N else None.

Definition ascii_alnum (c : N) : bool :=
  ((48 <=? c) && (c <=? 57) || (65 <=? c) && (c <=? 90)
   || (97 <=? c) && (c <=? 122))%N.

(** ** The regular-expression matcher

    Patterns of the scripts use literals and classes, sequence,
    alternation, greedy [*], [+] and [?], capturing groups, a positive
    lookahead, [\b] and [$].  Repetition is only ever applied to a single
    class, so [Star] carries a class. *)
Inductive regex :=
| Eps
| Chr (p : N -> bool)
| Seq (a b : regex)
| Alt (a b : regex)
| Star (p : N -> bool)
| Opt (a : regex)
| Group (n : nat) (a : regex)
| Ahead (a : regex)
| WordB (w : N -> bool)
| EndS.

Definition Plus (p : N -> bool) : regex := Seq (Chr p) (Star p).

Definition one (c : N) : N -> bool := N.eqb c.

Fixpoint Lit (s : str) : regex :=
  match s with
  | [] => Eps
  | [c] => Chr (one c)
  | c :: t => Seq (Chr (one c)) (Lit t)
  end.

Fixpoint LitP (f : N -> N -> bool) (s : str) : regex :=
  match s with
  | [] => Eps
  | [c] => Chr (f c)
  | c :: t => Seq (Chr (f c)) (LitP f t)
  end.

Fixpoint Alts (l : list regex) : regex :=
  match l with
  | [] => Eps
  | [a] => a
  | a :: t => Alt a (Alts t)
  end.

Fixpoint Seqs (l : list regex) : regex :=
  match l with
  | [] => Eps
  | [a] => a
  | a :: t => Seq a (Seqs t)
  end.

(** A position in the subject (text before it, reversed, and text after
    it) and the groups captured so far, most recent first. *)
Record mstate := MState {
  m_pre : str;
  m_suf : str;
  m_caps : list (nat * str)
}.

Definition group (n : nat) (st : mstate) : option str :=
  match find (fun c => Nat.eqb (fst c) n) (m_caps st) with
  | Some c => Some (snd c)
  | None => None
  end.

(** What was consumed between two positions of one subject. *)
Definition consumed (pre0 pre1 : str) : str :=
  rev (firstn (length pre1 - length pre0) pre1).

Definition at_boundary (w : N -> bool) (st : mstate) : bool :=
  let before := match m_pre st with c :: _ => w c | [] => false end in
  let after := match m_suf st with c :: _ => w c | [] => false end in
  xorb before after.

Definition at_end (st : mstate) : bool :=
  match m_suf st with
  | [] => true
  | [c] => (c =? 10)%N
  | _ => false
  end.

Definition cont := mstate -> option mstate.

(** Greedy repetition: take one more code point first, fall back to the
    continuation at the current position. *)
Fixpoint star (p : N -> bool) (k : cont) (pre suf : str)
    (caps : list (nat * str)) {struct suf} : option mstate :=
  match suf with
  | c :: t =>
      if p c then
        match star p k (c :: pre) t caps with
        | Some r => Some r
        | None => k (MState pre suf caps)
        end
      else k (MState pre suf caps)
  | [] => k (MState pre [] caps)
  end.

(** The backtracking matcher in continuation-passing style: alternatives
    are tried left to right and the first overall success wins. *)
Fixpoint run (r : regex) (k : cont) (st : mstate) : option mstate :=
  match r with
  | Eps => k st
  | Chr p =>
      match m_suf st with
      | c :: t => if p c then k (MState (c :: m_pre st) t (m_caps st)) else None
      | [] => None
      end
  | Seq a b => run a (run b k) st
  | Alt a b =>
      match run a k st with
      | Some r => Some r
      | None => run b k st
      end
  | Star p => star p k (m_pre st) (m_suf st) (m_caps st)
  | Opt a =>
      match run a k st with
      | Some r => Some r
      | None => k st
      end
  | Group n a =>
      run a (fun st' =>
        k (MState (m_pre st') (m_suf st')
             ((n, consumed (m_pre st) (m_pre st')) :: m_caps st'))) st
  | Ahead a =>
      match run a Some st with
      | Some st' => k (MState (m_pre st) (m_suf st) (m_caps st'))
      | None => None
      end
  | WordB w => if at_boundary w st then k st else None
  | EndS => if at_end st then k st else None
  end.

(** [re.search]: the first start position, left to right, with a match. *)
Fixpoint search_from (r : regex) (pre suf : str) : option (str * mstate) :=
  match run r Some (MState pre suf []) with
  | Some st => Some (pre, st)
  | None =>
      match suf with
      | c :: t => search_from r (c :: pre) t
      | [] => None
      end
  end.

Definition re_search (r : regex) (s : str) : option mstate :=
  match search_from r [] s with
  | Some (_, st) => Some st
  | None => None
  end.

(** [re.findall]: successive non-overlapping matches.  After a match the
    scan resumes where it ended (one code point further after an empty
    match). *)
Fixpoint findall_from (fuel : nat) (r : regex) (pre suf : str)
    : list (str * mstate) :=
  match fuel with
  | O => []
  | S fuel' =>
      match search_from r pre suf with
      | None => []
      | Some (start, st) =>
          (start, st) ::
          (if Nat.eqb (length (m_pre st)) (length start) then
             match m_suf st with
             | c :: t => findall_from fuel' r (c :: m_pre st) t
             | [] => []
             end
           else findall_from fuel' r (m_pre st) (m_suf st))
      end
  end.

Definition re_findall (r : regex) (s : str) : list (str * mstate) :=
  findall_from (S (length s)) r [] s.

(** The text of group 1 of every match, as [findall] returns it for a
    pattern with one group. *)
Definition findall_group1 (r : regex) (s : str) : list str :=
  map (fun m => match group 1 (snd m) with Some g => g | None => [] end)
      (re_findall r s).

(** The whole text of every match, as [findall] returns it for a pattern
    without groups. *)
Definition findall_whole (r : regex) (s : str) : list str :=
  map (fun m => consumed (fst m) (m_pre (snd m))) (re_findall r s).

(** ** binary64 arithmetic and the numeric built-ins *)

(** A Python [float] is an IEEE 754 binary64 value. *)
Abbreviation float := spec_float.

Definition b64_mul : float -> float -> float := SFmul 53 1024.
Definition b64_add : float -> float -> float := SFadd 53 1024.
Definition b64_div : float -> float -> float := SFdiv 53 1024.
Definition b64_sqrt : float -> float := SFsqrt 53 1024.
Definition b64_ltb : float -> float -> bool := SFltb.
Definition b64_leb : float -> float -> bool := SFleb.
Definition b64_eqb : float -> float -> bool := SFeqb.

(** The binary64 value nearest to the integer [z]. *)
Definition b64_of_Z (z : Z) : float := binary_normalize 53 1024 z 0 false.

(** The binary64 value nearest to [d / 10 ^ k], for [0 <= d]: the
    correctly rounded decimal-to-binary conversion of [float(str)]. *)
Definition b64_of_decimal (d : Z) (k : nat) : float :=
  match d with
  | Zpos p =>
      b64_div (S754_finite false p 0)
              (S754_finite false (Z.to_pos (10 ^ Z.of_nat k)) 0)
  | _ => S754_zero false
  end.

(** C's [round] on the magnitude [m * 2 ^ e]: nearest integer, halfway
    cases away from zero. *)
Definition c_round (m : positive) (e : Z) : Z :=
  if 0 <=? e then Zpos m * 2 ^ e
  else (Zpos m + 2 ^ (- e - 1)) / 2 ^ (- e).

(** [fabs(x - rounded) == 0.5] for [x = m * 2 ^ e]. *)
Definition half_apart (m : positive) (e : Z) (r : Z) : bool :=
  (e <? 0) && (Z.abs (2 * (Zpos m - r * 2 ^ (- e))) =? 2 ^ (- e)).

(** [round(x)] of a float without [ndigits], as [float.__round__] does
    it: C's [round], then [2.0 * round(x / 2.0)] when [x] is halfway
    between two integers; the intermediate float operations are exact.
    Infinities raise [OverflowError] and NaN raises [ValueError]. *)
Definition py_round (x : float) : outcome Z :=
  match x with
  | S754_zero _ => Return 0
  | S754_infinity _ => Raise OverflowError
  | S754_nan => Raise ValueError
  | S754_finite s m e =>
      let r := c_round m e in
      let r := if half_apart m e r then 2 * c_round m (e - 1) else r in
      Return (if s then - r else r)
  end.

(** [round(x, 3)] of a float: the decimal with three places nearest to
    the exact value of [x] (halfway cases to even), converted back to
    binary64.  Zeros, infinities and NaN are returned unchanged. *)
Definition py_round3 (x : float) : float :=
  match x with
  | S754_finite s m e =>
      match py_round (S754_finite s (m * 1000)%positive e) with
      | Return k =>
          match k with
          | Z0 => S754_zero s
          | Zpos p => b64_div (S754_finite false p 0) (S754_finite false 1000 0)
          | Zneg p => b64_div (S754_finite true p 0) (S754_finite false 1000 0)
          end
      | Raise _ => x
      end
  | _ => x
  end.

(** [str(k)] of a Python [int]. *)
Definition str_of_int (k : Z) : str := py (pretty k).

(** Signed 64-bit wrap-around. *)
Definition int64_wrap (z : Z) : Z := (z + 2 ^ 63) mod 2 ^ 64 - 2 ^ 63.

Definition fits_int64 (z : Z) : bool := (- 2 ^ 63 <=? z) && (z <? 2 ^ 63).

(** Substring test, [k in s]. *)
Fixpoint starts_with (k s : str) : bool :=
  match k, s with
  | [], _ => true
  | a :: k', b :: s' => (a =? b)%N && starts_with k' s'
  | _ :: _, [] => false
  end.

Fixpoint str_contains (k s : str) : bool :=
  starts_with k s ||
  match s with
  | [] => false
  | _ :: s' => str_contains k s'
  end.

Definition str_eqb (a b : str) : bool := bool_decide (a = b).

Definition str_in (a : str) (l : list str) : bool := existsb (str_eqb a) l.

Fixpoint lstrip (s : str) : str :=
  match s with
  | c :: t => if is_space c then lstrip t else s
  | [] => []
  end.

(** [str.strip()] *)
Definition str_strip (s : str) : str := rev (lstrip (rev (lstrip s))).

Section Builtins.
Context {RT : Runtime}.

(** [str.upper()] *)
Definition str_upper (s : str) : str := flat_map uni_upper s.

(** [\d] *)
Definition is_digit (c : N) : bool :=
  match uni_decimal c with Some _ => true | None => false end.

(** [\w] *)
Definition is_word (c : N) : bool := uni_alnum c || (c =? 95)%N.

Fixpoint digits_value (acc : Z) (s : str) : option Z :=
  match s with
  | [] => Some acc
  | c :: t =>
      match uni_decimal c with
      | Some d => digits_value (10 * acc + Z.of_N d) t
      | None => None
      end
  end.

(** [sys.int_info.default_max_str_digits], the default of the limit
    that [sys.set_int_max_str_digits] changes *)
Definition int_max_str_digits : nat := 4300.

(** [int(s)] on the text of a [(\d+)] group: a non-empty run of decimal
    digits, of at most [int_max_str_digits] digits, leading zeros
    counted; a longer run and any other text raise [ValueError]. *)
Definition py_int (s : str) : outcome Z :=
  match s with
  | [] => Raise ValueError
  | _ => match digits_value 0 s with
         | Some n =>
             if (int_max_str_digits <? length s)%nat then Raise ValueError
             else Return n
         | None => Raise ValueError
         end
  end.

(** Text before the first [.] and, when there is one, the text after. *)
Fixpoint split_dot (s : str) : str * option str :=
  match s with
  | [] => ([], None)
  | c :: t =>
      if (c =? 46)%N then ([], Some t)
      else let '(a, b) := split_dot t in (c :: a, b)
  end.

(** [float(s)] on the text of a [(\d+(?:\.\d+)?)] group; any other text
    is reported as [ValueError]. *)
Definition py_float (s : str) : outcome float :=
  match split_dot s with
  | ([], _) => Raise ValueError
  | (ip, None) =>
      match digits_value 0 ip with
      | Some d => Return (b64_of_decimal d 0)
      | None => Raise ValueError
      end
  | (_, Some []) => Raise ValueError
  | (ip, Some fp) =>
      match digits_value 0 (ip ++ fp) with
      | Some d => Return (b64_of_decimal d (length fp))
      | None => Raise ValueError
      end
  end.

(** [int(np.prod(l))] for a list of Python ints: numpy multiplies in
    [int64], wrapping around, when every element fits. *)
Definition np_prod (l : list Z) : outcome Z :=
  if forallb fits_int64 l
  then Return (fold_left (fun acc x => int64_wrap (acc * x)) l 1)
  else np_prod_wide l.
End Builtins.

(** ** The ASCII runtime *)

(** [int(x)] of a float: truncation toward zero; an infinity raises
    [OverflowError] and NaN raises [ValueError]. *)
Definition py_int_of_float (x : float) : outcome Z :=
  match x with
  | S754_zero _ => Return 0
  | S754_infinity _ => Raise OverflowError
  | S754_nan => Raise ValueError
  | S754_finite s m e =>
      let a := if 0 <=? e then Zpos m * 2 ^ e else Zpos m / 2 ^ (- e) in
      Return (if s then - a else a)
  end.

(** [int(np.prod(l))] for non-negative Python ints of which one is
    outside [int64], by numpy's choice of the array type: [object], and
    the exact product, when one is 2^64 or more; [uint64], wrapping
    around, when all are 2^63 or more; [float64], multiplied in list
    order, when numbers below and above 2^63 are mixed. *)
Definition np_prod_promoted (l : list Z) : outcome Z :=
  if existsb (fun z => 2 ^ 64 <=? z) l then Return (fold_left Z.mul l 1)
  else if forallb (fun z => 2 ^ 63 <=? z) l
  then Return (fold_left (fun acc x => (acc * x) mod 2 ^ 64) l 1)
  else py_int_of_float
         (fold_left (fun acc x => b64_mul acc (b64_of_Z x)) l (b64_of_Z 1)).

(** The tables restricted to ASCII (every other code point is caseless and
    neither a digit nor a letter), and numpy's product of wide counts. *)
Definition ascii_runtime : Runtime := {|
  uni_decimal := ascii_decimal;
  uni_alnum := ascii_alnum;
  uni_upper := fun c => [ascii_upper c];
  uni_lower := map ascii_lower;
  uni_icase := fun a b => (ascii_lower a =? ascii_lower b)%N;
  np_prod_wide := np_prod_promoted
|}.

(** ** Merging_code.py: the extractors *)

Section Extractors.
Context {RT : Runtime}.

(** [int(m.group(n))] *)
Definition int_group (n : nat) (m : mstate) : outcome Z :=
  match group n m with
  | Some g => py_int g
  | None => Raise TypeError
  end.

(** [[*×X]] *)
Definition star_times_x (c : N) : bool :=
  ((c =? 42) || (c =? 215) || (c =? 88))%N.

(** [[X×]] *)
Definition x_times (c : N) : bool := ((c =? 88) || (c =? 215))%N.

(** [[\d\.]] *)
Definition digit_or_dot (c : N) : bool := is_digit c || (c =? 46)%N.

(** [(\d+)\s*(PCS|PC|PS)\b] *)
Definition pcs_re : regex :=
  Seqs [Group 1 (Plus is_digit); Star is_space;
        Group 2 (Alts [Lit (py "PCS"); Lit (py "PC"); Lit (py "PS")]);
        WordB is_word].

(** [\(\s*[\d\.]+\s*(?:ML|L|G|KG)?\s*[*×X]\s*(\d+)\s*\)] *)
Definition bracket_re : regex :=
  Seqs [Chr (one 40); Star is_space; Plus digit_or_dot; Star is_space;
        Opt (Alts [Lit (py "ML"); Lit (py "L"); Lit (py "G");
                   Lit (py "KG")]);
        Star is_space; Chr star_times_x; Star is_space;
        Group 1 (Plus is_digit); Star is_space; Chr (one 41)].

(** [(\d+)\s*[*×X]\s*[\d\.]+\s*(?:ML|L|LTR|G|KG|MIL|OZ)] *)
Definition before_unit_re : regex :=
  Seqs [Group 1 (Plus is_digit); Star is_space; Chr star_times_x;
        Star is_space; Plus digit_or_dot; Star is_space;
        Alts [Lit (py "ML"); Lit (py "L"); Lit (py "LTR"); Lit (py "G");
              Lit (py "KG"); Lit (py "MIL"); Lit (py "OZ")]].

(** [(\d+)\s*[X×]\s*(?=\d+)] *)
Definition x_numbers_re : regex :=
  Seqs [Group 1 (Plus is_digit); Star is_space; Chr x_times;
        Star is_space; Ahead (Plus is_digit)].

(** [\b(\d+)\s*[X×]\s*\d*\s*(?:KG|G|GM|L|ML)\b] *)
Definition single_x_re : regex :=
  Seqs [WordB is_word; Group 1 (Plus is_digit); Star is_space;
        Chr x_times; Star is_space; Star is_digit; Star is_space;
        Alts [Lit (py "KG"); Lit (py "G"); Lit (py "GM"); Lit (py "L");
              Lit (py "ML")];
        WordB is_word].

(** [\b(\d+)\s*(BAG|BAGS|TEABAG|TEABAGS|TEA BAGS|STICKS)\b] *)
Definition bag_re : regex :=
  Seqs [WordB is_word; Group 1 (Plus is_digit); Star is_space;
        Group 2 (Alts [Lit (py "BAG"); Lit (py "BAGS"); Lit (py "TEABAG");
                       Lit (py "TEABAGS"); Lit (py "TEA BAGS");
                       Lit (py "STICKS")]);
        WordB is_word].

(** [(\d+)\s*\+\s*(\d+)] *)
Definition plus_re : regex :=
  Seqs [Group 1 (Plus is_digit); Star is_space; Chr (one 43);
        Star is_space; Group 2 (Plus is_digit)].

(** [[*×X]\s*(\d+)] *)
Definition star_after_re : regex :=
  Seqs [Chr star_times_x; Star is_space; Group 1 (Plus is_digit)].

(** Cases 5 to 8 of [extract_units_per_carton], on the upper-cased and
    stripped name. *)
Definition units_tail (name : str) : outcome (option Z) :=
  match re_search single_x_re name with
  | Some m => n ← int_group 1 m; Return (Some n)
  | None =>
  match re_search bag_re name with
  | Some m => n ← int_group 1 m; Return (Some n)
  | None =>
  match re_search plus_re name with
  | Some m => a ← int_group 1 m; b ← int_group 2 m; Return (Some (a + b))
  | None =>
  match re_search star_after_re name with
  | Some m => n ← int_group 1 m; Return (Some n)
  | None => Return None
  end end end end.

(** Case 4: the chained-X recognizer. *)
Definition units_chain (name : str) : outcome (option Z) :=
  let x_numbers := findall_group1 x_numbers_re name in
  if (2 <=? length x_numbers)%nat then
    nums ← mapM py_int x_numbers;
    p ← np_prod nums;
    Return (Some p)
  else
    match x_numbers with
    | [x] => n ← py_int x; Return (Some n)
    | _ => units_tail name
    end.

Definition extract_units_per_carton (name : cell) : outcome (option Z) :=
  match name with
  | CStr s =>
      let name := str_strip (str_upper s) in
      match re_search pcs_re name with
      | Some m => n ← int_group 1 m; Return (Some n)
      | None =>
      match re_search bracket_re name with
      | Some m => n ← int_group 1 m; Return (Some n)
      | None =>
      match re_search before_unit_re name with
      | Some m => n ← int_group 1 m; Return (Some n)
      | None => units_chain name
      end end end
  | _ => Return None
  end.
End Extractors.

Section Weights.
Context {RT : Runtime}.

(** [[\s\*×X0-9\W]] under [re.IGNORECASE] *)
Definition after_unit (c : N) : bool :=
  is_space c || (c =? 42)%N || (c =? 215)%N || uni_icase 88 c
  || ((48 <=? c) && (c <=? 57))%N || negb (is_word c).

Definition unit_tokens : list string :=
  ["KG"; "KGS"; "G"; "GM"; "GR"; "GRAM"; "GRAMS"; "L"; "LTR"; "LITRE";
   "ML"; "M L"; "LT"]%string.

(** [(\d+(?:\.\d+)?)\s*(KG|KGS|G|GM|GR|GRAM|GRAMS|L|LTR|LITRE|ML|M L|LT)(?=[\s\*×X0-9\W]|$)]
    compiled with [re.IGNORECASE] *)
Definition weight_re : regex :=
  Seqs [Group 1 (Seq (Plus is_digit)
                     (Opt (Seq (Chr (one 46)) (Plus is_digit))));
        Star is_space;
        Group 2 (Alts (map (fun u => LitP uni_icase (py u)) unit_tokens));
        Ahead (Alt (Chr after_unit) EndS)].

(** The conversion table of [extract_weight_quantity]. *)
Definition to_grams (value : float) (unit : str) : float :=
  if str_in unit [py "KG"; py "KGS"] then b64_mul value (b64_of_Z 1000)
  else if str_in unit [py "G"; py "GM"; py "GR"; py "GRAM"; py "GRAMS"]
  then value
  else if str_in unit [py "L"; py "LTR"; py "LITRE"]
  then b64_mul value (b64_of_Z 1000)
  else if str_in unit [py "ML"; py "M L"] then b64_mul value (b64_of_Z 1)
  else value.

(** The Unit Normalizer: what [extract_weight_quantity] does with the
    two captured groups, the numeric literal and the unit token. *)
Definition unit_normalizer (literal unit : str) : outcome (option str) :=
  match py_float literal with
  | Raise _ => Return None
  | Return value =>
      let unit := str_upper unit in
      let grams := to_grams value unit in
      k ← py_round grams;
      Return (Some (str_of_int k ++ py "G"))
  end.

Definition extract_weight_quantity (name : cell) : outcome (option str) :=
  match name with
  | CStr s =>
      let text := str_strip (str_upper s) in
      match re_search weight_re text with
      | None => Return None
      | Some m =>
          match group 1 m, group 2 m with
          | Some literal, Some unit => unit_normalizer literal unit
          | _, _ => Raise TypeError
          end
      end
  | _ => Return None
  end.

Definition carton_keywords : list str := [py "CTN"; py "CARTON"; py "CARTONS"].

Definition detect_packaging_type (name : cell) : str :=
  match name with
  | CStr s =>
      let name := str_upper (str_strip s) in
      if existsb (fun k => str_contains k name) carton_keywords
      then py "CTN" else py "NON-CTN"
  | _ => py "NON-CTN"
  end.
End Weights.

(** ** Merging_code.py: column names and the supplier rule *)

(** A frame as [pd.read_csv] delivers it: the number of rows and the
    columns in file order, each a label with its cells.  [read_csv]
    makes the labels of one file distinct. *)
Record frame := Frame {
  n_rows : nat;
  f_columns : list (str * list cell)
}.

(** [col_map] of [standardize_columns] *)
Definition col_map : gmap str str :=
  list_to_map
    [(py "Item Name", py "Product_Name");
     (py "PRODUCT TITLE", py "Product_Name");
     (py "Name", py "Product_Name");
     (py "Product_Name", py "Product_Name");
     (py "SERIAL NUMBER", py "Serial_Number");
     (py "SL NO", py "Serial_Number");
     (py "Serial_Number", py "Serial_Number");
     (py "Unit", py "Unit")].

(** [col_map.get(col, col)] *)
Definition col_map_get (col : str) : str := default col (col_map !! col).

(** [df.rename(columns={col: col_map.get(col, col) for col in df.columns})] *)
Definition rename_columns (df : frame) : frame :=
  Frame (n_rows df)
        (map (fun c => (col_map_get (fst c), snd c)) (f_columns df)).

(** [label in df.columns] *)
Definition has_column (label : str) (df : frame) : bool :=
  existsb (fun c => str_eqb label (fst c)) (f_columns df).

(** [df[label] = v] for a scalar [v]: the column gets [v] in every row;
    a new column goes last. *)
Definition set_column (label : str) (v : cell) (df : frame) : frame :=
  let data := repeat v (n_rows df) in
  if has_column label df then
    Frame (n_rows df)
          (map (fun c => if str_eqb label (fst c) then (fst c, data) else c)
               (f_columns df))
  else Frame (n_rows df) (f_columns df ++ [(label, data)]).

Definition standardize_columns (df : frame) (supplier_name : str)
    : outcome frame :=
  let df := rename_columns df in
  if negb (has_column (py "Product_Name") df) then Raise ValueError
  else Return (set_column (py "Supplier") (CStr supplier_name) df).

(** The loop [for col in ['Serial_Number', 'Product_Name']] of the
    pipeline: a required column that is absent is created, filled with
    [None]. *)
Definition ensure_columns (labels : list str) (df : frame) : frame :=
  fold_left (fun df col =>
               if negb (has_column col df) then set_column col CNone df
               else df)
            labels df.

Definition required_columns : list str :=
  [py "Serial_Number"; py "Product_Name"].

(** [str(x)] of a cell *)
Definition cell_str (x : cell) : str :=
  match x with
  | CNone => py "None"
  | CNaN => py "nan"
  | CStr s => s
  end.

Section SupplierRule.
Context {RT : Runtime}.

(** [lambda x: "CTN" if str(x).strip().upper() == "CTN" else "NON-CTN"],
    applied to the Unit column of the Amal Trading file *)
Definition unit_packaging (x : cell) : str :=
  if str_eqb (str_upper (str_strip (cell_str x))) (py "CTN")
  then py "CTN" else py "NON-CTN".
End SupplierRule.

(** ** Merging_code.py: consolidation *)

(** One row of the frame every supplier file is reduced to. *)
Record product := Product {
  Product_Name : cell;
  Serial_Number : cell;
  Supplier : str;
  Weight_Quantity : option str;
  Packaging_Type : str;
  Units_Per_Carton : option Z
}.

(** The [subset] key of [drop_duplicates]; pandas treats all missing
    values of a column as equal. *)
Definition dedup_key (p : product) : option str * str :=
  (match Product_Name p with CStr s => Some s | _ => None end, Supplier p).

(** [drop_duplicates(subset=..., keep='first')]: a row is dropped when
    its key was seen in an earlier row. *)
Fixpoint drop_seen (seen : gset (option str * str)) (rows : list product)
    : list product :=
  match rows with
  | [] => []
  | r :: t =>
      if decide (dedup_key r ∈ seen) then drop_seen seen t
      else r :: drop_seen ({[dedup_key r]} ∪ seen) t
  end.

Definition drop_duplicates (rows : list product) : list product :=
  drop_seen ∅ rows.

(** [[f"product_{i+1}" for i in range(n)]] *)
Definition product_ids (n : nat) : list str :=
  map (fun i => py "product_" ++ str_of_int (Z.of_nat i + 1)) (seq 0 n).

(** [pd.concat(all_data, ignore_index=True)]; pandas raises [ValueError]
    when there is nothing to concatenate. *)
Definition pd_concat (all_data : list (list product))
    : outcome (list product) :=
  match all_data with
  | [] => Raise ValueError
  | _ => Return (concat all_data)
  end.

(** [pd.concat], [drop_duplicates], [reset_index] and the [Product_ID]
    column: the final frame as (Product_ID, row) pairs. *)
Definition final_df (all_data : list (list product))
    : outcome (list (str * product)) :=
  rows ← pd_concat all_data;
  let rows := drop_duplicates rows in
  Return (zip (product_ids (length rows)) rows).

(** ** Cosine_Similarity_Code.py: the scorer *)

(** Python's order on [str]: lexicographic by code point. *)
Fixpoint str_leb (a b : str) : bool :=
  match a, b with
  | [], _ => true
  | _ :: _, [] => false
  | x :: a', y :: b' => (x <? y)%N || ((x =? y)%N && str_leb a' b')
  end.

Definition str_le (a b : str) : Prop := Is_true (str_leb a b).

#[global] Instance str_le_dec (a b : str) : Decision (str_le a b) :=
  Is_true_dec (str_leb a b).

Definition count_token (t : str) (doc : list str) : nat :=
  length (filter (str_eqb t) doc).

(** One row of a CSR matrix: the stored entries, by increasing column;
    columns are named by their term. *)
Abbreviation sparse_row := (list (str * float)).

Definition b64_zero : float := S754_zero false.
Definition b64_one : float := b64_of_Z 1.

(** [np.log(1.5)] *)
Definition log_three_halves : float := b64_of_decimal 4054651081081644 16.

(** [np.log(n_samples / df) + 1] with smoothing, for the two-document
    corpus: [n_samples] is 3 and [df] is 2 (a term of one document) or
    3 (a term of both). *)
Definition idf (df : nat) : float :=
  if (df =? 3)%nat then b64_add b64_zero b64_one
  else b64_add log_three_halves b64_one.

(** [inplace_csr_row_normalize_l2] on one row *)
Definition normalize_l2 (row : sparse_row) : sparse_row :=
  let sum := fold_left (fun acc e => b64_add acc (b64_mul (snd e) (snd e)))
                       row b64_zero in
  if b64_eqb sum b64_zero then row
  else
    let norm := b64_sqrt sum in
    map (fun e => (fst e, b64_div (snd e) norm)) row.

Definition row_lookup (t : str) (row : sparse_row) : option float :=
  match find (fun e => str_eqb t (fst e)) row with
  | Some e => Some (snd e)
  | None => None
  end.

(** The single entry of [x @ y.T] for two rows, densified: products of
    the entries stored in both, accumulated in column order. *)
Definition sparse_dot (x y : sparse_row) : float :=
  fold_left (fun acc e =>
               match row_lookup (fst e) y with
               | Some w => b64_add acc (b64_mul (snd e) w)
               | None => acc
               end) x b64_zero.

Section Scorer.
Context {RT : Runtime}.

(** [(?u)\b\w\w+\b], the default [token_pattern] *)
Definition token_re : regex :=
  Seqs [WordB is_word; Chr is_word; Plus is_word; WordB is_word].

(** The default analyzer of [TfidfVectorizer]: lower-case, then every
    run of two or more word characters. *)
Definition tokenize (text : str) : list str :=
  findall_whole token_re (uni_lower text).

(** The fitted vocabulary: the distinct terms, sorted. *)
Definition vocabulary (doc1 doc2 : list str) : list str :=
  merge_sort str_le (remove_dups (doc1 ++ doc2)).

Definition doc_freq (t : str) (doc1 doc2 : list str) : nat :=
  (if (0 <? count_token t doc1)%nat then 1 else 0)
  + (if (0 <? count_token t doc2)%nat then 1 else 0).

(** One row of the term-count matrix scaled by idf. *)
Definition tfidf_row (vocab doc doc1 doc2 : list str) : sparse_row :=
  flat_map (fun t =>
              let c := count_token t doc in
              if (c =? 0)%nat then []
              else [(t, b64_mul (b64_of_Z (Z.of_nat c))
                                (idf (1 + doc_freq t doc1 doc2)))])
           vocab.

(** [TfidfVectorizer().fit([text1, text2])] raises [ValueError] on an
    empty vocabulary; [transform] normalises each row, and
    [cosine_similarity] normalises again before the product. *)
Definition compute_similarity (text1 text2 : str) : outcome float :=
  let doc1 := tokenize text1 in
  let doc2 := tokenize text2 in
  let vocab := vocabulary doc1 doc2 in
  match vocab with
  | [] => Raise ValueError
  | _ =>
      let v0 := normalize_l2 (tfidf_row vocab doc1 doc1 doc2) in
      let v1 := normalize_l2 (tfidf_row vocab doc2 doc1 doc2) in
      Return (sparse_dot (normalize_l2 v0) (normalize_l2 v1))
  end.
End Scorer.

(** ** Cosine_Similarity_Code.py: the match resolver *)

(** A JSON value as [json.load] delivers it; arrays and objects only
    matter through their truth value. *)
Inductive value :=
| VNull
| VBool (b : bool)
| VInt (z : Z)
| VFloat (f : float)
| VStr (s : str)
| VOther (nonempty : bool).

(** One record of the input file, a Python [dict]. *)
Abbreviation record := (gmap str value).

(** Truth value, as [not v] tests it. *)
Definition truthy (v : value) : bool :=
  match v with
  | VNull => false
  | VBool b => b
  | VInt z => negb (z =? 0)
  | VFloat f => negb (b64_eqb f b64_zero)
  | VStr s => match s with [] => false | _ => true end
  | VOther b => b
  end.

Definition url_title_key (i : Z) : str :=
  py "url_" ++ str_of_int i ++ py "_title".
Definition url_key (i : Z) : str := py "url_" ++ str_of_int i.
Definition url_similarity_key (i : Z) : str :=
  py "url_" ++ str_of_int i ++ py "_similarity".

(** The decision threshold, the literal [0.6]. *)
Definition threshold : float := b64_of_decimal 6 1.

(** The local variables of [main] that survive one iteration of the slot
    loop.  [best_similarity] starts as the int [0], here [None]. *)
Record resolver := Resolver {
  similarities : gmap str value;
  best_similarity : option float;
  best_url : value
}.

Definition resolver_init : resolver := Resolver ∅ None VNull.

(** [similarity > best_similarity] *)
Definition beats (similarity : float) (best : option float) : bool :=
  match best with
  | None => b64_ltb b64_zero similarity
  | Some b => b64_ltb b similarity
  end.

(** [best_similarity >= 0.6] *)
Definition reaches_threshold (best : option float) : bool :=
  match best with
  | None => false
  | Some b => b64_leb threshold b
  end.

(** A row of [url_similarity_results]:
    [(id, serial_number, input_title, matched_url, status)]. *)
Definition db_row : Type := option value * option value * str * value * str.

(** A text that UTF-8 can encode: code points up to U+10FFFF, none of
    them a surrogate. *)
Definition utf8_encodable (s : str) : bool :=
  forallb (fun c => ((c <? 55296) || (57343 <? c)) && (c <=? 1114111))%N s.

(** Binding one parameter of [cur.execute]: [sqlite3] takes [None],
    numbers and text; an integer outside 64 bits raises [OverflowError],
    a text with a lone surrogate [UnicodeEncodeError], an array or an
    object [ProgrammingError] ([InterfaceError] before Python 3.11). *)
Definition sql_bind (v : option value) : outcome unit :=
  match v with
  | Some (VOther _) => Raise ProgrammingError
  | Some (VInt z) => if fits_int64 z then Return tt else Raise OverflowError
  | Some (VStr s) =>
      if utf8_encodable s then Return tt else Raise UnicodeEncodeError
  | _ => Return tt
  end.

Section Resolver.
Context {RT : Runtime}.

(** [v.lower()] for a JSON value *)
Definition value_lower (v : value) : outcome str :=
  match v with
  | VStr s => Return (uni_lower s)
  | _ => Raise AttributeError
  end.

(** [record.get("input_title", "").strip()] *)
Definition get_input_title (rec : record) : outcome str :=
  match rec !! py "input_title" with
  | None => Return []
  | Some (VStr s) => Return (str_strip s)
  | Some _ => Raise AttributeError
  end.

(** The body of [for i in range(1, 6)]. *)
Definition score_slot (rec : record) (input_title : str) (i : Z)
    (st : resolver) : outcome resolver :=
  match rec !! url_title_key i with
  | None => Return st
  | Some title =>
      if negb (truthy title) then Return st
      else
        title_lower ← value_lower title;
        similarity ← compute_similarity (uni_lower input_title) title_lower;
        let sims := <[url_similarity_key i := VFloat (py_round3 similarity)]>
                      (similarities st) in
        if beats similarity (best_similarity st) then
          match rec !! url_key i with
          | Some url => Return (Resolver sims (Some similarity) url)
          | None => Raise KeyError
          end
        else Return (Resolver sims (best_similarity st) (best_url st))
  end.

Fixpoint score_slots (rec : record) (input_title : str) (slots : list Z)
    (st : resolver) : outcome resolver :=
  match slots with
  | [] => Return st
  | i :: rest =>
      st' ← score_slot rec input_title i st;
      score_slots rec input_title rest st'
  end.

(** [range(1, 6)] *)
Definition slot_range : list Z := [1; 2; 3; 4; 5].

(** One iteration of [for record in data]: the augmented record and
    the row inserted in the database. *)
Definition process_record (rec : record) : outcome (record * db_row) :=
  let record_id := rec !! py "id" in
  let serial_number := rec !! py "serial_number" in
  input_title ← get_input_title rec;
  st ← score_slots rec input_title slot_range resolver_init;
  let rec1 := similarities st ∪ rec in
  let '(status, matched_url) :=
    if reaches_threshold (best_similarity st)
    then (py "Available", best_url st)
    else (py "Not Available", VStr (py "Not available everywhere")) in
  _ ← sql_bind record_id;
  _ ← sql_bind serial_number;
  _ ← sql_bind (Some (VStr input_title));
  _ ← sql_bind (Some matched_url);
  _ ← sql_bind (Some (VStr status));
  let rounded := match best_similarity st with
                 | None => VInt 0
                 | Some b => VFloat (py_round3 b)
                 end in
  let rec2 := <[py "status" := VStr status]>
                (<[py "matched_url" := matched_url]>
                   (<[py "best_similarity" := rounded]> rec1)) in
  Return (rec2, (record_id, serial_number, input_title, matched_url, status)).

(** The record loop of [main]: an exception leaves the loop, and the
    handler around the whole body only logs it, so nothing is written
    for any record. *)
Fixpoint process_all (data : list record)
    : outcome (list record * list db_row) :=
  match data with
  | [] => Return ([], [])
  | rec :: rest =>
      r ← process_record rec;
      rs ← process_all rest;
      Return (fst r :: fst rs, snd r :: snd rs)
  end.
End Resolver.

(** ** Notions used in the statements *)

(** The computation ended without an exception. *)
Definition returns {A} (x : outcome A) : bool :=
  match x with Return _ => true | Raise _ => false end.

(** White space has no case: [str.upper] leaves it alone. *)
Definition whitespace_caseless (RT : Runtime) : Prop :=
  forall c, is_space c = true -> uni_upper c = [c].

(** A text of white space only. *)
Definition all_space (w : str) : Prop := Forall (fun c => is_space c = true) w.

(** A text without white space. *)
Definition no_space (k : str) : Prop := Forall (fun c => is_space c = false) k.

(** The exact value of a finite float as a fraction: numerator. *)
Definition float_num (x : float) : Z :=
  match x with
  | S754_finite s m e =>
      (if s then -1 else 1) * (if 0 <=? e then Zpos m * 2 ^ e else Zpos m)
  | _ => 0
  end.

(** The exact value of a finite float as a fraction: denominator. *)
Definition float_den (x : float) : Z :=
  match x with
  | S754_finite s m e => if 0 <=? e then 1 else 2 ^ (- e)
  | _ => 1
  end.

(** [k] is an integer nearest to [x], and the even one of the two when
    [x] lies halfway between them. *)
Definition nearest_even (k : Z) (x : float) : Prop :=
  Z.abs (2 * (k * float_den x - float_num x)) <= float_den x
  /\ (Z.abs (2 * (k * float_den x - float_num x)) = float_den x ->
      Z.even k = true).

(** The rounding the specification describes: nearest integer, halfway
    cases away from zero. *)
Definition round_half_away (x : float) : outcome Z :=
  match x with
  | S754_zero _ => Return 0
  | S754_infinity _ => Raise OverflowError
  | S754_nan => Raise ValueError
  | S754_finite s m e => Return (if s then - c_round m e else c_round m e)
  end.

(** The Unit Normalizer for a KG or KGS token as the specification
    describes it. *)
Definition kg_half_away `{RT : Runtime} (literal : str) : outcome (option str) :=
  value ← py_float literal;
  k ← round_half_away (b64_mul value (b64_of_Z 1000));
  mret (Some (str_of_int k ++ py "G")).

(** [steps r st st']: the pattern [r] can take the matcher from [st] to
    [st'].  Backtracking order is forgotten; only the shape of a match
    remains. *)
Fixpoint steps (r : regex) (st st' : mstate) : Prop :=
  match r with
  | Eps => st' = st
  | Chr p =>
      exists c t, m_suf st = c :: t /\ p c = true
                  /\ st' = MState (c :: m_pre st) t (m_caps st)
  | Seq a b => exists mid, steps a st mid /\ steps b mid st'
  | Alt a b => steps a st st' \/ steps b st st'
  | Star p =>
      exists cs t, m_suf st = cs ++ t /\ Forall (fun c => p c = true) cs
                   /\ st' = MState (rev cs ++ m_pre st) t (m_caps st)
  | Opt a => steps a st st' \/ st' = st
  | Group n a =>
      exists st1, steps a st st1
        /\ st' = MState (m_pre st1) (m_suf st1)
                   ((n, consumed (m_pre st) (m_pre st1)) :: m_caps st1)
  | Ahead a =>
      exists st1, steps a st st1
        /\ st' = MState (m_pre st) (m_suf st) (m_caps st1)
  | WordB w => at_boundary w st = true /\ st' = st
  | EndS => at_end st = true /\ st' = st
  end.

(** Every group [n] of the pattern wraps something whose matches satisfy
    [T n]. *)
Fixpoint groups_match (T : nat -> str -> Prop) (r : regex) : Prop :=
  match r with
  | Seq a b | Alt a b => groups_match T a /\ groups_match T b
  | Opt a | Ahead a => groups_match T a
  | Group n a =>
      groups_match T a
      /\ forall st st1, steps a st st1 ->
                        T n (consumed (m_pre st) (m_pre st1))
  | _ => True
  end.

(** Group [n] is set on every path through the pattern. *)
Fixpoint binds (n : nat) (r : regex) : bool :=
  match r with
  | Seq a b => binds n a || binds n b
  | Alt a b => binds n a && binds n b
  | Group m a => Nat.eqb m n || binds n a
  | Ahead a => binds n a
  | _ => false
  end.

(** Every captured text satisfies [T] at its group number. *)
Definition caps_typed (T : nat -> str -> Prop) (caps : list (nat * str)) : Prop :=
  Forall (fun c => T (fst c) (snd c)) caps.


(** A row whose stored entries are given, column by column, by [f]. *)
Definition row_of (vocab : list str) (f : str -> option float) : sparse_row :=
  flat_map (fun t => match f t with Some v => [(t, v)] | None => [] end) vocab.

(** One column of the dot product of [row_of vocab f] and
    [row_of vocab g]. *)
Definition dot_step (f g : str -> option float) (acc : float) (t : str) : float :=
  match f t, g t with
  | Some v, Some w => b64_add acc (b64_mul v w)
  | _, _ => acc
  end.

(** Not-a-number, which no comparison relates to anything. *)
Definition is_nan (x : float) : Prop :=
  match x with S754_nan => True | _ => False end.

(** A key that orders the values other than NaN lexicographically, as
    [SFcompare] does: first component, class and sign. *)
Definition key1 (x : float) : Z :=
  match x with
  | S754_infinity s => if s then -2 else 2
  | S754_finite s _ _ => if s then -1 else 1
  | _ => 0
  end.

(** Second component of the key: the exponent, negated below zero. *)
Definition key2 (x : float) : Z :=
  match x with
  | S754_finite s _ e => if s then - e else e
  | _ => 0
  end.

(** Third component of the key: the signed mantissa. *)
Definition key3 (x : float) : Z :=
  match x with
  | S754_finite s m _ => if s then Zneg m else Zpos m
  | _ => 0
  end.

(** Lexicographic order on the keys. *)
Definition key_lt (x y : float) : Prop :=
  key1 x < key1 y
  \/ (key1 x = key1 y
      /\ (key2 x < key2 y \/ (key2 x = key2 y /\ key3 x < key3 y))).

(** Equal keys: values that compare equal. *)
Definition key_eq (x y : float) : Prop :=
  key1 x = key1 y /\ key2 x = key2 y /\ key3 x = key3 y.

(** Every match of the pattern takes, or looks ahead at, a code point
    satisfying [P]. *)
Fixpoint demands (P : N -> Prop) (r : regex) : Prop :=
  match r with
  | Chr p => forall c, p c = true -> P c
  | Seq a b => demands P a \/ demands P b
  | Alt a b => demands P a /\ demands P b
  | Group _ a | Ahead a => demands P a
  | _ => False
  end.

(** Zero, a positive finite number or plus infinity. *)
Definition plus_signed (x : float) : Prop :=
  match x with
  | S754_zero false | S754_infinity false | S754_finite false _ _ => True
  | _ => False
  end.

(** The labels that [col_map] turns into Product_Name. *)
Definition name_aliases : list str :=
  [py "Item Name"; py "PRODUCT TITLE"; py "Name"; py "Product_Name"].

(** The terms stored in a row. *)
Definition row_terms (row : sparse_row) : list str := map fst row.

(** The keys [main] writes besides the per-slot similarities. *)
Definition result_keys : list str :=
  [py "status"; py "matched_url"; py "best_similarity"].

(** A text that UTF-8 can encode: code points up to U+10FFFF, none of
    them a surrogate. *)
Definition utf8_text (s : str) : Prop :=
  forallb (fun c => ((c <? 55296) || (57343 <? c)) && (c <=? 1114111))%N s
  = true.

(** The sentinel stored as matched_url of an unmatched record. *)
Definition not_available_everywhere : value :=
  VStr (py "Not available everywhere").

(** A value that [sqlite3] can bind as a parameter: no array or object,
    an integer within 64 bits, a text that UTF-8 can encode. *)
Definition bindable (v : value) : Prop :=
  match v with
  | VOther _ => False
  | VInt z => fits_int64 z = true
  | VStr s => utf8_text s
  | _ => True
  end.

(** A field that is absent or holds a value that can be bound. *)
Definition storable (v : option value) : Prop :=
  forall x, v = Some x -> bindable x.

Section Notions.
Context {RT : Runtime}.

(** A text of decimal digits, possibly empty. *)
Definition digits_only (s : str) : Prop :=
  Forall (fun c => is_digit c = true) s.

(** The fractional part of the literal in [weight_re]. *)
Definition fraction_re : regex := Seq (Chr (one 46)) (Plus is_digit).

(** What follows the numeric literal in [weight_re]. *)
Definition weight_tail : regex :=
  Seqs [Star is_space;
        Group 2 (Alts (map (fun u => LitP uni_icase (py u)) unit_tokens));
        Ahead (Alt (Chr after_unit) EndS)].

(** The text of a [(\d+)] group: one or more decimal digits. *)
Definition digit_run (g : str) : Prop :=
  g <> [] /\ Forall (fun c => is_digit c = true) g.





(** Slot [i] of the record has a usable title and scores [s] against the
    input title. *)
Definition slot_scored (rec : record) (input_title : str) (i : Z)
    (s : float) : Prop :=
  exists title title_lower,
    rec !! url_title_key i = Some title
    /\ truthy title = true
    /\ value_lower title = Return title_lower
    /\ compute_similarity (uni_lower input_title) title_lower = Return s.

(** Slot [i] is passed over: its title is absent or falsy (empty text,
    null, zero, false). *)
Definition slot_skipped (rec : record) (i : Z) : Prop :=
  rec !! url_title_key i = None
  \/ exists title, rec !! url_title_key i = Some title /\ truthy title = false.

(** What the loop has selected after the slots [seen]: nothing while no
    similarity was positive; otherwise the first slot whose similarity no
    slot exceeds. *)
Definition selection (rec : record) (input_title : str) (seen : list Z)
    (st : resolver) : Prop :=
  match best_similarity st with
  | None =>
      best_url st = VNull
      /\ forall j s, j ∈ seen -> slot_scored rec input_title j s ->
                     b64_ltb b64_zero s = false
  | Some b =>
      b64_ltb b64_zero b = true
      /\ exists pre i post,
           seen = pre ++ i :: post
           /\ slot_scored rec input_title i b
           /\ rec !! url_key i = Some (best_url st)
           /\ (forall j s, j ∈ seen -> slot_scored rec input_title j s ->
                           b64_ltb b s = false)
           /\ (forall j s, j ∈ pre -> slot_scored rec input_title j s ->
                           b64_leb b s = false)
  end.

(** The similarity keys written so far belong to scored slots. *)
Definition recorded (rec : record) (input_title : str) (seen : list Z)
    (st : resolver) : Prop :=
  forall k, is_Some (similarities st !! k) ->
            exists j s, j ∈ seen /\ k = url_similarity_key j
                        /\ slot_scored rec input_title j s.

(** Every scored slot seen so far has its rounded similarity on
    record. *)
Definition all_recorded (rec : record) (input_title : str) (seen : list Z)
    (st : resolver) : Prop :=
  forall j s, j ∈ seen -> slot_scored rec input_title j s ->
              similarities st !! url_similarity_key j
              = Some (VFloat (py_round3 s)).

(** Slot [i] is absent, or has a text as title and a URL that can be
    stored. *)
Definition slot_well_formed (rec : record) (i : Z) : Prop :=
  slot_skipped rec i
  \/ exists title url,
       rec !! url_title_key i = Some (VStr title)
       /\ rec !! url_key i = Some url /\ bindable url.

(** The unit alternatives followed by the lookahead. *)
Definition unit_then : regex :=
  Seq (Group 2 (Alts (map (fun u => LitP uni_icase (py u)) unit_tokens)))
      (Ahead (Alt (Chr after_unit) EndS)).

(** The token alternatives of case 1 followed by the word boundary. *)
Definition pcs_then : regex :=
  Seq (Group 2 (Alts [Lit (py "PCS"); Lit (py "PC"); Lit (py "PS")]))
      (WordB is_word).
End Notions.

(** ** Data of the worked examples *)

(** A catalogue row; two crates differ in their serial number only. *)
Definition crate (serial : string) : product :=
  Product (CStr (py "PEPSI 24X330ML CTN")) (CStr (py serial)) (py "Future")
          (Some (py "330G")) (py "CTN") (Some 24).

(** Two titles without any term of two or more word characters: the
    vectorizer is fitted on an empty vocabulary. *)
Definition blank_record : record :=
  <[py "input_title" := VStr (py "")]>
    (<[py "url_1_title" := VStr (py "N/A")]>
       (<[py "url_1" := VStr (py "https://example.org/1")]> ∅)).

(** A record whose only candidate repeats the input title. *)
Definition pepsi_record : record :=
  <[py "input_title" := VStr (py "Pepsi Can")]>
    (<[py "url_1_title" := VStr (py "Pepsi Can")]>
       (<[py "url_1" := VStr (py "https://example.org/2")]> ∅)).

(** Best similarity 0.59983..., just below the threshold. *)
Definition near_miss_record : record :=
  <[py "input_title" := VStr (py "aa bb cc dd aa")]>
    (<[py "url_1_title" := VStr (py "aa bb cc dd ee ff gg")]>
       (<[py "url_1" := VStr (py "https://example.org/1")]> ∅)).

(** A record whose first slot carries the scraper's placeholder. *)
Definition placeholder_record : record :=
  <[py "input_title" := VStr (py "Not Available")]>
    (<[py "url_1_title" := VStr (py "Not Available")]>
       (<[py "url_1" := VStr (py "Not Available")]> ∅)).

(** Slots 2 and 3 tie above the threshold; slot 1 scores less. *)
Definition tie_record : record :=
  <[py "input_title" := VStr (py "Pepsi Can")]>
    (<[py "url_1_title" := VStr (py "Cola")]>
    (<[py "url_1" := VStr (py "https://example.org/1")]>
    (<[py "url_2_title" := VStr (py "Pepsi Can 330ml")]>
    (<[py "url_2" := VStr (py "https://example.org/2")]>
    (<[py "url_3_title" := VStr (py "Pepsi Can 500ml")]>
    (<[py "url_3" := VStr (py "https://example.org/3")]> ∅)))))).

(** Slot 1 has an empty title, slot 2 matches. *)
Definition gap_record : record :=
  <[py "input_title" := VStr (py "Pepsi Can")]>
    (<[py "url_1_title" := VStr (py "")]>
    (<[py "url_1" := VStr (py "https://example.org/1")]>
    (<[py "url_2_title" := VStr (py "Pepsi Can")]>
    (<[py "url_2" := VStr (py "https://example.org/2")]> ∅)))).


(** The only slot shares no word with the input title. *)
Definition unrelated_record : record :=
  <[py "input_title" := VStr (py "Pepsi Can")]>
    (<[py "url_1_title" := VStr (py "Basmati Rice")]>
       (<[py "url_1" := VStr (py "https://example.org/1")]> ∅)).

(** A record without any candidate. *)
Definition untitled_record : record :=
  <[py "id" := VStr (py "p-17")]>
    (<[py "input_title" := VStr (py "  Pepsi Can ")]> ∅).

(** * Properties *)

(** ** Worked examples on ASCII text *)

Section Examples.
Local Existing Instance ascii_runtime.

(** C1. On ["4 X 18 X 56G"] the third recognizer (count, multiplication
    sign, quantity and unit) already matches at ["18 X 56G"], so the
    function returns 18; the chained-X recognizer, which would have
    multiplied 4 by 18, is never reached. *)
Theorem units_4x18x56g_is_18 :
  extract_units_per_carton (CStr (py "4 X 18 X 56G")) = Return (Some 18)
  /\ units_chain (py "4 X 18 X 56G") = Return (Some 72).
Proof. split; vm_compute; reflexivity. Qed.

(** C2. When neither string has a term, [compute_similarity] raises
    [ValueError]; [main] has no handler inside the record loop, so a
    record that alone is processed normally is not processed when such a
    record precedes it. *)
Theorem empty_vocabulary_raises :
  compute_similarity (py "") (py "n/a") = Raise ValueError
  /\ process_record blank_record = Raise ValueError
  /\ process_all [blank_record; pepsi_record] = Raise ValueError
  /\ returns (process_all [pepsi_record]) = true.
Proof. repeat split; vm_compute; reflexivity. Qed.
End Examples.

(** ** Consolidation *)

Lemma py_inj (a b : string) : py a = py b -> a = b.
Proof.
  unfold py. revert b.
  induction a as [|x a IH]; intros [|y b]; simpl; try discriminate; auto.
  intros H. injection H as Hxy Hab.
  f_equal; [|by apply IH].
  rewrite <- (ascii_N_embedding x), <- (ascii_N_embedding y). by rewrite Hxy.
Qed.

Lemma str_of_int_inj (a b : Z) : str_of_int a = str_of_int b -> a = b.
Proof. intros H. apply py_inj in H. by apply (inj pretty). Qed.

Lemma drop_seen_fresh seen rows e :
  e ∈ drop_seen seen rows -> dedup_key e ∉ seen.
Proof.
  revert seen. induction rows as [|r t IH]; intros seen; simpl.
  - by intros ?%elem_of_nil.
  - destruct (decide (dedup_key r ∈ seen)) as [Hin|Hout]; [by apply IH|].
    rewrite elem_of_cons. intros [->|He]; [done|].
    apply IH in He. set_solver.
Qed.

Lemma drop_seen_NoDup seen rows :
  NoDup (map dedup_key (drop_seen seen rows)).
Proof.
  revert seen. induction rows as [|r t IH]; intros seen; simpl.
  - constructor.
  - destruct (decide (dedup_key r ∈ seen)); [apply IH|].
    simpl. constructor; [|apply IH].
    change (map ?f ?l) with (f <$> l).
    intros (e & He & Hin)%list_elem_of_fmap.
    apply drop_seen_fresh in Hin. rewrite <- He in Hin. set_solver.
Qed.

Lemma drop_seen_covers seen rows r :
  r ∈ rows ->
  dedup_key r ∈ seen
  \/ exists e, e ∈ drop_seen seen rows /\ dedup_key e = dedup_key r.
Proof.
  revert seen. induction rows as [|x t IH]; intros seen; simpl.
  - by intros ?%elem_of_nil.
  - rewrite elem_of_cons. intros [->|Hin].
    + destruct (decide (dedup_key x ∈ seen)); [by left|].
      right. exists x. split; [by left|done].
    + destruct (decide (dedup_key x ∈ seen)); [by apply IH|].
      destruct (IH ({[dedup_key x]} ∪ seen) Hin) as [Hs|(e & He & Hk)].
      * apply elem_of_union in Hs as [Hs%elem_of_singleton|Hs]; [|by left].
        right. exists x. split; [by left|done].
      * right. exists e. split; [by right|done].
Qed.

Lemma drop_seen_sublist seen rows : sublist (drop_seen seen rows) rows.
Proof.
  revert seen. induction rows as [|x t IH]; intros seen; simpl.
  - constructor.
  - destruct (decide (dedup_key x ∈ seen)); by constructor.
Qed.

Lemma drop_seen_first seen rows e :
  e ∈ drop_seen seen rows ->
  exists l1 l2, rows = l1 ++ e :: l2
    /\ forall r, r ∈ l1 -> dedup_key r ≠ dedup_key e.
Proof.
  revert seen. induction rows as [|x t IH]; intros seen; simpl.
  - by intros ?%elem_of_nil.
  - destruct (decide (dedup_key x ∈ seen)) as [Hin|Hout].
    + intros He. pose proof (drop_seen_fresh _ _ _ He) as Hfresh.
      destruct (IH _ He) as (l1 & l2 & -> & Hl1).
      exists (x :: l1), l2. split; [done|].
      intros r [->|Hr]%elem_of_cons; [congruence|by apply Hl1].
    + rewrite elem_of_cons. intros [->|He].
      * exists [], t. split; [done|]. by intros r ?%elem_of_nil.
      * pose proof (drop_seen_fresh _ _ _ He) as Hfresh.
        destruct (IH _ He) as (l1 & l2 & -> & Hl1).
        exists (x :: l1), l2. split; [done|].
        intros r [->|Hr]%elem_of_cons; [|by apply Hl1].
        intros Heq. apply Hfresh. rewrite <- Heq. set_solver.
Qed.

Lemma product_ids_length n : length (product_ids n) = n.
Proof. unfold product_ids. by rewrite length_map, length_seq. Qed.

Lemma product_ids_lookup n i :
  (i < n)%nat ->
  product_ids n !! i = Some (py "product_" ++ str_of_int (Z.of_nat i + 1)).
Proof.
  intros Hi. unfold product_ids.
  change (map ?f ?l) with (f <$> l). rewrite list_lookup_fmap.
  by rewrite lookup_seq_lt.
Qed.

Lemma product_ids_NoDup n : NoDup (product_ids n).
Proof.
  unfold product_ids. change (map ?f ?l) with (f <$> l).
  apply NoDup_fmap_2_strong; [|apply NoDup_seq].
  intros i j _ _ H. apply app_inv_head in H.
  apply str_of_int_inj in H. lia.
Qed.

Lemma zip_ids_rows (rows : list product) :
  map snd (zip (product_ids (length rows)) rows) = rows
  /\ map fst (zip (product_ids (length rows)) rows)
     = product_ids (length rows)
  /\ length (zip (product_ids (length rows)) rows) = length rows.
Proof.
  change (map ?f ?l) with (f <$> l).
  rewrite snd_zip, fst_zip by (by rewrite product_ids_length).
  repeat split. rewrite length_zip_with_l_eq; by rewrite product_ids_length.
Qed.

(** C6. For at least one batch (with none, [pd.concat] raises), the
    consolidated catalogue has exactly one entry for every distinct
    (Product_Name, Supplier) pair of the concatenated batches: the keys
    of the output are pairwise distinct, every input row's key occurs,
    the rows are kept in concatenation order and each kept row is the
    first one with its key.  The identifiers are [product_1] to
    [product_n] in row order, without repetition. *)
Theorem final_df_unique_first_dense (all_data : list (list product)) :
  all_data <> [] ->
  let rows := concat all_data in
  exists out,
    final_df all_data = Return out
    /\ NoDup (map dedup_key (map snd out))
    /\ (forall r, r ∈ rows ->
          exists e, e ∈ map snd out /\ dedup_key e = dedup_key r)
    /\ sublist (map snd out) rows
    /\ (forall e, e ∈ map snd out ->
          exists l1 l2, rows = l1 ++ e :: l2
            /\ forall r, r ∈ l1 -> dedup_key r ≠ dedup_key e)
    /\ map fst out = product_ids (length out)
    /\ (forall i, (i < length out)%nat ->
          map fst out !! i
          = Some (py "product_" ++ str_of_int (Z.of_nat i + 1)))
    /\ NoDup (map fst out).
Proof.
  intros Hne rows. unfold final_df, pd_concat.
  destruct all_data as [|batch all_data]; [done|]. fold rows.
  eexists. split; [reflexivity|].
  destruct (zip_ids_rows (drop_duplicates rows)) as (-> & -> & ->).
  unfold drop_duplicates. repeat split.
  - apply drop_seen_NoDup.
  - intros r Hr. destruct (drop_seen_covers ∅ rows r Hr) as [H|H]; [|done].
    set_solver.
  - apply drop_seen_sublist.
  - apply drop_seen_first.
  - intros i Hi. by apply product_ids_lookup.
  - apply product_ids_NoDup.
Qed.

Lemma final_df_unique_first_dense_witness :
  [[crate "1"]; [crate "2"]] <> []
  /\ exists out,
       final_df [[crate "1"]; [crate "2"]] = Return out
       /\ NoDup (map dedup_key (map snd out))
       /\ (forall r, r ∈ [crate "1"; crate "2"] ->
             exists e, e ∈ map snd out /\ dedup_key e = dedup_key r)
       /\ sublist (map snd out) [crate "1"; crate "2"]
       /\ (forall e, e ∈ map snd out ->
             exists l1 l2, [crate "1"; crate "2"] = l1 ++ e :: l2
               /\ forall r, r ∈ l1 -> dedup_key r ≠ dedup_key e)
       /\ map fst out = product_ids (length out)
       /\ (forall i, (i < length out)%nat ->
             map fst out !! i
             = Some (py "product_" ++ str_of_int (Z.of_nat i + 1)))
       /\ NoDup (map fst out).
Proof.
  split; [discriminate|].
  apply (final_df_unique_first_dense [[crate "1"]; [crate "2"]]).
  discriminate.
Defined.

(** The run above keeps the first of the two rows, as [product_1]. *)
Lemma final_df_keeps_first :
  final_df [[crate "1"]; [crate "2"]] = Return [(py "product_1", crate "1")].
Proof. vm_compute. reflexivity. Qed.

(** ** The packaging classifier *)

Lemma lstrip_split (s : str) :
  exists w, s = w ++ lstrip s /\ all_space w.
Proof.
  induction s as [|c t (w & Ht & Hw)]; simpl.
  - exists []. split; [done|constructor].
  - destruct (is_space c) eqn:Hc.
    + exists (c :: w). split; [by rewrite Ht at 1|by constructor].
    + exists []. split; [done|constructor].
Qed.

Lemma str_strip_split (s : str) :
  exists w1 w2, s = w1 ++ str_strip s ++ w2 /\ all_space w1 /\ all_space w2.
Proof.
  unfold str_strip.
  destruct (lstrip_split s) as (w1 & Hs & Hw1).
  destruct (lstrip_split (rev (lstrip s))) as (w2 & Hr & Hw2).
  exists w1, (rev w2). repeat split; [|done|].
  - rewrite <- rev_app_distr, <- Hr, rev_involutive. done.
  - by apply Forall_rev.
Qed.

Lemma starts_with_space_head (k s : str) (c : N) :
  k <> [] -> no_space k -> is_space c = true ->
  starts_with k (c :: s) = false.
Proof.
  destruct k as [|a k]; [done|]. intros _ Hk Hc. simpl.
  destruct (N.eqb_spec a c) as [->|]; [|done].
  inversion Hk; congruence.
Qed.

Lemma contains_skip_leading (k w s : str) :
  k <> [] -> no_space k -> all_space w ->
  str_contains k (w ++ s) = str_contains k s.
Proof.
  intros Hne Hk Hw. induction Hw as [|c w Hc Hw IH]; [done|].
  simpl app. cbn [str_contains].
  rewrite starts_with_space_head by done. by rewrite IH.
Qed.

Lemma starts_with_trailing (k s w : str) :
  no_space k -> all_space w -> starts_with k (s ++ w) = starts_with k s.
Proof.
  intros Hk Hw. revert s. induction Hk as [|a k Ha Hk IH]; intros s.
  - by destruct s, w.
  - destruct s as [|c s]; simpl.
    + destruct Hw as [|b w Hb Hw]; [done|]. simpl.
      destruct (N.eqb_spec a b) as [->|]; [congruence|done].
    + by rewrite IH.
Qed.

Lemma contains_skip_trailing (k s w : str) :
  k <> [] -> no_space k -> all_space w ->
  str_contains k (s ++ w) = str_contains k s.
Proof.
  intros Hne Hk Hw. induction s as [|c s IH].
  - simpl app. rewrite <- (app_nil_r w) at 1.
    by rewrite contains_skip_leading.
  - change ((c :: s) ++ w) with (c :: (s ++ w)). cbn [str_contains].
    rewrite <- IH. f_equal.
    change (c :: (s ++ w)) with ((c :: s) ++ w).
    by apply starts_with_trailing.
Qed.

Section Packaging.
Context {RT : Runtime}.

Lemma str_upper_app (a b : str) :
  str_upper (a ++ b) = str_upper a ++ str_upper b.
Proof. unfold str_upper. apply flat_map_app. Qed.

Lemma str_upper_spaces (w : str) :
  whitespace_caseless RT -> all_space w -> str_upper w = w.
Proof.
  intros Hcl Hw. induction Hw as [|c w Hc Hw IH]; [done|].
  unfold str_upper in *. simpl. by rewrite (Hcl c Hc), IH.
Qed.

Lemma contains_upper_strip (k s : str) :
  whitespace_caseless RT -> k <> [] -> no_space k ->
  str_contains k (str_upper (str_strip s)) = str_contains k (str_upper s).
Proof.
  intros Hcl Hne Hk.
  destruct (str_strip_split s) as (w1 & w2 & Hs & Hw1 & Hw2).
  rewrite Hs at 2. rewrite !str_upper_app.
  rewrite (str_upper_spaces w1), (str_upper_spaces w2) by done.
  by rewrite contains_skip_leading, contains_skip_trailing.
Qed.

Lemma carton_keywords_no_space (k : str) :
  k ∈ carton_keywords -> k <> [] /\ no_space k.
Proof.
  unfold carton_keywords.
  rewrite !elem_of_cons, elem_of_nil.
  intros [->|[->|[->|[]]]]; (split; [done|]); repeat constructor.
Qed.

(** C9. The packaging classifier is a total function with exactly two
    results: for a missing cell (None or NaN) and for every text it
    returns "CTN" or "NON-CTN", and it returns "CTN" exactly when the
    cell is a text whose upper-cased form contains CTN, CARTON or
    CARTONS. *)
Theorem detect_packaging_type_total_binary (name : cell) :
  whitespace_caseless RT ->
  (detect_packaging_type name = py "CTN"
   \/ detect_packaging_type name = py "NON-CTN")
  /\ (detect_packaging_type name = py "CTN" <->
      exists s k, name = CStr s /\ k ∈ [py "CTN"; py "CARTON"; py "CARTONS"]
                  /\ str_contains k (str_upper s) = true)
  /\ (pd_isna name = true -> detect_packaging_type name = py "NON-CTN").
Proof.
  intros Hcl. destruct name as [| |s].
  1,2: split; [by right|split; [|done]];
       split; [discriminate|by intros (s & k & [=] & _)].
  unfold detect_packaging_type, pd_isna.
  destruct (existsb _ carton_keywords) eqn:Hex.
  - split; [by left|]. split; [|discriminate]. split; [|done]. intros _.
    apply existsb_exists in Hex as (k & Hin%list_elem_of_In & Hk).
    destruct (carton_keywords_no_space k Hin) as [Hne Hns].
    rewrite contains_upper_strip in Hk by done.
    exists s, k. done.
  - split; [by right|]. split; [|discriminate]. split; [discriminate|].
    intros (s' & k & [= <-] & Hin & Hk). exfalso.
    destruct (carton_keywords_no_space k Hin) as [Hne Hns].
    rewrite <- (contains_upper_strip k s) in Hk by done.
    assert (existsb (fun k => str_contains k (str_upper (str_strip s)))
                    carton_keywords = true) as Hex'.
    { apply existsb_exists. exists k. split; [by apply list_elem_of_In|done]. }
    congruence.
Qed.
End Packaging.

Lemma ascii_whitespace_caseless : whitespace_caseless ascii_runtime.
Proof.
  intros c Hc. simpl. f_equal. unfold ascii_upper.
  destruct ((97 <=? c)%N && (c <=? 122)%N) eqn:H; [|done].
  apply andb_true_iff in H as [H1%N.leb_le H2%N.leb_le].
  unfold is_space in Hc.
  repeat match type of Hc with
         | (_ || _)%bool = true => apply orb_true_iff in Hc as [Hc|Hc]
         | (_ && _)%bool = true => apply andb_true_iff in Hc as [? Hc]
         end;
  repeat match goal with
         | H : (_ <=? _)%N = true |- _ => apply N.leb_le in H
         | H : (_ =? _)%N = true |- _ => apply N.eqb_eq in H
         end; lia.
Qed.

Lemma detect_packaging_type_witness :
  let name := CStr (py "6*2.5l family ctn  ") in
  whitespace_caseless ascii_runtime
  /\ detect_packaging_type (RT := ascii_runtime) name = py "CTN"
  /\ exists s k, name = CStr s /\ k ∈ [py "CTN"; py "CARTON"; py "CARTONS"]
                 /\ str_contains k (str_upper (RT := ascii_runtime) s) = true.
Proof.
  intros name.
  pose proof (detect_packaging_type_total_binary (RT := ascii_runtime) name
                ascii_whitespace_caseless) as (_ & Hiff & _).
  split; [exact ascii_whitespace_caseless|].
  split; [vm_compute; reflexivity|].
  apply Hiff. vm_compute. reflexivity.
Defined.

(** ** The unit normalizer *)

Lemma div_by_remainder (a b q r : Z) :
  0 <= r < b -> a = b * q + r -> a / b = q.
Proof. intros Hr Ha. symmetry. by apply (Z.div_unique_pos a b q r). Qed.

Lemma round_arith (m h : Z) :
  0 < m -> 0 < h ->
  let r := (m + h) / (2 * h) in
  let k := if Z.abs (2 * (m - r * (2 * h))) =? 2 * h
           then 2 * ((m + 2 * h) / (2 * (2 * h))) else r in
  Z.abs (2 * (k * (2 * h) - m)) <= 2 * h
  /\ (Z.abs (2 * (k * (2 * h) - m)) = 2 * h -> Z.even k = true).
Proof.
  intros Hm Hh r k. subst r k.
  pose proof (Z.div_mod m (2 * h) ltac:(lia)) as Hdm.
  pose proof (Z.mod_pos_bound m (2 * h) ltac:(lia)) as Hrho.
  set (q := m / (2 * h)) in *. set (rho := m mod (2 * h)) in *.
  destruct (Z_lt_ge_dec rho h) as [Hlt|Hge].
  - rewrite (div_by_remainder (m + h) (2 * h) q (rho + h)) by lia.
    destruct (Z.eqb_spec (Z.abs (2 * (m - q * (2 * h)))) (2 * h)); lia.
  - rewrite (div_by_remainder (m + h) (2 * h) (q + 1) (rho - h)) by lia.
    destruct (Z.eqb_spec (Z.abs (2 * (m - (q + 1) * (2 * h)))) (2 * h))
      as [Heq|Hne]; [|lia].
    assert (rho = h) as Hrh by lia.
    pose proof (Z.div_mod q 2 ltac:(lia)) as Hq.
    pose proof (Z.mod_pos_bound q 2 ltac:(lia)) as Hb.
    set (a := q / 2) in *. set (b := q mod 2) in *.
    rewrite Z.even_mul. simpl. split; [|done].
    assert (b = 0 \/ b = 1) as [Hb0|Hb1] by lia.
    + rewrite (div_by_remainder (m + 2 * h) (2 * (2 * h)) a (3 * h)) by nia.
      nia.
    + rewrite (div_by_remainder (m + 2 * h) (2 * (2 * h)) (a + 1) h) by nia.
      nia.
Qed.

Lemma py_round_nearest_even (s : bool) (m : positive) (e : Z) :
  exists k, py_round (S754_finite s m e) = Return k
            /\ nearest_even k (S754_finite s m e).
Proof.
  unfold py_round, nearest_even, float_den, float_num, c_round, half_apart.
  destruct (Z.leb_spec 0 e) as [He|He].
  - assert ((e <? 0) = false) as -> by lia. simpl andb. cbv iota.
    eexists. split; [reflexivity|].
    destruct s; split; try lia; intros; exfalso; lia.
  - assert ((e <? 0) = true) as -> by lia. rewrite andb_true_l.
    assert ((0 <=? e - 1) = false) as -> by lia.
    set (h := 2 ^ (- e - 1)).
    assert (0 < h) as Hh by (apply Z.pow_pos_nonneg; lia).
    assert (2 ^ (- e) = 2 * h) as ->.
    { unfold h. rewrite <- Z.pow_succ_r by lia. f_equal. lia. }
    replace (- (e - 1) - 1) with (- e) by lia.
    replace (- (e - 1)) with (Z.succ (- e)) by lia.
    rewrite Z.pow_succ_r by lia.
    assert (2 ^ (- e) = 2 * h) as ->.
    { unfold h. rewrite <- Z.pow_succ_r by lia. f_equal. lia. }
    pose proof (round_arith (Zpos m) h ltac:(lia) Hh) as Hr.
    cbv zeta in Hr.
    set (k := if Z.abs (2 * (Zpos m - (Zpos m + h) / (2 * h) * (2 * h))) =? 2 * h
              then 2 * ((Zpos m + 2 * h) / (2 * (2 * h)))
              else (Zpos m + h) / (2 * h)) in *.
    destruct Hr as [Hle Heven].
    eexists. split; [reflexivity|].
    destruct s.
    + replace (2 * (- k * (2 * h) - -1 * Zpos m))
        with (- (2 * (k * (2 * h) - Zpos m))) by lia.
      rewrite Z.abs_opp, Z.even_opp. done.
    + replace (1 * Zpos m) with (Zpos m) by lia. done.
Qed.

Section UnitNormalizer.
Context {RT : Runtime}.

(** C5, as the code has it.  For a numeric literal that [float] accepts
    and a unit token that upper-cases to KG or KGS, the Unit Normalizer
    multiplies the binary64 value by 1000 and returns the integer nearest
    to that product, the even one in a halfway case, followed by "G"; an
    infinite product raises [OverflowError]. *)
Theorem kg_rounds_half_to_even (literal unit : str) (value : float) :
  py_float literal = Return value ->
  str_upper unit ∈ [py "KG"; py "KGS"] ->
  let grams := b64_mul value (b64_of_Z 1000) in
  match grams with
  | S754_infinity _ => unit_normalizer literal unit = Raise OverflowError
  | S754_nan => unit_normalizer literal unit = Raise ValueError
  | _ => exists k,
      unit_normalizer literal unit = Return (Some (str_of_int k ++ py "G"))
      /\ nearest_even k grams
  end.
Proof.
  intros Hval Hunit grams. unfold unit_normalizer. rewrite Hval.
  assert (to_grams value (str_upper unit) = grams) as ->.
  { unfold to_grams.
    assert (str_in (str_upper unit) [py "KG"; py "KGS"] = true) as ->; [|done].
    unfold str_in, str_eqb. apply existsb_exists.
    exists (str_upper unit). split; [by apply list_elem_of_In|].
    by apply bool_decide_eq_true. }
  destruct grams as [s|s| |s m e] eqn:Hg; try done.
  - exists 0. split; [done|]. unfold nearest_even. simpl. split; [lia|done].
  - destruct (py_round_nearest_even s m e) as (k & -> & Hk). by exists k.
Qed.
End UnitNormalizer.

Section UnitExamples.
Local Existing Instance ascii_runtime.

Lemma kg_rounds_half_to_even_witness :
  let value := S754_finite false 5629499534213120 (-51) in
  py_float (py "2.5") = Return value
  /\ str_upper (py "kg") ∈ [py "KG"; py "KGS"]
  /\ exists k,
       unit_normalizer (py "2.5") (py "kg")
       = Return (Some (str_of_int k ++ py "G"))
       /\ nearest_even k (b64_mul value (b64_of_Z 1000)).
Proof.
  intros value.
  assert (py_float (py "2.5") = Return value) as Hv
    by (vm_compute; reflexivity).
  assert (str_upper (py "kg") ∈ [py "KG"; py "KGS"]) as Hu
    by (vm_compute; left).
  split; [exact Hv|]. split; [exact Hu|].
  exact (kg_rounds_half_to_even (py "2.5") (py "kg") value Hv Hu).
Defined.

(** [float] accepts every literal of ASCII digits, with or without a
    fractional part. *)
Lemma split_dot_digits (ip rest : str) :
  Forall (fun c => is_digit c = true) ip ->
  split_dot (ip ++ 46%N :: rest) = (ip, Some rest)
  /\ split_dot ip = (ip, None).
Proof.
  induction 1 as [|c ip Hc Hip [IH1 IH2]]; [done|].
  simpl. destruct (N.eqb_spec c 46) as [->|Hne]; [done|].
  by rewrite IH1, IH2.
Qed.

Lemma digits_value_some (s : str) (acc : Z) :
  Forall (fun c => is_digit c = true) s ->
  exists d, digits_value acc s = Some d.
Proof.
  intros Hs. revert acc. induction Hs as [|c s Hc Hs IH]; intros acc.
  - by exists acc.
  - simpl. unfold is_digit in Hc. simpl in Hc.
    destruct (ascii_decimal c); [apply IH|done].
Qed.

Lemma py_float_accepts_literals (ip fp : str) :
  ip <> [] ->
  Forall (fun c => is_digit c = true) ip ->
  Forall (fun c => is_digit c = true) fp ->
  (exists v, py_float ip = Return v)
  /\ (fp <> [] -> exists v, py_float (ip ++ 46%N :: fp) = Return v).
Proof.
  intros Hne Hip Hfp. unfold py_float. split.
  - rewrite (proj2 (split_dot_digits ip [] Hip)).
    destruct ip as [|c ip]; [done|].
    destruct (digits_value_some (c :: ip) 0 Hip) as (d & ->). by eexists.
  - intros Hfne. rewrite (proj1 (split_dot_digits ip fp Hip)).
    destruct ip as [|c ip]; [done|]. destruct fp as [|c' fp]; [done|].
    destruct (digits_value_some ((c :: ip) ++ c' :: fp) 0) as (d & ->);
      [by apply Forall_app|by eexists].
Qed.

(** The documented example, through the whole extractor. *)
Lemma weight_2_5kg : extract_weight_quantity (CStr (py "2.5KG")) = Return (Some (py "2500G")).
Proof. vm_compute. reflexivity. Qed.

(** C5 as the specification words it fails on a halfway case: 0.0005 kg is
    exactly half a gram, which the code rounds to the even 0 where
    rounding away from zero gives 1. *)
Lemma kg_half_gram_rounds_to_zero :
  extract_weight_quantity (CStr (py "0.0005KG")) = Return (Some (py "0G"))
  /\ kg_half_away (py "0.0005") = Return (Some (py "1G"))
  /\ extract_weight_quantity (CStr (py "0.0005KG")) <> kg_half_away (py "0.0005").
Proof.
  assert (extract_weight_quantity (CStr (py "0.0005KG"))
          = Return (Some (py "0G"))) as H1 by (vm_compute; reflexivity).
  assert (kg_half_away (py "0.0005") = Return (Some (py "1G"))) as H2
    by (vm_compute; reflexivity).
  split; [exact H1|]. split; [exact H2|]. rewrite H1, H2. discriminate.
Qed.
End UnitExamples.

(** ** The matcher: what a successful run went through *)

Lemma star_sound p k pre suf caps res :
  star p k pre suf caps = Some res ->
  exists cs t, suf = cs ++ t /\ Forall (fun c => p c = true) cs
               /\ k (MState (rev cs ++ pre) t caps) = Some res.
Proof.
  revert pre. induction suf as [|c suf IH]; intros pre; simpl.
  - intros Hk. exists [], []. by repeat split.
  - destruct (p c) eqn:Hp.
    + destruct (star p k (c :: pre) suf caps) eqn:Hs.
      * intros [= ->]. destruct (IH _ Hs) as (cs & t & -> & Hcs & Hk).
        exists (c :: cs), t. repeat split; [by constructor|].
        simpl. by rewrite <- app_assoc.
      * intros Hk. exists [], (c :: suf). by repeat split.
    + intros Hk. exists [], (c :: suf). by repeat split.
Qed.

(** Soundness of the matcher: a successful run reached its continuation
    through a match of the pattern. *)
Lemma run_sound r k st res :
  run r k st = Some res ->
  exists st', steps r st st' /\ k st' = Some res.
Proof.
  revert k st res.
  induction r as [|p|a IHa b IHb|a IHa b IHb|p|a IHa|n a IHa|a IHa|w|];
    intros k st res; simpl.
  - intros Hk. by exists st.
  - destruct (m_suf st) as [|c t] eqn:Hsuf; [done|].
    destruct (p c) eqn:Hp; [|done]. intros Hk.
    eexists. split; [|exact Hk]. by exists c, t.
  - intros (mid & Ha & Hb)%IHa. apply IHb in Hb as (st' & Hb & Hk).
    exists st'. split; [by exists mid|done].
  - destruct (run a k st) eqn:Ha.
    + intros [= ->]. apply IHa in Ha as (st' & Ha & Hk). exists st'. auto.
    + intros (st' & Hb & Hk)%IHb. exists st'. auto.
  - intros (cs & t & Hsuf & Hcs & Hk)%star_sound.
    eexists. split; [|exact Hk]. by exists cs, t.
  - destruct (run a k st) eqn:Ha.
    + intros [= ->]. apply IHa in Ha as (st' & Ha & Hk). exists st'. auto.
    + intros Hk. exists st. auto.
  - intros (st1 & Ha & Hk)%IHa.
    eexists. split; [|exact Hk]. by exists st1.
  - destruct (run a Some st) as [st1|] eqn:Ha; [|done].
    apply IHa in Ha as (st1' & Ha & [= ->]). intros Hk.
    eexists. split; [|exact Hk]. by exists st1.
  - destruct (at_boundary w st) eqn:Hb; [|done]. intros Hk. by exists st.
  - destruct (at_end st) eqn:Hb; [|done]. intros Hk. by exists st.
Qed.

Lemma steps_caps_extend r st st' :
  steps r st st' -> exists ext, m_caps st' = ext ++ m_caps st.
Proof.
  revert st st'. induction r; intros st st'; simpl.
  - intros ->. by exists [].
  - intros (c & t & _ & _ & ->). by exists [].
  - intros (mid & (e1 & H1)%IHr1 & (e2 & H2)%IHr2).
    exists (e2 ++ e1). by rewrite H2, H1, app_assoc.
  - intros [H|H]; eauto.
  - intros (cs & t & _ & _ & ->). by exists [].
  - intros [H| ->]; [eauto|by exists []].
  - intros (st1 & (e & H)%IHr & ->). simpl.
    exists ((n, consumed (m_pre st) (m_pre st1)) :: e). by rewrite H.
  - intros (st1 & (e & H)%IHr & ->). by exists e.
  - intros [_ ->]. by exists [].
  - intros [_ ->]. by exists [].
Qed.

Lemma steps_caps_typed T r st st' :
  groups_match T r -> steps r st st' ->
  caps_typed T (m_caps st) -> caps_typed T (m_caps st').
Proof.
  revert st st'. induction r; intros st st'; simpl.
  - by intros _ ->.
  - by intros _ (c & t & _ & _ & ->).
  - intros [G1 G2] (mid & H1 & H2) Hc.
    apply (IHr2 mid st' G2 H2), (IHr1 st mid G1 H1), Hc.
  - intros [G1 G2] [H|H] Hc; [by apply (IHr1 st)|by apply (IHr2 st)].
  - by intros _ (cs & t & _ & _ & ->).
  - intros G [H| ->] Hc; [by apply (IHr st)|done].
  - intros [G GT] (st1 & H & ->) Hc. simpl.
    constructor; [by apply GT|]. by apply (IHr st).
  - intros G (st1 & H & ->) Hc. simpl. by apply (IHr st).
  - by intros _ [_ ->].
  - by intros _ [_ ->].
Qed.

Lemma group_extend n ext caps pre suf pre' suf' :
  is_Some (group n (MState pre suf caps)) ->
  is_Some (group n (MState pre' suf' (ext ++ caps))).
Proof.
  unfold group. simpl. induction ext as [|c ext IH]; simpl.
  - done.
  - intros H. destruct (Nat.eqb (fst c) n); [by eexists|by apply IH].
Qed.

Lemma steps_binds n r st st' :
  steps r st st' ->
  binds n r = true \/ is_Some (group n st) ->
  is_Some (group n st').
Proof.
  revert st st'. induction r; intros st st'; simpl.
  - intros -> [?|?]; done.
  - intros (c & t & _ & _ & ->) [?|?]; [done|]. by destruct st.
  - intros (mid & H1 & H2) [[Hb|Hb]%orb_true_iff|Hs]; eauto.
  - intros [H|H] [[Hb1 Hb2]%andb_true_iff|Hs]; eauto.
  - intros (cs & t & _ & _ & ->) [?|?]; [done|]. by destruct st.
  - intros [H| ->] [?|?]; try done.
    destruct (steps_caps_extend _ _ _ H) as (ext & Hext).
    destruct st as [pre suf caps], st' as [pre' suf' caps']. simpl in Hext.
    subst caps'. by apply (group_extend n ext caps pre suf).
  - intros (st1 & H & ->) Hb. unfold group. simpl.
    destruct (Nat.eqb_spec n0 n) as [->|Hne]; [by eexists|].
    simpl in Hb. apply (IHr _ _ H) in Hb. by destruct st1.
  - intros (st1 & H & ->) Hb. apply (IHr _ _ H) in Hb. by destruct st1.
  - intros [_ ->] [?|?]; done.
  - intros [_ ->] [?|?]; done.
Qed.

Lemma group_typed T n st g :
  caps_typed T (m_caps st) -> group n st = Some g -> T n g.
Proof.
  unfold group, caps_typed. intros Hc.
  destruct (find _ (m_caps st)) as [c|] eqn:Hf; [|done].
  intros [= <-]. apply find_some in Hf as [Hin Heq].
  apply Nat.eqb_eq in Heq. subst n.
  rewrite Forall_forall in Hc. by apply (Hc c), list_elem_of_In.
Qed.

(** A successful search binds every group the pattern always sets, to a
    text its sub-pattern matches. *)
Lemma run_group T n r pre suf m :
  groups_match T r -> binds n r = true ->
  run r Some (MState pre suf []) = Some m ->
  exists g, group n m = Some g /\ T n g.
Proof.
  intros G B (st' & Hs & [= ->])%run_sound.
  destruct (steps_binds n r _ _ Hs (or_introl B)) as [g Hg].
  exists g. split; [done|].
  apply (group_typed T n m g); [|done].
  apply (steps_caps_typed T r _ _ G Hs). constructor.
Qed.

Lemma search_from_sound r pre suf start m :
  search_from r pre suf = Some (start, m) ->
  exists suf', run r Some (MState start suf' []) = Some m.
Proof.
  revert pre. induction suf as [|c suf IH]; intros pre; simpl.
  - destruct (run r Some (MState pre [] [])) eqn:H; [|done].
    intros [= -> ->]. eauto.
  - destruct (run r Some (MState pre (c :: suf) [])) eqn:H.
    + intros [= -> ->]. eauto.
    + apply IH.
Qed.

Lemma re_search_group T n r s m :
  groups_match T r -> binds n r = true ->
  re_search r s = Some m ->
  exists g, group n m = Some g /\ T n g.
Proof.
  intros G B. unfold re_search.
  destruct (search_from r [] s) as [[start m']|] eqn:H; [|done].
  intros [= ->]. apply search_from_sound in H as (suf' & H).
  by apply (run_group T n r start suf').
Qed.

Lemma findall_from_sound fuel r pre suf x :
  x ∈ findall_from fuel r pre suf ->
  exists suf', run r Some (MState (fst x) suf' []) = Some (snd x).
Proof.
  revert pre suf. induction fuel as [|fuel IH]; intros pre suf; simpl.
  - by intros ?%elem_of_nil.
  - destruct (search_from r pre suf) as [[start m]|] eqn:H;
      [|by intros ?%elem_of_nil].
    rewrite elem_of_cons. intros [->|Hin].
    + by apply search_from_sound in H.
    + destruct (Nat.eqb _ _); [|by apply IH in Hin].
      destruct (m_suf m); [by apply elem_of_nil in Hin|by apply IH in Hin].
Qed.


Lemma consumed_app (pre l : str) : consumed pre (l ++ pre) = rev l.
Proof.
  unfold consumed. rewrite length_app.
  replace (length l + length pre - length pre)%nat with (length l) by lia.
  by rewrite firstn_app, firstn_all, Nat.sub_diag, firstn_0, app_nil_r.
Qed.










(** ** Units per carton *)

Section Units.
Context {RT : Runtime}.


Lemma digits_value_nonneg (g : str) (acc : Z) :
  Forall (fun c => is_digit c = true) g -> 0 <= acc ->
  exists n, digits_value acc g = Some n /\ 0 <= n.
Proof.
  intros Hg. revert acc. induction Hg as [|c g Hc Hg IH]; intros acc Hacc.
  - by exists acc.
  - simpl. unfold is_digit in Hc.
    destruct (uni_decimal c) as [d|]; [|done]. apply IH. lia.
Qed.

(** [int] of a digit run: its value, unless the run has more digits than
    [int] converts. *)
Lemma py_int_digit_run (g : str) :
  digit_run g ->
  (exists n, py_int g = Return n /\ 0 <= n)
  \/ (py_int g = Raise ValueError /\ (int_max_str_digits < length g)%nat).
Proof.
  intros [Hne Hg]. unfold py_int. destruct g as [|c g]; [done|].
  destruct (digits_value_nonneg (c :: g) 0 Hg ltac:(lia)) as (n & -> & Hn).
  destruct (Nat.ltb_spec int_max_str_digits (length (c :: g))).
  - by right.
  - left. by exists n.
Qed.

Lemma py_int_short_run (g : str) :
  digit_run g -> (length g <= int_max_str_digits)%nat ->
  exists n, py_int g = Return n /\ 0 <= n.
Proof.
  intros Hg Hlen. destruct (py_int_digit_run g Hg) as [H|[_ H]]; [done|lia].
Qed.
















End Units.

Section UnitsExamples.
Local Existing Instance ascii_runtime.


(** A count of 4301 digits: [int] refuses it. *)
Lemma units_long_run_raises :
  extract_units_per_carton (CStr (repeat 57%N 4301 ++ py "PCS"))
  = Raise ValueError.
Proof. vm_compute. reflexivity. Qed.

(** A chained product that leaves the 64-bit range. *)
Lemma units_chain_wraps :
  extract_units_per_carton (CStr (py "4294967296 X 2147483648 X 1"))
  = Return (Some (- 2 ^ 63)).
Proof. vm_compute. reflexivity. Qed.

(** Counts outside [int64].  All of them 2^63 or more: numpy wraps around
    in [uint64].  One of them small: it multiplies floats, and 2^63 + 1
    is rounded to 2^63 first.  One of them 2^64 or more: it multiplies
    Python integers. *)
Lemma units_chain_wide :
  extract_units_per_carton
    (CStr (py "9223372036854775808 X 9223372036854775809 X 1"))
  = Return (Some (2 ^ 63))
  /\ extract_units_per_carton (CStr (py "9223372036854775809 X 3 X 1"))
     = Return (Some (3 * 2 ^ 63))
  /\ extract_units_per_carton (CStr (py "18446744073709551616 X 3 X 1"))
     = Return (Some (3 * 2 ^ 64)).
Proof. vm_compute. repeat split. Qed.
End UnitsExamples.

(** ** From the extractor to the unit normalizer *)

(** Greedy repetition stops at the first code point outside the class
    when the continuation succeeds there. *)
Lemma star_greedy p (k : cont) pre cs t caps r :
  Forall (fun c => p c = true) cs ->
  match t with [] => True | c :: _ => p c = false end ->
  k (MState (rev cs ++ pre) t caps) = Some r ->
  star p k pre (cs ++ t) caps = Some r.
Proof.
  intros Hcs Ht. revert pre. induction Hcs as [|c cs Hc Hcs IH]; intros pre Hk.
  - simpl in *. destruct t as [|c t]; [done|]. simpl. by rewrite Ht.
  - simpl. rewrite Hc. rewrite (IH (c :: pre)); [done|].
    simpl in Hk. by rewrite <- app_assoc in Hk.
Qed.

Section EndToEnd.
Local Existing Instance ascii_runtime.

Lemma digit_not_space c : is_digit c = true -> is_space c = false.
Proof.
  unfold is_digit, is_space. simpl. unfold ascii_decimal.
  destruct ((48 <=? c)%N && (c <=? 57)%N) eqn:H; [|done]. intros _.
  apply andb_true_iff in H as [H1%N.leb_le H2%N.leb_le].
  repeat (apply orb_false_iff; split);
    try (apply andb_false_iff;
         destruct (N.leb_spec 9 c), (N.leb_spec c 13), (N.leb_spec 28 c),
                  (N.leb_spec c 32), (N.leb_spec 8192 c), (N.leb_spec c 8202);
         auto; lia);
    apply N.eqb_neq; lia.
Qed.

Lemma digit_upper c : is_digit c = true -> ascii_upper c = c.
Proof.
  unfold is_digit. simpl. unfold ascii_decimal, ascii_upper.
  destruct ((48 <=? c)%N && (c <=? 57)%N) eqn:H; [|done]. intros _.
  apply andb_true_iff in H as [H1%N.leb_le H2%N.leb_le].
  destruct (N.leb_spec 97 c); [lia|done].
Qed.

Lemma str_upper_digits s : digits_only s -> str_upper s = s.
Proof.
  induction 1 as [|c s Hc Hs IH]; [done|].
  unfold str_upper in *. simpl. f_equal; [by apply digit_upper|exact IH].
Qed.

Lemma weight_re_split :
  weight_re
  = Seq (Group 1 (Seq (Plus is_digit) (Opt fraction_re))) weight_tail.
Proof. reflexivity. Qed.

(** At the unit, with nothing after it, the tail matches and binds
    group 2 to the unit. *)
Lemma weight_tail_unit (kgs : bool) (pre : str) (caps : list (nat * str)) :
  let unit := if kgs then py "KGS" else py "KG" in
  run weight_tail Some (MState pre unit caps)
  = Some (MState (rev unit ++ pre) [] ((2%nat, consumed pre (rev unit ++ pre)) :: caps))
  /\ forall k, run fraction_re k (MState pre unit caps) = None.
Proof. destruct kgs; split; try intros k; vm_compute; reflexivity. Qed.

Lemma consumed_nil (l : str) : consumed [] l = rev l.
Proof. rewrite <- (app_nil_r l) at 1. apply consumed_app. Qed.

Lemma unit_head_not_digit (kgs : bool) :
  match (if kgs then py "KGS" else py "KG") with
  | [] => True
  | c :: _ => is_digit c = false
  end.
Proof. by destruct kgs. Qed.

(** The match of [weight_re] on a literal of ASCII digits followed by KG
    or KGS: group 1 is the literal, group 2 the unit. *)
Lemma weight_re_on_literal (c0 : N) (ip fp : str) (kgs : bool) :
  is_digit c0 = true -> digits_only ip -> digits_only fp ->
  let frac := match fp with [] => [] | _ => 46%N :: fp end in
  let unit := if kgs then py "KGS" else py "KG" in
  let lit := c0 :: ip ++ frac in
  run weight_re Some (MState [] (lit ++ unit) [])
  = Some (MState (rev unit ++ rev lit) [] [(2%nat, unit); (1%nat, lit)]).
Proof.
  intros Hc0 Hip Hfp frac unit lit.
  rewrite weight_re_split. cbn [run]. unfold Plus. cbn [run m_suf m_pre m_caps].
  subst lit. cbn [app]. rewrite Hc0. rewrite <- app_assoc.
  destruct fp as [|c1 fp]; subst frac; cbn [app].
  - apply star_greedy; [exact Hip|apply (unit_head_not_digit kgs)|].
    fold unit. cbn [m_pre m_suf m_caps].
    rewrite (proj2 (weight_tail_unit kgs _ _)).
    rewrite (proj1 (weight_tail_unit kgs _ _)). fold unit.
    rewrite consumed_app, consumed_nil, rev_involutive.
    rewrite app_nil_r, rev_app_distr, rev_involutive. reflexivity.
  - inversion Hfp as [|? ? Hc1 Hfp']; subst.
    apply star_greedy; [exact Hip|done|].
    unfold fraction_re at 1, Plus. cbn [run m_suf m_pre m_caps].
    change (one 46 46) with true. cbv iota. rewrite Hc1.
    erewrite star_greedy;
      [reflexivity|exact Hfp'|apply (unit_head_not_digit kgs)|].
    cbn [m_pre m_suf m_caps]. fold unit.
    rewrite (proj1 (weight_tail_unit kgs _ _)). fold unit.
    rewrite consumed_app, consumed_nil, rev_involutive.
    assert (rev fp ++ c1 :: 46%N :: rev ip ++ [c0]
            = rev (c0 :: ip ++ 46%N :: c1 :: fp)) as ->.
    { cbn [rev]. rewrite rev_app_distr. cbn [rev].
      by rewrite <- !app_assoc. }
    by rewrite rev_involutive.
Qed.

Lemma search_from_here (r : regex) (pre suf : str) (st : mstate) :
  run r Some (MState pre suf []) = Some st ->
  search_from r pre suf = Some (pre, st).
Proof. intros H. destruct suf; simpl; by rewrite H. Qed.

Lemma strip_literal_unit (c0 : N) (body : str) (kgs : bool) :
  is_digit c0 = true ->
  let unit := if kgs then py "KGS" else py "KG" in
  str_strip (c0 :: body ++ unit) = c0 :: body ++ unit.
Proof.
  intros Hc0 unit. unfold str_strip.
  assert (lstrip (c0 :: body ++ unit) = c0 :: body ++ unit) as ->.
  { simpl. by rewrite (digit_not_space c0 Hc0). }
  assert (lstrip (rev (c0 :: body ++ unit)) = rev (c0 :: body ++ unit)) as ->.
  { change (c0 :: body ++ unit) with ((c0 :: body) ++ unit).
    rewrite rev_app_distr. subst unit. by destruct kgs. }
  apply rev_involutive.
Qed.

Lemma upper_literal_unit (c0 : N) (ip fp : str) (kgs : bool) :
  is_digit c0 = true -> digits_only ip -> digits_only fp ->
  let frac := match fp with [] => [] | _ => 46%N :: fp end in
  let unit := if kgs then py "KGS" else py "KG" in
  str_upper (c0 :: ip ++ frac ++ unit) = c0 :: ip ++ frac ++ unit.
Proof.
  intros Hc0 Hip Hfp frac unit.
  change (c0 :: ip ++ frac ++ unit) with ([c0] ++ ip ++ frac ++ unit).
  unfold str_upper. rewrite !flat_map_app.
  fold (str_upper [c0]) (str_upper ip) (str_upper frac) (str_upper unit).
  rewrite (str_upper_digits [c0]) by (by constructor).
  rewrite (str_upper_digits ip Hip).
  assert (str_upper frac = frac) as ->.
  { subst frac. destruct fp as [|c1 fp]; [done|].
    change (46%N :: c1 :: fp) with ([46%N] ++ c1 :: fp).
    unfold str_upper. rewrite flat_map_app. fold (str_upper (c1 :: fp)).
    by rewrite (str_upper_digits (c1 :: fp) Hfp). }
  assert (str_upper unit = unit) as ->; [by destruct kgs|done].
Qed.

(** On a literal of ASCII digits, with or without a fractional part,
    directly followed by KG or KGS, [extract_weight_quantity] hands the
    literal and the unit to the Unit Normalizer. *)
Lemma extract_weight_quantity_kg (c0 : N) (ip fp : str) (kgs : bool) :
  is_digit c0 = true -> digits_only ip -> digits_only fp ->
  let frac := match fp with [] => [] | _ => 46%N :: fp end in
  let unit := if kgs then py "KGS" else py "KG" in
  let lit := c0 :: ip ++ frac in
  extract_weight_quantity (CStr (lit ++ unit)) = unit_normalizer lit unit.
Proof.
  intros Hc0 Hip Hfp frac unit lit. unfold extract_weight_quantity.
  pose proof (upper_literal_unit c0 ip fp kgs Hc0 Hip Hfp) as Hup.
  pose proof (strip_literal_unit c0 (ip ++ frac) kgs Hc0) as Hstrip.
  pose proof (weight_re_on_literal c0 ip fp kgs Hc0 Hip Hfp) as Hrun.
  cbv zeta in Hup, Hstrip, Hrun. fold frac unit in Hup, Hstrip, Hrun.
  fold lit in Hrun.
  assert (lit ++ unit = c0 :: ip ++ frac ++ unit) as Hshape
    by (subst lit; simpl; by rewrite <- app_assoc).
  rewrite <- app_assoc, <- Hshape in Hstrip. rewrite <- Hshape in Hup.
  rewrite Hup, Hstrip. unfold re_search.
  by rewrite (search_from_here weight_re [] _ _ Hrun).
Qed.
End EndToEnd.

(** ** The scorer *)

Lemma str_leb_total (a b : str) : str_leb a b = true \/ str_leb b a = true.
Proof.
  revert b. induction a as [|x a IH]; intros [|y b]; simpl; auto.
  destruct (IH b) as [H|H]; rewrite H;
    destruct (N.ltb_spec x y), (N.ltb_spec y x),
             (N.eqb_spec x y), (N.eqb_spec y x); simpl; auto; lia.
Qed.

Lemma str_leb_trans (a b c : str) :
  str_leb a b = true -> str_leb b c = true -> str_leb a c = true.
Proof.
  revert b c. induction a as [|x a IH]; intros [|y b] [|z c]; simpl; auto;
    try discriminate.
  intros [Hxy|[Hxy Hab]%andb_true_iff]%orb_true_iff
         [Hyz|[Hyz Hbc]%andb_true_iff]%orb_true_iff;
    apply orb_true_iff;
    repeat match goal with
           | H : (_ <? _)%N = true |- _ => apply N.ltb_lt in H
           | H : (_ =? _)%N = true |- _ => apply N.eqb_eq in H
           end.
  - left. apply N.ltb_lt. lia.
  - left. apply N.ltb_lt. lia.
  - left. apply N.ltb_lt. lia.
  - right. apply andb_true_iff. split; [apply N.eqb_eq; lia|by apply (IH b)].
Qed.

Lemma str_leb_antisym (a b : str) :
  str_leb a b = true -> str_leb b a = true -> a = b.
Proof.
  revert b. induction a as [|x a IH]; intros [|y b]; simpl; auto;
    try discriminate.
  intros [Hxy|[Hxy Hab]%andb_true_iff]%orb_true_iff
         [Hyx|[Hyx Hba]%andb_true_iff]%orb_true_iff;
    repeat match goal with
           | H : (_ <? _)%N = true |- _ => apply N.ltb_lt in H
           | H : (_ =? _)%N = true |- _ => apply N.eqb_eq in H
           end; try lia.
  subst. f_equal. by apply IH.
Qed.

#[local] Instance str_le_total : Total str_le.
Proof.
  intros a b. unfold str_le.
  destruct (str_leb_total a b) as [->| ->]; simpl; auto.
Qed.

#[local] Instance str_le_trans : Transitive str_le.
Proof.
  intros a b c Hab%Is_true_true Hbc%Is_true_true.
  apply Is_true_true. by apply (str_leb_trans a b c).
Qed.

#[local] Instance str_le_antisym : AntiSymm (=) str_le.
Proof.
  intros a b Hab%Is_true_true Hba%Is_true_true. by apply str_leb_antisym.
Qed.

(** Multiplication of binary64 values is commutative. *)
Lemma b64_mul_comm (x y : float) : b64_mul x y = b64_mul y x.
Proof.
  unfold b64_mul. destruct x as [sx|sx| |sx mx ex], y as [sy|sy| |sy my ey];
    simpl; try done; try (by rewrite xorb_comm).
  by rewrite xorb_comm, Pos.mul_comm, Z.add_comm.
Qed.

Lemma row_of_map (h : float -> float) vocab f :
  map (fun e => (fst e, h (snd e))) (row_of vocab f)
  = row_of vocab (fun t => h <$> f t).
Proof.
  induction vocab as [|t vocab IH]; [done|].
  unfold row_of in *. simpl. rewrite map_app, IH. by destruct (f t).
Qed.

Lemma normalize_row_of vocab f :
  exists f', normalize_l2 (row_of vocab f) = row_of vocab f'.
Proof.
  unfold normalize_l2.
  set (sum := fold_left _ (row_of vocab f) b64_zero).
  destruct (b64_eqb sum b64_zero).
  - by exists f.
  - exists (fun t => (fun v => b64_div v (b64_sqrt sum)) <$> f t).
    apply (row_of_map (fun v => b64_div v (b64_sqrt sum))).
Qed.

Lemma str_eqb_refl (t : str) : str_eqb t t = true.
Proof. by apply bool_decide_eq_true. Qed.

Lemma str_eqb_neq (t u : str) : t <> u -> str_eqb t u = false.
Proof. intros. by apply bool_decide_eq_false. Qed.

Lemma row_lookup_row_of vocab g t :
  t ∈ vocab -> row_lookup t (row_of vocab g) = g t.
Proof.
  unfold row_lookup, row_of. induction vocab as [|u vocab IH].
  - by intros ?%elem_of_nil.
  - intros Hin. simpl.
    destruct (decide (t = u)) as [<-|Hne].
    + destruct (g t) as [w|] eqn:Hg.
      * simpl. by rewrite str_eqb_refl.
      * simpl. apply elem_of_cons in Hin as [_|Hin]; [|by apply IH].
        clear IH. induction vocab as [|u vocab IH]; [done|].
        simpl. destruct (decide (t = u)) as [<-|Hne].
        -- by rewrite Hg.
        -- destruct (g u); simpl; [rewrite str_eqb_neq by done|]; apply IH.
    + apply elem_of_cons in Hin as [?|Hin]; [done|].
      destruct (g u); simpl; [rewrite str_eqb_neq by done|]; by apply IH.
Qed.

Lemma sparse_dot_fold vs vocab f g acc :
  (forall t, t ∈ vs -> t ∈ vocab) ->
  fold_left (fun acc e =>
               match row_lookup (fst e) (row_of vocab g) with
               | Some w => b64_add acc (b64_mul (snd e) w)
               | None => acc
               end) (row_of vs f) acc
  = fold_left (dot_step f g) vs acc.
Proof.
  revert acc. induction vs as [|t vs IH]; intros acc Hsub; [done|].
  unfold row_of at 2. simpl. fold (row_of vs f).
  rewrite fold_left_app, IH by (intros; apply Hsub; by right).
  f_equal. unfold dot_step.
  destruct (f t) as [v|]; simpl; [|by destruct (g t)].
  rewrite row_lookup_row_of by (apply Hsub; by left). done.
Qed.

Lemma sparse_dot_row_of vocab f g :
  sparse_dot (row_of vocab f) (row_of vocab g)
  = fold_left (dot_step f g) vocab b64_zero.
Proof. by apply sparse_dot_fold. Qed.

Lemma dot_step_comm f g acc t : dot_step f g acc t = dot_step g f acc t.
Proof.
  unfold dot_step. destruct (f t), (g t); try done. by rewrite b64_mul_comm.
Qed.

Lemma sparse_dot_comm vocab f g :
  sparse_dot (row_of vocab f) (row_of vocab g)
  = sparse_dot (row_of vocab g) (row_of vocab f).
Proof.
  rewrite !sparse_dot_row_of. generalize b64_zero.
  induction vocab as [|t vocab IH]; intros acc; [done|].
  simpl. by rewrite dot_step_comm, IH.
Qed.

Section ScorerFacts.
Context {RT : Runtime}.

Lemma vocabulary_comm (doc1 doc2 : list str) :
  vocabulary doc1 doc2 = vocabulary doc2 doc1.
Proof.
  unfold vocabulary.
  apply (Sorted_unique str_le); try apply Sorted_merge_sort; try apply _.
  rewrite !merge_sort_Permutation.
  apply NoDup_Permutation; try apply NoDup_remove_dups.
  intros t. rewrite !elem_of_remove_dups, !elem_of_app. tauto.
Qed.

Lemma doc_freq_comm t (doc1 doc2 : list str) :
  doc_freq t doc1 doc2 = doc_freq t doc2 doc1.
Proof. unfold doc_freq. lia. Qed.

Lemma tfidf_row_row_of vocab doc doc1 doc2 :
  exists f, tfidf_row vocab doc doc1 doc2 = row_of vocab f.
Proof.
  exists (fun t => let c := count_token t doc in
                   if (c =? 0)%nat then None
                   else Some (b64_mul (b64_of_Z (Z.of_nat c))
                                      (idf (1 + doc_freq t doc1 doc2)))).
  unfold tfidf_row, row_of. apply flat_map_ext. intros t. simpl.
  by destruct (count_token t doc =? 0)%nat.
Qed.

Lemma tfidf_row_comm vocab doc doc1 doc2 :
  tfidf_row vocab doc doc2 doc1 = tfidf_row vocab doc doc1 doc2.
Proof.
  unfold tfidf_row. apply flat_map_ext. intros t.
  by rewrite (doc_freq_comm t doc2 doc1).
Qed.

(** C10. The scorer is symmetric: with the arguments exchanged it raises
    the same exception or returns the same binary64 value. *)
Theorem compute_similarity_symmetric (a b : str) :
  compute_similarity a b = compute_similarity b a.
Proof.
  unfold compute_similarity.
  rewrite (vocabulary_comm (tokenize b) (tokenize a)).
  destruct (vocabulary (tokenize a) (tokenize b)) as [|t vocab] eqn:Hv;
    [done|].
  rewrite <- Hv. clear Hv t vocab. f_equal.
  rewrite !(tfidf_row_comm _ _ (tokenize a) (tokenize b)).
  set (V := vocabulary (tokenize a) (tokenize b)).
  destruct (tfidf_row_row_of V (tokenize a) (tokenize a) (tokenize b))
    as (f & ->).
  destruct (tfidf_row_row_of V (tokenize b) (tokenize a) (tokenize b))
    as (g & ->).
  destruct (normalize_row_of V f) as (f1 & ->).
  destruct (normalize_row_of V g) as (g1 & ->).
  destruct (normalize_row_of V f1) as (f2 & ->).
  destruct (normalize_row_of V g1) as (g2 & ->).
  apply sparse_dot_comm.
Qed.
End ScorerFacts.

Section Degenerate.
Context {RT : Runtime}.

Lemma tfidf_row_no_terms vocab doc1 doc2 : tfidf_row vocab [] doc1 doc2 = [].
Proof. unfold tfidf_row. by induction vocab. Qed.

Lemma sparse_dot_nil_r (x : sparse_row) : sparse_dot x [] = b64_zero.
Proof. unfold sparse_dot. generalize b64_zero. by induction x. Qed.

Lemma vocabulary_nonempty (doc1 doc2 : list str) :
  doc1 ++ doc2 <> [] -> vocabulary doc1 doc2 <> [].
Proof.
  unfold vocabulary. intros Hne Hv.
  destruct (doc1 ++ doc2) as [|t l] eqn:Hd; [done|].
  assert (t ∈ merge_sort str_le (remove_dups (t :: l))) as Hin.
  { rewrite merge_sort_Permutation, elem_of_remove_dups. by left. }
  rewrite Hv in Hin. by apply elem_of_nil in Hin.
Qed.

(** What the scorer does when a string has no term: with both strings
    empty of terms it raises, with exactly one it returns 0.0. *)
Lemma compute_similarity_degenerate (a b : str) :
  (tokenize a = [] -> tokenize b = [] ->
   compute_similarity a b = Raise ValueError)
  /\ (tokenize a = [] -> tokenize b <> [] ->
      compute_similarity a b = Return b64_zero)
  /\ (tokenize a <> [] -> tokenize b = [] ->
      compute_similarity a b = Return b64_zero).
Proof.
  unfold compute_similarity. repeat split.
  - by intros -> ->.
  - intros -> Hb.
    destruct (vocabulary [] (tokenize b)) eqn:Hv;
      [by apply vocabulary_nonempty in Hv|].
    rewrite <- Hv. by rewrite tfidf_row_no_terms.
  - intros Ha ->.
    destruct (vocabulary (tokenize a) []) eqn:Hv;
      [apply vocabulary_nonempty in Hv; [done|by rewrite app_nil_r]|].
    rewrite <- Hv. rewrite tfidf_row_no_terms. f_equal.
    apply sparse_dot_nil_r.
Qed.
End Degenerate.

(** ** The order on binary64 values *)

Lemma SFcompare_key (x y : float) :
  match SFcompare x y with
  | None => is_nan x \/ is_nan y
  | Some Lt => ~ is_nan x /\ ~ is_nan y /\ key_lt x y
  | Some Eq => ~ is_nan x /\ ~ is_nan y /\ key_eq x y
  | Some Gt => ~ is_nan x /\ ~ is_nan y /\ key_lt y x
  end.
Proof.
  unfold key_lt, key_eq.
  destruct x as [[]|[]| |[] mx ex], y as [[]|[]| |[] my ey]; simpl;
    try (intuition lia);
    destruct (Z.compare_spec ex ey); simpl; try (intuition lia);
    rewrite Pos.compare_cont_spec; simpl;
    destruct (Pos.compare_spec mx my); simpl; intuition lia.
Qed.

Lemma b64_ltb_iff (x y : float) :
  b64_ltb x y = true <-> ~ is_nan x /\ ~ is_nan y /\ key_lt x y.
Proof.
  unfold b64_ltb, SFltb. pose proof (SFcompare_key x y) as H.
  destruct (SFcompare x y) as [[]|]; split; try done; try tauto;
    unfold key_lt, key_eq in *; intuition lia.
Qed.

Lemma b64_leb_iff (x y : float) :
  b64_leb x y = true
  <-> ~ is_nan x /\ ~ is_nan y /\ (key_lt x y \/ key_eq x y).
Proof.
  unfold b64_leb, SFleb. pose proof (SFcompare_key x y) as H.
  destruct (SFcompare x y) as [[]|]; split; try done; try tauto;
    unfold key_lt, key_eq in *; intuition lia.
Qed.

Lemma b64_ltb_irrefl (x : float) : b64_ltb x x = false.
Proof.
  apply not_true_iff_false. rewrite b64_ltb_iff. unfold key_lt. intuition lia.
Qed.

Lemma b64_ltb_trans (x y z : float) :
  b64_ltb x y = true -> b64_ltb y z = true -> b64_ltb x z = true.
Proof. rewrite !b64_ltb_iff. unfold key_lt. intuition lia. Qed.

Lemma b64_ltb_leb_trans (x y z : float) :
  b64_ltb x y = true -> b64_leb y z = true -> b64_ltb x z = true.
Proof.
  rewrite !b64_ltb_iff, b64_leb_iff. unfold key_lt, key_eq. intuition lia.
Qed.

Lemma b64_leb_trans (x y z : float) :
  b64_leb x y = true -> b64_leb y z = true -> b64_leb x z = true.
Proof. rewrite !b64_leb_iff. unfold key_lt, key_eq. intuition lia. Qed.

(** Two values that both take part in some comparison are comparable. *)
Lemma b64_not_ltb_leb (w x y z : float) :
  b64_ltb w x = true -> b64_leb z y = true ->
  b64_ltb x y = false -> b64_leb y x = true.
Proof.
  intros Hx Hy Hn. apply not_true_iff_false in Hn.
  rewrite b64_ltb_iff in Hx, Hn. rewrite b64_leb_iff in Hy |- *.
  unfold key_lt, key_eq in *. intuition lia.
Qed.

Lemma threshold_positive : b64_ltb b64_zero threshold = true.
Proof. vm_compute. reflexivity. Qed.

(** ** The match resolver *)

Lemma url_similarity_key_inj (i j : Z) :
  url_similarity_key i = url_similarity_key j -> i = j.
Proof.
  unfold url_similarity_key. intros H.
  apply (app_inv_head (py "url_")) in H.
  apply (app_inv_tail (py "_similarity") (str_of_int i) (str_of_int j)) in H.
  by apply str_of_int_inj.
Qed.

Lemma url_similarity_key_fresh (i : Z) :
  url_similarity_key i <> py "status"
  /\ url_similarity_key i <> py "matched_url"
  /\ url_similarity_key i <> py "best_similarity".
Proof. unfold url_similarity_key. repeat split; intros [=]. Qed.

Lemma sorted_before (pre post : list Z) (i j : Z) :
  StronglySorted Z.lt (pre ++ i :: post) ->
  j ∈ pre ++ i :: post -> j < i -> j ∈ pre.
Proof.
  intros Hs Hin Hlt.
  apply elem_of_app in Hin as [Hin|Hin]; [done|].
  apply StronglySorted_app_1_r, StronglySorted_cons in Hs as [Hall _].
  apply elem_of_cons in Hin as [->|Hin]; [lia|].
  rewrite Forall_forall in Hall. apply Hall in Hin. lia.
Qed.

Lemma slot_range_sorted : StronglySorted Z.lt slot_range.
Proof. unfold slot_range. repeat constructor; lia. Qed.

Section ResolverFacts.
Context {RT : Runtime}.

Lemma slot_scored_not_skipped rec input_title i s :
  slot_scored rec input_title i s -> ~ slot_skipped rec i.
Proof.
  intros (t & tl & Ht & Htr & _) [Hn|(t' & Ht' & Hf)]; congruence.
Qed.

Lemma slot_scored_unique rec input_title i s s' :
  slot_scored rec input_title i s -> slot_scored rec input_title i s' -> s = s'.
Proof.
  intros (t & tl & Ht & _ & Hl & Hs) (t' & tl' & Ht' & _ & Hl' & Hs').
  congruence.
Qed.

Lemma score_slot_skipped rec input_title i st :
  slot_skipped rec i -> score_slot rec input_title i st = Return st.
Proof.
  unfold score_slot. intros [-> |(t & -> & ->)]; done.
Qed.

Lemma score_slot_scored rec input_title i st st' :
  score_slot rec input_title i st = Return st' ->
  slot_skipped rec i /\ st' = st
  \/ exists s, slot_scored rec input_title i s
       /\ similarities st'
          = <[url_similarity_key i := VFloat (py_round3 s)]> (similarities st)
       /\ (if beats s (best_similarity st)
           then best_similarity st' = Some s
                /\ rec !! url_key i = Some (best_url st')
           else best_similarity st' = best_similarity st
                /\ best_url st' = best_url st).
Proof.
  unfold score_slot.
  destruct (rec !! url_title_key i) as [title|] eqn:Ht;
    [|intros [= <-]; left; split; [by left|done]].
  destruct (truthy title) eqn:Htr; simpl;
    [|intros [= <-]; left; split; [right; by exists title|done]].
  destruct (value_lower title) as [tl|] eqn:Hl; simpl; [|done].
  destruct (compute_similarity (uni_lower input_title) tl) as [s|] eqn:Hs;
    simpl; [|done].
  intros H. right. exists s. split; [by exists title, tl|].
  destruct (beats s (best_similarity st)).
  - destruct (rec !! url_key i) as [url|]; [|done].
    injection H as <-. done.
  - injection H as <-. done.
Qed.

Lemma score_slot_selection rec input_title seen i st st' :
  score_slot rec input_title i st = Return st' ->
  selection rec input_title seen st ->
  selection rec input_title (seen ++ [i]) st'.
Proof.
  intros [[Hskip ->]|(s & Hsc & _ & Hb)]%score_slot_scored Hsel.
  - unfold selection in *. destruct (best_similarity st) as [b|].
    + destruct Hsel as (Hpos & pre & k & post & -> & Hk & Hurl & Hmax & Hfirst).
      split; [done|]. exists pre, k, (post ++ [i]).
      split; [by rewrite <- app_assoc|]. repeat split; try done.
      intros j s [Hj|Hj%list_elem_of_singleton]%elem_of_app Hs; [eauto|].
      subst j. by apply slot_scored_not_skipped in Hs.
    + destruct Hsel as [Hurl Hnone]. split; [done|].
      intros j s [Hj|Hj%list_elem_of_singleton]%elem_of_app Hs; [eauto|].
      subst j. by apply slot_scored_not_skipped in Hs.
  - unfold selection in *. unfold beats in Hb.
    destruct (best_similarity st) as [b|] eqn:Hbest.
    + destruct Hsel as (Hpos & pre & k & post & -> & Hk & Hurl & Hmax & Hfirst).
      destruct (b64_ltb b s) eqn:Hlt.
      * destruct Hb as [-> Hu]. split; [by apply (b64_ltb_trans _ b)|].
        exists (pre ++ k :: post), i, []. repeat split; try done.
        -- intros j s' [Hj|Hj%list_elem_of_singleton]%elem_of_app Hs.
           ++ apply not_true_iff_false. intros Hss.
              pose proof (b64_ltb_trans _ _ _ Hlt Hss) as Hc.
              by rewrite (Hmax j s' Hj Hs) in Hc.
           ++ subst j. rewrite (slot_scored_unique _ _ _ _ _ Hs Hsc).
              apply b64_ltb_irrefl.
        -- intros j s' Hj Hs. apply not_true_iff_false. intros Hss.
           pose proof (b64_ltb_leb_trans _ _ _ Hlt Hss) as Hc.
           by rewrite (Hmax j s' Hj Hs) in Hc.
      * destruct Hb as [-> ->]. split; [done|].
        exists pre, k, (post ++ [i]).
        split; [by rewrite <- app_assoc|]. repeat split; try done.
        intros j s' [Hj|Hj%list_elem_of_singleton]%elem_of_app Hs; [eauto|].
        subst j. by rewrite (slot_scored_unique _ _ _ _ _ Hs Hsc).
    + destruct Hsel as [Hurl Hnone].
      destruct (b64_ltb b64_zero s) eqn:Hlt.
      * destruct Hb as [-> Hu]. split; [done|].
        exists seen, i, []. repeat split; try done.
        -- intros j s' [Hj|Hj%list_elem_of_singleton]%elem_of_app Hs.
           ++ apply not_true_iff_false. intros Hss.
              pose proof (b64_ltb_trans _ _ _ Hlt Hss) as Hc.
              by rewrite (Hnone j s' Hj Hs) in Hc.
           ++ subst j. rewrite (slot_scored_unique _ _ _ _ _ Hs Hsc).
              apply b64_ltb_irrefl.
        -- intros j s' Hj Hs. apply not_true_iff_false. intros Hss.
           pose proof (b64_ltb_leb_trans _ _ _ Hlt Hss) as Hc.
           by rewrite (Hnone j s' Hj Hs) in Hc.
      * destruct Hb as [-> ->]. split; [done|].
        intros j s' [Hj|Hj%list_elem_of_singleton]%elem_of_app Hs; [eauto|].
        subst j. by rewrite (slot_scored_unique _ _ _ _ _ Hs Hsc).
Qed.

Lemma score_slot_recorded rec input_title seen i st st' :
  score_slot rec input_title i st = Return st' ->
  recorded rec input_title seen st ->
  recorded rec input_title (seen ++ [i]) st'.
Proof.
  intros [[Hskip ->]|(s & Hsc & Hsims & _)]%score_slot_scored Hrec k Hk.
  - destruct (Hrec k Hk) as (j & s & Hj & -> & Hs).
    exists j, s. split; [apply elem_of_app; by left|done].
  - rewrite Hsims in Hk.
    destruct (decide (url_similarity_key i = k)) as [<-|Hne].
    + exists i, s. split; [apply elem_of_app; right; by left|done].
    + rewrite lookup_insert_ne in Hk by done.
      destruct (Hrec k Hk) as (j & s' & Hj & -> & Hs).
      exists j, s'. split; [apply elem_of_app; by left|done].
Qed.

Lemma score_slots_invariant rec input_title slots seen st st' :
  score_slots rec input_title slots st = Return st' ->
  selection rec input_title seen st /\ recorded rec input_title seen st ->
  selection rec input_title (seen ++ slots) st'
  /\ recorded rec input_title (seen ++ slots) st'.
Proof.
  revert seen st. induction slots as [|i slots IH]; intros seen st; simpl.
  - intros [= <-]. by rewrite app_nil_r.
  - destruct (score_slot rec input_title i st) as [st1|] eqn:H1; simpl;
      [|done].
    intros H [Hsel Hrec].
    replace (seen ++ i :: slots) with ((seen ++ [i]) ++ slots)
      by (by rewrite <- app_assoc).
    apply (IH _ _ H). split.
    + by apply (score_slot_selection _ _ _ _ _ _ H1).
    + by apply (score_slot_recorded _ _ _ _ _ _ H1).
Qed.

Lemma score_slots_final rec input_title st :
  score_slots rec input_title slot_range resolver_init = Return st ->
  selection rec input_title slot_range st
  /\ recorded rec input_title slot_range st.
Proof.
  intros H. apply (score_slots_invariant _ _ _ [] _ _ H). split.
  - split; [done|]. by intros j s ?%elem_of_nil.
  - intros k [v Hk]. simpl in Hk. by rewrite lookup_empty in Hk.
Qed.

Lemma bind_Return_inv {A B} (x : outcome A) (f : A -> outcome B) (b : B) :
  x ≫= f = Return b -> exists a, x = Return a /\ f a = Return b.
Proof. destruct x as [a|e]; [by exists a|done]. Qed.

(** The parts of a successful [process_record]. *)
Lemma process_record_inv rec out row :
  process_record rec = Return (out, row) ->
  exists input_title st,
    get_input_title rec = Return input_title
    /\ score_slots rec input_title slot_range resolver_init = Return st
    /\ out !! py "status"
       = Some (VStr (if reaches_threshold (best_similarity st)
                     then py "Available" else py "Not Available"))
    /\ out !! py "matched_url"
       = Some (if reaches_threshold (best_similarity st)
               then best_url st else VStr (py "Not available everywhere"))
    /\ out !! py "best_similarity"
       = Some (match best_similarity st with
               | None => VInt 0
               | Some b => VFloat (py_round3 b)
               end)
    /\ forall i, out !! url_similarity_key i
                 = (similarities st ∪ rec) !! url_similarity_key i.
Proof.
  unfold process_record. cbv zeta.
  intros (input_title & Ht & H)%bind_Return_inv.
  apply bind_Return_inv in H as (st & Hs & H).
  exists input_title, st. split; [done|]. split; [done|].
  destruct (reaches_threshold (best_similarity st));
    apply bind_Return_inv in H as ([] & _ & H);
    apply bind_Return_inv in H as ([] & _ & H);
    apply bind_Return_inv in H as ([] & _ & H);
    apply bind_Return_inv in H as ([] & _ & H);
    apply bind_Return_inv in H as ([] & _ & H);
    injection H as <- <-;
    (repeat split;
     [by rewrite lookup_insert_eq
     |rewrite lookup_insert_ne by done; by rewrite lookup_insert_eq
     |rewrite !lookup_insert_ne by done; by rewrite lookup_insert_eq
     |intros i; destruct (url_similarity_key_fresh i) as (? & ? & ?);
      by rewrite !lookup_insert_ne by done]).
Qed.
End ResolverFacts.

Section ResolverTheorems.
Context {RT : Runtime}.

Lemma status_available_inv (st : resolver) :
  VStr (if reaches_threshold (best_similarity st)
        then py "Available" else py "Not Available")
  = VStr (py "Available") ->
  exists b, best_similarity st = Some b /\ b64_leb threshold b = true.
Proof.
  unfold reaches_threshold.
  destruct (best_similarity st) as [b|];
    [|by intros [= H%py_inj]].
  destruct (b64_leb threshold b) eqn:Hle; [|by intros [= H%py_inj]].
  intros _. by exists b.
Qed.

(** What the slot loop leaves behind. *)
Lemma score_slots_argmax (rec : record) (input_title : str) (st : resolver) :
  score_slots rec input_title slot_range resolver_init = Return st ->
  (forall b, best_similarity st = Some b ->
     exists i, i ∈ slot_range
       /\ slot_scored rec input_title i b
       /\ rec !! url_key i = Some (best_url st)
       /\ (forall j s, j ∈ slot_range -> slot_scored rec input_title j s ->
                       b64_ltb b s = false)
       /\ (forall j s, j ∈ slot_range -> j < i ->
                       slot_scored rec input_title j s ->
                       b64_leb b s = false))
  /\ (best_similarity st = None ->
      forall j s, j ∈ slot_range -> slot_scored rec input_title j s ->
                  b64_ltb b64_zero s = false).
Proof.
  intros Hs. destruct (score_slots_final _ _ _ Hs) as [Hsel _].
  unfold selection in Hsel. split.
  - intros b Hb. rewrite Hb in Hsel.
    destruct Hsel as (_ & pre & i & post & Hseen & Hi & Hurl & Hmax & Hfirst).
    exists i. split; [rewrite Hseen; apply elem_of_app; right; by left|].
    repeat split; try done.
    intros j s Hj Hlt. apply Hfirst.
    apply (sorted_before pre post i j); [|by rewrite <- Hseen|done].
    rewrite <- Hseen. apply slot_range_sorted.
  - intros Hb. rewrite Hb in Hsel. by destruct Hsel.
Qed.


(** C3, as the code has it.  The status is decided on the unrounded
    similarity: a record comes out "Available" exactly when some scored
    slot has a similarity of at least 0.6, and otherwise it comes out
    "Not Available" with the sentinel as matched_url.  The
    best_similarity field is the greatest similarity rounded to three
    decimals, or the integer 0, and then no slot scored above zero. *)
Theorem status_iff_unrounded_similarity (rec out : record) (row : db_row) :
  process_record rec = Return (out, row) ->
  exists input_title,
    get_input_title rec = Return input_title
    /\ (out !! py "status" = Some (VStr (py "Available")) <->
        exists i s, i ∈ slot_range /\ slot_scored rec input_title i s
                    /\ b64_leb threshold s = true)
    /\ (out !! py "status" <> Some (VStr (py "Available")) ->
        out !! py "status" = Some (VStr (py "Not Available"))
        /\ out !! py "matched_url"
           = Some (VStr (py "Not available everywhere")))
    /\ (out !! py "best_similarity" = Some (VInt 0)
        /\ (forall j s, j ∈ slot_range -> slot_scored rec input_title j s ->
                        b64_ltb b64_zero s = false)
        \/ exists i b, i ∈ slot_range /\ slot_scored rec input_title i b
             /\ (forall j s, j ∈ slot_range ->
                             slot_scored rec input_title j s ->
                             b64_ltb b s = false)
             /\ out !! py "best_similarity" = Some (VFloat (py_round3 b))).
Proof.
  intros (input_title & st & Ht & Hs & Hstatus & Hurl & Hbest & _)%process_record_inv.
  exists input_title. split; [done|].
  destruct (score_slots_argmax _ _ _ Hs) as (Hsome & Hnone).
  rewrite Hstatus, Hurl, Hbest. repeat split.
  - intros [= H]. destruct (status_available_inv st) as (b & Hb & Hle);
      [by rewrite H|].
    destruct (Hsome b Hb) as (i & Hi & Hsc & _). by exists i, b.
  - intros (j & s & Hj & Hsc & Hle). unfold reaches_threshold.
    destruct (best_similarity st) as [b|] eqn:Hb.
    + destruct (Hsome b eq_refl) as (i & Hi & Hib & _ & Hmax & _).
      assert (b64_leb threshold b = true) as ->; [|done].
      apply (b64_leb_trans _ s); [done|].
      destruct (score_slots_final _ _ _ Hs) as [Hsel _].
      unfold selection in Hsel. rewrite Hb in Hsel. destruct Hsel as [Hpos _].
      exact (b64_not_ltb_leb b64_zero b s threshold Hpos Hle
               (Hmax j s Hj Hsc)).
    + pose proof (Hnone eq_refl j s Hj Hsc) as Hz.
      by rewrite (b64_ltb_leb_trans _ _ _ threshold_positive Hle) in Hz.
  - destruct (reaches_threshold (best_similarity st)); done.
  - destruct (reaches_threshold (best_similarity st)); done.
  - destruct (best_similarity st) as [b|] eqn:Hb;
      [|left; split; [done|by apply Hnone]].
    right. destruct (Hsome b eq_refl) as (i & Hi & Hsc & _ & Hmax & _).
    by exists i, b.
Qed.

(** C4, as the code has it.  A slot whose title is absent or falsy is
    passed over: the run leaves its url_i_similarity entry as it found it
    and, when the record comes out "Available", the matched URL is that
    of another, scored slot.  A slot whose title is the text
    "Not Available" is not such a slot. *)
Theorem skipped_slot_not_scored (rec out : record) (row : db_row) (i : Z) :
  process_record rec = Return (out, row) ->
  i ∈ slot_range ->
  slot_skipped rec i ->
  out !! url_similarity_key i = rec !! url_similarity_key i
  /\ (out !! py "status" = Some (VStr (py "Available")) ->
      exists input_title j b,
        get_input_title rec = Return input_title
        /\ j ∈ slot_range /\ j <> i
        /\ slot_scored rec input_title j b
        /\ out !! py "matched_url" = rec !! url_key j).
Proof.
  intros Hp Hi Hskip.
  pose proof Hp as (input_title & st & Ht & Hs & Hstatus & Hurl & _ & Hsim)%process_record_inv.
  destruct (score_slots_final _ _ _ Hs) as [_ Hrec]. split.
  - rewrite Hsim. apply lookup_union_r.
    destruct (similarities st !! url_similarity_key i) eqn:Hk; [|done].
    destruct (Hrec (url_similarity_key i)) as (j & s & _ & Hij & Hsc);
      [by rewrite Hk|].
    apply url_similarity_key_inj in Hij as <-.
    by apply slot_scored_not_skipped in Hsc.
  - intros Hav. rewrite Hstatus in Hav. injection Hav as Hav.
    destruct (status_available_inv st) as (b & Hb & Hle); [by rewrite Hav|].
    destruct (score_slots_argmax _ _ _ Hs) as (Hsome & _).
    destruct (Hsome b Hb) as (j & Hj & Hsc & Huj & _).
    exists input_title, j, b. repeat split; try done.
    + intros ->. by apply slot_scored_not_skipped in Hsc.
    + rewrite Hurl, Huj. unfold reaches_threshold. by rewrite Hb, Hle.
Qed.
End ResolverTheorems.

Section ResolverExamples.
Local Existing Instance ascii_runtime.

(** Of the two tied slots the earlier one is selected. *)
Lemma tie_selects_slot_2 :
  match score_slots tie_record (py "Pepsi Can") slot_range resolver_init with
  | Return st => best_url st = VStr (py "https://example.org/2")
  | Raise _ => False
  end.
Proof. vm_compute. reflexivity. Qed.



(** A scored slot with similarity zero is not selected: the loop ends
    with no slot and no URL. *)
Lemma unrelated_slot_selects_none :
  match score_slots unrelated_record (py "Pepsi Can") slot_range
          resolver_init with
  | Return st =>
      best_similarity st = None /\ best_url st = VNull
      /\ similarities st !! url_similarity_key 1 = Some (VFloat b64_zero)
  | Raise _ => False
  end.
Proof. vm_compute. repeat split. Qed.

(** C3 as the specification words it fails between 0.5995 and 0.6: the
    record is "Not Available" although its best_similarity field, the
    rounded value, is 0.6. *)
Lemma near_miss_field_reaches_threshold :
  match process_record near_miss_record with
  | Return (out, _) =>
      out !! py "status" = Some (VStr (py "Not Available"))
      /\ exists f, out !! py "best_similarity" = Some (VFloat f)
                   /\ b64_leb threshold f = true
  | Raise _ => False
  end.
Proof.
  vm_compute. split; [reflexivity|]. eexists. split; reflexivity.
Qed.

Lemma status_iff_unrounded_similarity_witness :
  match process_record near_miss_record with
  | Return (out, row) =>
      exists input_title,
        get_input_title near_miss_record = Return input_title
        /\ (out !! py "status" = Some (VStr (py "Available")) <->
            exists i s, i ∈ slot_range
                        /\ slot_scored near_miss_record input_title i s
                        /\ b64_leb threshold s = true)
        /\ (out !! py "status" <> Some (VStr (py "Available")) ->
            out !! py "status" = Some (VStr (py "Not Available"))
            /\ out !! py "matched_url"
               = Some (VStr (py "Not available everywhere")))
        /\ (out !! py "best_similarity" = Some (VInt 0)
            /\ (forall j s, j ∈ slot_range ->
                            slot_scored near_miss_record input_title j s ->
                            b64_ltb b64_zero s = false)
            \/ exists i b, i ∈ slot_range
                 /\ slot_scored near_miss_record input_title i b
                 /\ (forall j s, j ∈ slot_range ->
                                 slot_scored near_miss_record input_title j s ->
                                 b64_ltb b s = false)
                 /\ out !! py "best_similarity"
                    = Some (VFloat (py_round3 b)))
  | Raise _ => False
  end.
Proof.
  assert (returns (process_record near_miss_record) = true) as Hr
    by (vm_compute; reflexivity).
  destruct (process_record near_miss_record) as [[out row]|e] eqn:Hp;
    [|discriminate Hr].
  exact (status_iff_unrounded_similarity near_miss_record out row Hp).
Defined.

(** C4 as the specification words it fails on the placeholder title: the
    text "Not Available" is scored like any title, its similarity is
    recorded, and here the slot is even the match. *)
Lemma placeholder_slot_is_scored :
  placeholder_record !! url_title_key 1 = Some (VStr (py "Not Available"))
  /\ placeholder_record !! url_similarity_key 1 = None
  /\ match process_record placeholder_record with
     | Return (out, _) =>
         (exists f, out !! url_similarity_key 1 = Some (VFloat f))
         /\ out !! py "status" = Some (VStr (py "Available"))
         /\ out !! py "matched_url" = Some (VStr (py "Not Available"))
     | Raise _ => False
     end.
Proof.
  vm_compute. repeat split. by eexists.
Qed.

Lemma skipped_slot_not_scored_witness :
  1 ∈ slot_range
  /\ slot_skipped gap_record 1
  /\ match process_record gap_record with
     | Return (out, row) =>
         out !! url_similarity_key 1 = gap_record !! url_similarity_key 1
         /\ (out !! py "status" = Some (VStr (py "Available")) ->
             exists input_title j b,
               get_input_title gap_record = Return input_title
               /\ j ∈ slot_range /\ j <> 1
               /\ slot_scored gap_record input_title j b
               /\ out !! py "matched_url" = gap_record !! url_key j)
     | Raise _ => False
     end.
Proof.
  assert (1 ∈ slot_range) as H1 by (by left).
  assert (slot_skipped gap_record 1) as H2.
  { right. exists (VStr []). split; vm_compute; reflexivity. }
  split; [exact H1|]. split; [exact H2|].
  assert (returns (process_record gap_record) = true) as Hr
    by (vm_compute; reflexivity).
  destruct (process_record gap_record) as [[out row]|e] eqn:Hp;
    [|discriminate Hr].
  exact (skipped_slot_not_scored gap_record out row 1 Hp H1 H2).
Defined.
End ResolverExamples.

(** ** The extractors: padding, case and digits *)

Lemma lstrip_leading (w s : str) : all_space w -> lstrip (w ++ s) = lstrip s.
Proof.
  induction 1 as [|c w Hc Hw IH]; [done|]. simpl. by rewrite Hc.
Qed.

Lemma lstrip_all_space (w : str) : all_space w -> lstrip w = [].
Proof.
  intros Hw. rewrite <- (app_nil_r w). by rewrite lstrip_leading.
Qed.

(** White space around a text does not survive [strip]. *)
Lemma str_strip_padding (w1 s w2 : str) :
  all_space w1 -> all_space w2 -> str_strip (w1 ++ s ++ w2) = str_strip s.
Proof.
  intros Hw1 Hw2. unfold str_strip. rewrite lstrip_leading by done.
  f_equal. induction s as [|c s IH].
  - cbn [app]. rewrite (lstrip_all_space w2 Hw2). reflexivity.
  - simpl. destruct (is_space c); [exact IH|].
    change (c :: s ++ w2) with ((c :: s) ++ w2).
    rewrite rev_app_distr. apply lstrip_leading. by apply Forall_rev.
Qed.

Section Padding.
Context {RT : Runtime}.

(** X1. White space before and after a product name changes none of the
    three extracted attributes. *)
Theorem extractors_ignore_padding (w1 s w2 : str) :
  whitespace_caseless RT -> all_space w1 -> all_space w2 ->
  extract_weight_quantity (CStr (w1 ++ s ++ w2))
  = extract_weight_quantity (CStr s)
  /\ extract_units_per_carton (CStr (w1 ++ s ++ w2))
     = extract_units_per_carton (CStr s)
  /\ detect_packaging_type (CStr (w1 ++ s ++ w2))
     = detect_packaging_type (CStr s).
Proof.
  intros Hcl Hw1 Hw2.
  assert (str_strip (str_upper (w1 ++ s ++ w2)) = str_strip (str_upper s))
    as Hup.
  { rewrite !str_upper_app.
    rewrite (str_upper_spaces w1), (str_upper_spaces w2) by done.
    by apply str_strip_padding. }
  unfold extract_weight_quantity, extract_units_per_carton,
    detect_packaging_type.
  rewrite Hup. by rewrite str_strip_padding.
Qed.
End Padding.

Lemma extractors_ignore_padding_witness :
  let w1 := py "  " in
  let w2 := [32%N; 9%N] in
  let s := py "Pepsi 24x330ml ctn" in
  whitespace_caseless ascii_runtime /\ all_space w1 /\ all_space w2
  /\ extract_weight_quantity (RT := ascii_runtime) (CStr (w1 ++ s ++ w2))
     = extract_weight_quantity (RT := ascii_runtime) (CStr s).
Proof.
  intros w1 w2 s.
  assert (all_space w1) as H1 by (by repeat constructor).
  assert (all_space w2) as H2 by (by repeat constructor).
  split; [exact ascii_whitespace_caseless|]. split; [exact H1|].
  split; [exact H2|].
  exact (proj1 (extractors_ignore_padding (RT := ascii_runtime) w1 s w2
                  ascii_whitespace_caseless H1 H2)).
Defined.

(** *** Names without a digit *)

Lemma steps_suffix r st st' :
  steps r st st' -> exists l, m_suf st = l ++ m_suf st'.
Proof.
  revert st st'. induction r; intros st st'; simpl.
  - intros ->. by exists [].
  - intros (c & t & Hs & _ & ->). exists [c]. by rewrite Hs.
  - intros (mid & (l1 & H1)%IHr1 & (l2 & H2)%IHr2).
    exists (l1 ++ l2). by rewrite H1, H2, app_assoc.
  - intros [H|H]; eauto.
  - intros (cs & t & Hs & _ & ->). by exists cs.
  - intros [H| ->]; [eauto|by exists []].
  - intros (st1 & (l & H)%IHr & ->). by exists l.
  - intros (st1 & _ & ->). by exists [].
  - intros [_ ->]. by exists [].
  - intros [_ ->]. by exists [].
Qed.

Lemma steps_demands (P : N -> Prop) r st st' :
  demands P r -> steps r st st' -> Exists P (m_suf st).
Proof.
  revert st st'. induction r; intros st st'; simpl; try done.
  - intros Hp (c & t & -> & Hc & _). left. by apply Hp.
  - intros [Ha|Hb] (mid & H1 & H2).
    + by apply (IHr1 st mid).
    + destruct (steps_suffix _ _ _ H1) as (l & ->).
      apply Exists_app. right. by apply (IHr2 mid st').
  - intros [Ha Hb] [H|H]; [by apply (IHr1 st st')|by apply (IHr2 st st')].
  - intros Ha (st1 & H & _). by apply (IHr st st1).
  - intros Ha (st1 & H & _). by apply (IHr st st1).
Qed.

Lemma search_from_within r pre suf start m :
  search_from r pre suf = Some (start, m) ->
  exists l suf', suf = l ++ suf'
                 /\ run r Some (MState start suf' []) = Some m.
Proof.
  revert pre. induction suf as [|c suf IH]; intros pre; simpl.
  - destruct (run r Some (MState pre [] [])) eqn:H; [|done].
    intros [= -> ->]. by exists [], [].
  - destruct (run r Some (MState pre (c :: suf) [])) eqn:H.
    + intros [= -> ->]. by exists [], (c :: suf).
    + intros (l & suf' & -> & Hr)%IH. by exists (c :: l), suf'.
Qed.

(** A pattern that demands a code point of a class finds nothing in a
    text without one. *)
Lemma search_from_demands (P : N -> Prop) r pre s :
  demands P r -> Forall (fun c => ~ P c) s -> search_from r pre s = None.
Proof.
  intros Hd Hs.
  destruct (search_from r pre s) as [[start m]|] eqn:H; [|done].
  apply search_from_within in H as (l & suf' & -> & Hr).
  apply run_sound in Hr as (st' & Hst & _).
  apply (steps_demands P) in Hst; [|done]. simpl in Hst.
  apply Forall_app in Hs as [_ Hs].
  apply Exists_exists in Hst as (c & Hin & Hc).
  rewrite Forall_forall in Hs. destruct (Hs c Hin Hc).
Qed.

Lemma re_search_demands (P : N -> Prop) r s :
  demands P r -> Forall (fun c => ~ P c) s -> re_search r s = None.
Proof.
  intros Hd Hs. unfold re_search. by rewrite (search_from_demands P).
Qed.

Lemma lstrip_Forall (Q : N -> Prop) (s : str) :
  Forall Q s -> Forall Q (lstrip s).
Proof.
  induction 1 as [|c s Hc Hs IH]; [done|]. simpl.
  destruct (is_space c); [done|by constructor].
Qed.

Lemma str_strip_Forall (Q : N -> Prop) (s : str) :
  Forall Q s -> Forall Q (str_strip s).
Proof.
  intros H. unfold str_strip.
  by apply Forall_rev, lstrip_Forall, Forall_rev, lstrip_Forall.
Qed.

Section NoDigit.
Context {RT : Runtime}.

Ltac solve_demands_or :=
  match goal with
  | |- _ \/ _ => (left; solve_demands_or) || (right; solve_demands_or)
  | |- forall c, _ => intros c Hc; exact Hc
  end.

Ltac solve_demands := simpl; solve_demands_or.

Lemma weight_re_demands : demands (fun c => is_digit c = true) weight_re.
Proof. solve_demands. Qed.

Lemma units_res_demand r :
  r ∈ [pcs_re; bracket_re; before_unit_re; x_numbers_re; single_x_re;
       bag_re; plus_re; star_after_re] ->
  demands (fun c => is_digit c = true) r.
Proof.
  rewrite !elem_of_cons, elem_of_nil.
  intros [->|[->|[->|[->|[->|[->|[->|[->|[]]]]]]]]]; solve_demands.
Qed.

(** X2. Every recognizer needs a decimal digit: a name whose upper-cased
    text has none yields neither a weight nor a count. *)
Theorem extractors_need_a_digit (s : str) :
  Forall (fun c => is_digit c = false) (str_upper s) ->
  extract_weight_quantity (CStr s) = Return None
  /\ extract_units_per_carton (CStr s) = Return None.
Proof.
  intros Hs.
  assert (Forall (fun c => ~ is_digit c = true) (str_strip (str_upper s)))
    as Hn.
  { apply str_strip_Forall. eapply Forall_impl; [exact Hs|].
    intros c Hc. simpl. by rewrite Hc. }
  assert (forall r,
            r ∈ [pcs_re; bracket_re; before_unit_re; x_numbers_re;
                 single_x_re; bag_re; plus_re; star_after_re] ->
            forall pre, search_from r pre (str_strip (str_upper s)) = None)
    as Hnone.
  { intros r Hr pre.
    apply (search_from_demands (fun c => is_digit c = true));
      [by apply units_res_demand|exact Hn]. }
  split.
  - unfold extract_weight_quantity.
    by rewrite (re_search_demands _ _ _ weight_re_demands Hn).
  - unfold extract_units_per_carton, units_chain, units_tail,
      findall_group1, re_findall, re_search. cbn [findall_from].
    rewrite !Hnone; [done|set_solver..].
Qed.
End NoDigit.

Lemma extractors_need_a_digit_witness :
  let s := py "Family ctn (large)" in
  Forall (fun c => is_digit (RT := ascii_runtime) c = false)
         (str_upper (RT := ascii_runtime) s)
  /\ extract_weight_quantity (RT := ascii_runtime) (CStr s) = Return None
  /\ extract_units_per_carton (RT := ascii_runtime) (CStr s) = Return None.
Proof.
  intros s.
  assert (Forall (fun c => is_digit (RT := ascii_runtime) c = false)
                 (str_upper (RT := ascii_runtime) s)) as H
    by (vm_compute; repeat constructor).
  split; [exact H|].
  exact (extractors_need_a_digit (RT := ascii_runtime) s H).
Defined.

(** *** Letter case, on ASCII names *)

Lemma ascii_upper_lower (c : N) : ascii_upper (ascii_lower c) = ascii_upper c.
Proof.
  unfold ascii_upper, ascii_lower.
  destruct (N.leb_spec 65 c), (N.leb_spec c 90); simpl; try done.
  destruct (N.leb_spec 97 (c + 32)), (N.leb_spec (c + 32) 122),
           (N.leb_spec 97 c), (N.leb_spec c 122); simpl; lia.
Qed.

Lemma is_space_ascii_lower (c : N) : is_space (ascii_lower c) = is_space c.
Proof.
  unfold ascii_lower.
  destruct (N.leb_spec 65 c), (N.leb_spec c 90); simpl; try done.
  assert (is_space c = false) as ->.
  { unfold is_space.
    repeat (apply orb_false_iff; split);
      try (apply andb_false_iff;
           destruct (N.leb_spec 9 c), (N.leb_spec c 13), (N.leb_spec 28 c),
                    (N.leb_spec c 32), (N.leb_spec 8192 c),
                    (N.leb_spec c 8202); auto; lia);
      apply N.eqb_neq; lia. }
  unfold is_space.
  repeat (apply orb_false_iff; split);
    try (apply andb_false_iff;
         destruct (N.leb_spec 9 (c + 32)), (N.leb_spec (c + 32) 13),
                  (N.leb_spec 28 (c + 32)), (N.leb_spec (c + 32) 32),
                  (N.leb_spec 8192 (c + 32)), (N.leb_spec (c + 32) 8202);
         auto; lia);
    apply N.eqb_neq; lia.
Qed.

Lemma lstrip_ascii_lower (s : str) :
  lstrip (map ascii_lower s) = map ascii_lower (lstrip s).
Proof.
  induction s as [|c s IH]; [done|]. simpl.
  rewrite is_space_ascii_lower. by destruct (is_space c).
Qed.

Lemma str_strip_ascii_lower (s : str) :
  str_strip (map ascii_lower s) = map ascii_lower (str_strip s).
Proof.
  unfold str_strip.
  by rewrite lstrip_ascii_lower, <- map_rev, lstrip_ascii_lower, map_rev.
Qed.

Lemma ascii_upper_idem (c : N) : ascii_upper (ascii_upper c) = ascii_upper c.
Proof.
  unfold ascii_upper.
  destruct (N.leb_spec 97 c), (N.leb_spec c 122); simpl; try done;
    destruct (N.leb_spec 97 c), (N.leb_spec c 122); simpl; try lia.
  destruct (N.leb_spec 97 (c - 32)), (N.leb_spec (c - 32) 122); simpl; lia.
Qed.

Section LetterCase.
Local Existing Instance ascii_runtime.

Lemma str_upper_ascii_lower (s : str) :
  str_upper (uni_lower s) = str_upper s.
Proof.
  unfold str_upper. simpl. induction s as [|c s IH]; [done|].
  simpl. by rewrite ascii_upper_lower, IH.
Qed.

Lemma str_upper_idem (s : str) : str_upper (str_upper s) = str_upper s.
Proof.
  unfold str_upper. simpl. induction s as [|c s IH]; [done|].
  simpl. by rewrite ascii_upper_idem, IH.
Qed.

(** X3. With the ASCII tables, the weight and units extractors do not tell
    a name from its lower-cased or upper-cased form, and the packaging
    classifier does not tell it from its lower-cased form. *)
Theorem extractors_ignore_ascii_case (s : str) :
  extract_weight_quantity (CStr (uni_lower s))
  = extract_weight_quantity (CStr s)
  /\ extract_units_per_carton (CStr (uni_lower s))
     = extract_units_per_carton (CStr s)
  /\ detect_packaging_type (CStr (uni_lower s))
     = detect_packaging_type (CStr s)
  /\ extract_weight_quantity (CStr (str_upper s))
     = extract_weight_quantity (CStr s)
  /\ extract_units_per_carton (CStr (str_upper s))
     = extract_units_per_carton (CStr s).
Proof.
  unfold extract_weight_quantity, extract_units_per_carton,
    detect_packaging_type.
  rewrite str_upper_ascii_lower, str_upper_idem. repeat split.
  change (uni_lower s) with (map ascii_lower s).
  rewrite str_strip_ascii_lower.
  change (map ascii_lower (str_strip s)) with (uni_lower (str_strip s)).
  by rewrite str_upper_ascii_lower.
Qed.
End LetterCase.

(** ** The weight extractor: shape of the result *)

Lemma iter_pos_invariant {A} (Q : A -> Prop) (f : A -> A) (p : positive) x :
  (forall y, Q y -> Q (f y)) -> Q x -> Q (SpecFloat.iter_pos f p x).
Proof.
  intros Hf. revert x. induction p as [p IH|p IH|]; intros x Hx; simpl; auto.
Qed.

Lemma shr_1_nonneg mrs : 0 <= shr_m mrs -> 0 <= shr_m (shr_1 mrs).
Proof.
  destruct mrs as [m r s]. simpl. destruct m as [|[p|p|]|[p|p|]]; simpl; lia.
Qed.

Lemma shr_nonneg mrs e n : 0 <= shr_m mrs -> 0 <= shr_m (fst (shr mrs e n)).
Proof.
  intros H. unfold shr. destruct n as [|p|p]; simpl; try done.
  apply (iter_pos_invariant (fun y => 0 <= shr_m y)); [|done].
  apply shr_1_nonneg.
Qed.

Lemma shr_record_of_loc_m m l : shr_m (shr_record_of_loc m l) = m.
Proof. by destruct l as [|[]]. Qed.

Lemma shr_fexp_nonneg m e l :
  0 <= m -> 0 <= shr_m (fst (shr_fexp 53 1024 m e l)).
Proof.
  intros H. unfold shr_fexp. apply shr_nonneg.
  by rewrite shr_record_of_loc_m.
Qed.

Lemma round_nearest_even_nonneg m l : 0 <= m -> 0 <= round_nearest_even m l.
Proof.
  intros H. unfold round_nearest_even.
  destruct l as [|[]]; try destruct (Z.even m); lia.
Qed.

(** Rounding a magnitude keeps the sign it is given. *)
Lemma binary_round_aux_plus mx ex lx :
  0 <= mx -> plus_signed (binary_round_aux 53 1024 false mx ex lx).
Proof.
  intros H. unfold binary_round_aux.
  pose proof (shr_fexp_nonneg mx ex lx H) as H1.
  destruct (shr_fexp 53 1024 mx ex lx) as [mrs' e'].
  simpl in H1.
  pose proof (shr_fexp_nonneg
                (round_nearest_even (shr_m mrs') (loc_of_shr_record mrs'))
                e' loc_Exact (round_nearest_even_nonneg _ _ H1)) as H2.
  destruct (shr_fexp 53 1024 _ e' loc_Exact) as [mrs'' e''].
  simpl in H2. destruct (shr_m mrs'') as [|m|m]; [done| |lia].
  by destruct (e'' <=? 1024 - 53).
Qed.

Lemma b64_mul_plus (x y : float) :
  plus_signed x ->
  match y with S754_finite false _ _ => True | _ => False end ->
  plus_signed (b64_mul x y).
Proof.
  destruct x as [[]|[]| |[] mx ex], y as [[]|[]| |[] my ey]; try done.
  intros _ _. unfold b64_mul, SFmul. simpl xorb.
  by apply binary_round_aux_plus.
Qed.

Lemma b64_of_decimal_plus (d : Z) (k : nat) : plus_signed (b64_of_decimal d k).
Proof.
  unfold b64_of_decimal. destruct d as [|p|p]; try done.
  unfold b64_div, SFdiv.
  destruct (SFdiv_core_binary 53 1024 (Z.pos p) 0
              (Z.pos (Z.to_pos (10 ^ Z.of_nat k))) 0) as [[mz ez] lz] eqn:Hd.
  simpl xorb. apply binary_round_aux_plus.
  unfold SFdiv_core_binary in Hd.
  set (m' := match _ with Z0 => Z.pos p | Zpos _ => _ | Zneg _ => 0 end) in Hd.
  assert (0 <= m') as Hm.
  { subst m'. destruct (_ - _ - _) as [|q|q]; try lia.
    apply Z.shiftl_nonneg. lia. }
  pose proof (Z.div_eucl_eq m' (Z.pos (Z.to_pos (10 ^ Z.of_nat k)))) as He.
  pose proof (Z_div_mod m' (Z.pos (Z.to_pos (10 ^ Z.of_nat k)))) as Hb.
  destruct (Z.div_eucl m' _) as [q r]. injection Hd as <- _ _.
  specialize (Hb ltac:(lia)). nia.
Qed.

Section WeightShape.
Context {RT : Runtime}.

Lemma py_float_plus (s : str) (value : float) :
  py_float s = Return value -> plus_signed value.
Proof.
  unfold py_float. destruct (split_dot s) as [[|c ip] [[|c' fp]|]]; try done.
  - destruct (digits_value 0 _); [|done].
    intros [= <-]. apply b64_of_decimal_plus.
  - destruct (digits_value 0 _); [|done].
    intros [= <-]. apply b64_of_decimal_plus.
Qed.

Lemma to_grams_plus (value : float) (unit : str) :
  plus_signed value -> plus_signed (to_grams value unit).
Proof.
  intros H. unfold to_grams.
  repeat match goal with
         | |- context [if ?b then _ else _] => destruct b
         end; try done; by apply b64_mul_plus.
Qed.

Lemma c_round_nonneg (m : positive) (e : Z) : 0 <= c_round m e.
Proof.
  unfold c_round. destruct (0 <=? e) eqn:He.
  - apply Z.leb_le in He. apply Z.mul_nonneg_nonneg; [lia|].
    by apply Z.pow_nonneg.
  - apply Z.leb_gt in He. apply Z.div_pos.
    + pose proof (Z.pow_nonneg 2 (- e - 1)). lia.
    + apply Z.pow_pos_nonneg; lia.
Qed.

Lemma py_round_plus (x : float) :
  plus_signed x ->
  match py_round x with
  | Return k => 0 <= k
  | Raise e => e = OverflowError
  end.
Proof.
  destruct x as [[]|[]| |[] m e]; try done. intros _. simpl.
  destruct (half_apart m e (c_round m e)).
  - pose proof (c_round_nonneg m (e - 1)). lia.
  - apply c_round_nonneg.
Qed.

(** Whatever the unit normalizer is given, it returns nothing, or a
    natural number in decimal followed by G, or raises [OverflowError]. *)
Lemma unit_normalizer_shape (literal unit : str) :
  match unit_normalizer literal unit with
  | Return None => True
  | Return (Some w) => exists k, 0 <= k /\ w = str_of_int k ++ py "G"
  | Raise e => e = OverflowError
  end.
Proof.
  unfold unit_normalizer.
  destruct (py_float literal) as [value|] eqn:Hv; [|done].
  pose proof (py_round_plus _ (to_grams_plus value (str_upper unit)
                                 (py_float_plus _ _ Hv))) as Hr.
  destruct (py_round _) as [k|e]; simpl; [by exists k|done].
Qed.

Lemma weight_re_groups : groups_match (fun _ _ => True) weight_re.
Proof. unfold weight_re. cbn -[steps]. tauto. Qed.

(** X4. The weight extractor returns nothing, or a natural number in decimal
    followed by G; the one exception it can raise is the [OverflowError]
    of rounding an infinite number of grams. *)
Theorem extract_weight_quantity_shape (name : cell) :
  match extract_weight_quantity name with
  | Return None => True
  | Return (Some w) => exists k, 0 <= k /\ w = str_of_int k ++ py "G"
  | Raise e => e = OverflowError
  end.
Proof.
  destruct name as [| |s]; try done. unfold extract_weight_quantity.
  destruct (re_search weight_re _) as [m|] eqn:Hm; [|done].
  destruct (re_search_group (fun _ _ => True) 1 weight_re _ m
              weight_re_groups eq_refl Hm) as (g1 & -> & _).
  destruct (re_search_group (fun _ _ => True) 2 weight_re _ m
              weight_re_groups eq_refl Hm) as (g2 & -> & _).
  apply unit_normalizer_shape.
Qed.
End WeightShape.

Section WeightOverflow.
Local Existing Instance ascii_runtime.

(** A literal of 310 digits is read as plus infinity, and rounding it
    raises. *)
Lemma weight_overflow_example :
  extract_weight_quantity (CStr (repeat 57%N 310 ++ py "G"))
  = Raise OverflowError.
Proof. vm_compute. reflexivity. Qed.
End WeightOverflow.

(** ** The first weight token of a name *)

Section FirstToken.
Local Existing Instance ascii_runtime.

Lemma after_unit_not_r (c : N) :
  after_unit c = true -> uni_icase 82 c = false.
Proof.
  intros Hc.
  change (uni_icase 82 c) with (114 =? ascii_lower c)%N.
  apply N.eqb_neq. intros H.
  assert (c = 82%N \/ c = 114%N) as [->| ->]; [|done..].
  revert H. unfold ascii_lower.
  destruct (N.leb_spec 65 c), (N.leb_spec c 90); simpl; lia.
Qed.

(** At a unit token followed by nothing, or by something the lookahead
    accepts, the alternatives settle on that token. *)
Lemma unit_then_match (u pre tail : str) (caps : list (nat * str)) :
  u ∈ map py unit_tokens ->
  match tail with [] => True | c :: _ => after_unit c = true end ->
  run unit_then Some (MState pre (u ++ tail) caps)
  = Some (MState (rev u ++ pre) tail
            ((2%nat, consumed pre (rev u ++ pre)) :: caps)).
Proof.
  unfold unit_tokens. cbn [map]. rewrite !elem_of_cons, elem_of_nil.
  intros Hu Hc.
  repeat (destruct Hu as [->|Hu];
          [destruct tail as [|c t];
           [vm_compute; reflexivity
           |pose proof (after_unit_not_r c Hc) as Hr;
            vm_compute; vm_compute in Hc; vm_compute in Hr;
            first [rewrite Hc; reflexivity|rewrite Hr, Hc; reflexivity]]|]).
  destruct Hu.
Qed.

Lemma unit_token_head (u : str) :
  u ∈ map py unit_tokens ->
  exists x r, u = x :: r /\ is_space x = false /\ is_digit x = false
              /\ x <> 46%N.
Proof.
  unfold unit_tokens. cbn [map]. rewrite !elem_of_cons, elem_of_nil.
  intros Hu.
  repeat (destruct Hu as [->|Hu]; [|]); try done; by eexists _, _.
Qed.

Lemma unit_token_upper (u : str) :
  u ∈ map py unit_tokens -> str_upper u = u.
Proof.
  unfold unit_tokens. cbn [map]. rewrite !elem_of_cons, elem_of_nil.
  intros Hu.
  repeat (destruct Hu as [->|Hu]; [|]); try done.
Qed.

Lemma space_not_digit (c : N) : is_space c = true -> is_digit c = false.
Proof.
  intros Hc. destruct (is_digit c) eqn:Hd; [|done].
  apply digit_not_space in Hd. congruence.
Qed.

(** What follows the numeric literal begins with neither a digit nor a
    dot. *)
Lemma after_literal_head (sp u tail : str) :
  all_space sp -> u ∈ map py unit_tokens ->
  exists x r, sp ++ u ++ tail = x :: r /\ is_digit x = false /\ x <> 46%N.
Proof.
  intros Hsp Hu. destruct Hsp as [|c sp Hc Hsp].
  - destruct (unit_token_head u Hu) as (x & r & -> & _ & Hd & Hdot).
    by exists x, (r ++ tail).
  - exists c, (sp ++ u ++ tail). split; [done|].
    split; [by apply space_not_digit|]. by intros ->.
Qed.

Lemma fraction_re_none (k : cont) (pre rest : str) (caps : list (nat * str)) :
  match rest with [] => True | x :: _ => x <> 46%N end ->
  run fraction_re k (MState pre rest caps) = None.
Proof.
  destruct rest as [|x r]; [done|]. intros Hx.
  unfold fraction_re. cbn [run m_suf]. unfold one.
  destruct (N.eqb_spec 46 x); [congruence|done].
Qed.

Lemma weight_tail_match (sp u tail pre : str) (caps : list (nat * str)) :
  all_space sp -> u ∈ map py unit_tokens ->
  match tail with [] => True | c :: _ => after_unit c = true end ->
  run weight_tail Some (MState pre (sp ++ u ++ tail) caps)
  = Some (MState (rev u ++ rev sp ++ pre) tail ((2%nat, u) :: caps)).
Proof.
  intros Hsp Hu Hc.
  change weight_tail with (Seq (Star is_space) unit_then).
  cbn [run m_pre m_suf m_caps].
  apply star_greedy; [exact Hsp| |].
  - destruct (unit_token_head u Hu) as (x & r & -> & Hx & _). exact Hx.
  - change (run unit_then Some (MState (rev sp ++ pre) (u ++ tail) caps)
            = Some (MState (rev u ++ rev sp ++ pre) tail
                      ((2%nat, u) :: caps))).
    rewrite (unit_then_match u _ tail caps Hu Hc).
    by rewrite consumed_app, rev_involutive.
Qed.

(** The whole pattern at the start of a numeric literal that is followed
    by optional white space and a unit token. *)
Lemma weight_re_match (c0 : N) (ip fp sp u tail pre : str) :
  is_digit c0 = true -> digits_only ip -> digits_only fp ->
  all_space sp -> u ∈ map py unit_tokens ->
  match tail with [] => True | c :: _ => after_unit c = true end ->
  let lit := c0 :: ip ++ match fp with [] => [] | _ => 46%N :: fp end in
  run weight_re Some (MState pre (lit ++ sp ++ u ++ tail) [])
  = Some (MState (rev u ++ rev sp ++ rev lit ++ pre) tail
            [(2%nat, u); (1%nat, lit)]).
Proof.
  intros Hc0 Hip Hfp Hsp Hu Hc lit.
  destruct (after_literal_head sp u tail Hsp Hu) as (x & r & Hhead & Hxd & Hxdot).
  rewrite weight_re_split. cbn [run]. unfold Plus. cbn [run m_suf m_pre m_caps].
  subst lit. cbn [app]. rewrite Hc0. rewrite <- app_assoc.
  destruct fp as [|c1 fp]; cbn [app].
  - apply star_greedy; [exact Hip|by rewrite Hhead|].
    cbn [m_pre m_suf m_caps].
    rewrite fraction_re_none by (by rewrite Hhead).
    rewrite (weight_tail_match sp u tail _ _ Hsp Hu Hc).
    rewrite app_nil_r.
    assert (rev ip ++ c0 :: pre = rev (c0 :: ip) ++ pre) as ->
      by (simpl; by rewrite <- app_assoc).
    by rewrite consumed_app, rev_involutive.
  - inversion Hfp as [|? ? Hc1 Hfp']; subst.
    apply star_greedy; [exact Hip|done|].
    unfold fraction_re at 1, Plus. cbn [run m_suf m_pre m_caps].
    change (one 46 46) with true. cbv iota. rewrite Hc1.
    erewrite star_greedy;
      [reflexivity|exact Hfp'|by rewrite Hhead|].
    cbn [m_pre m_suf m_caps].
    rewrite (weight_tail_match sp u tail _ _ Hsp Hu Hc).
    assert (rev fp ++ c1 :: 46%N :: rev ip ++ c0 :: pre
            = rev (c0 :: ip ++ 46%N :: c1 :: fp) ++ pre) as ->.
    { cbn [rev]. rewrite rev_app_distr. cbn [rev].
      by rewrite <- !app_assoc. }
    by rewrite consumed_app, rev_involutive.
Qed.

(** No match starts at a code point that is not a digit. *)
Lemma weight_re_needs_digit (c : N) (pre suf : str) :
  is_digit c = false -> run weight_re Some (MState pre (c :: suf) []) = None.
Proof.
  intros Hc. rewrite weight_re_split. cbn [run]. unfold Plus.
  cbn [run m_suf m_pre m_caps]. by rewrite Hc.
Qed.

Lemma search_from_skip (r : regex) (p rest pre : str) :
  Forall (fun c => forall pre suf, run r Some (MState pre (c :: suf) []) = None)
         p ->
  search_from r pre (p ++ rest) = search_from r (rev p ++ pre) rest.
Proof.
  intros Hp. revert pre. induction Hp as [|c p Hc Hp IH]; intros pre; [done|].
  cbn [app search_from]. rewrite Hc, IH. simpl. by rewrite <- app_assoc.
Qed.

(** X5. The first weight token decides.  When the upper-cased, stripped name
    reads: text without a digit, a numeric literal, optional white space,
    a unit token, and then nothing or something the lookahead accepts
    (white space, a digit, X, a non-word character), the result is the
    literal's binary64 value converted by the table of the unit, rounded,
    followed by G. *)
Theorem weight_of_first_token (s p ip fp sp u tail : str) (c0 : N) :
  let lit := c0 :: ip ++ match fp with [] => [] | _ => 46%N :: fp end in
  str_strip (str_upper s) = p ++ lit ++ sp ++ u ++ tail ->
  Forall (fun c => is_digit c = false) p ->
  is_digit c0 = true -> digits_only ip -> digits_only fp ->
  all_space sp -> u ∈ map py unit_tokens ->
  match tail with [] => True | c :: _ => after_unit c = true end ->
  exists value,
    py_float lit = Return value
    /\ match to_grams value u with
       | S754_infinity _ =>
           extract_weight_quantity (CStr s) = Raise OverflowError
       | grams =>
           exists k,
             extract_weight_quantity (CStr s)
             = Return (Some (str_of_int k ++ py "G"))
             /\ 0 <= k /\ nearest_even k grams
       end.
Proof.
  intros lit Hs Hp Hc0 Hip Hfp Hsp Hu Hc.
  assert (exists value, py_float lit = Return value) as [value Hv].
  { destruct (py_float_accepts_literals (c0 :: ip) fp) as [H1 H2];
      [done|by constructor|done|].
    subst lit. destruct fp as [|c1 fp].
    - by rewrite app_nil_r.
    - by apply H2. }
  exists value. split; [done|].
  unfold extract_weight_quantity. rewrite Hs. unfold re_search.
  rewrite search_from_skip.
  2:{ eapply Forall_impl; [exact Hp|]. intros c Hd pre suf.
      by apply weight_re_needs_digit. }
  pose proof (weight_re_match c0 ip fp sp u tail (rev p ++ [])
                Hc0 Hip Hfp Hsp Hu Hc) as Hm.
  cbv zeta in Hm. fold lit in Hm.
  rewrite (search_from_here weight_re _ _ _ Hm).
  change (group 1 _) with (Some lit). change (group 2 _) with (Some u).
  unfold unit_normalizer. rewrite Hv. cbv zeta.
  rewrite (unit_token_upper u Hu).
  pose proof (to_grams_plus value u (py_float_plus _ _ Hv)) as Hplus.
  pose proof (py_round_plus _ Hplus) as Hpos.
  destruct (to_grams value u) as [[]|[]| |[] m e] eqn:Hg; try done.
  - exists 0. split; [done|]. split; [done|].
    unfold nearest_even. simpl. split; [lia|done].
  - destruct (py_round_nearest_even false m e) as (k & Hk & Hn).
    rewrite Hk in Hpos |- *. by exists k.
Qed.

Lemma weight_of_first_token_witness :
  let s := py "Basmati rice 2.5 kg x 4" in
  let p := py "BASMATI RICE " in
  let lit := py "2.5" in
  let tail := py " X 4" in
  let value := S754_finite false 5629499534213120 (-51) in
  str_strip (str_upper s) = p ++ lit ++ py " " ++ py "KG" ++ tail
  /\ Forall (fun c => is_digit c = false) p
  /\ is_digit 50%N = true /\ digits_only [] /\ digits_only (py "5")
  /\ all_space (py " ") /\ py "KG" ∈ map py unit_tokens
  /\ py_float lit = Return value
  /\ exists k,
       extract_weight_quantity (CStr s)
       = Return (Some (str_of_int k ++ py "G"))
       /\ 0 <= k /\ nearest_even k (to_grams value (py "KG")).
Proof.
  intros s p lit tail value.
  assert (str_strip (str_upper s) = p ++ lit ++ py " " ++ py "KG" ++ tail)
    as H1 by (vm_compute; reflexivity).
  assert (Forall (fun c => is_digit c = false) p) as H2
    by (by repeat constructor).
  assert (is_digit 50%N = true) as H3 by reflexivity.
  assert (digits_only []) as H4 by constructor.
  assert (digits_only (py "5")) as H5 by (by repeat constructor).
  assert (all_space (py " ")) as H6 by (by repeat constructor).
  assert (py "KG" ∈ map py unit_tokens) as H7 by (by left).
  assert (py_float lit = Return value) as H8 by (vm_compute; reflexivity).
  repeat (split; [assumption|]).
  destruct (weight_of_first_token s p [] (py "5") (py " ") (py "KG") tail
              50%N H1 H2 H3 H4 H5 H6 H7 eq_refl) as (value' & Hv & Hk).
  assert (value' = value) as ->.
  { change (py_float lit = Return value') in Hv. congruence. }
  exact Hk.
Defined.

(** *** The PCS recognizer *)

Lemma not_word_not_s (c : N) : is_word c = false -> one 83 c = false.
Proof.
  intros Hc. unfold one. apply N.eqb_neq. by intros <-.
Qed.

Lemma pcs_then_match (tok pre tail : str) (caps : list (nat * str)) :
  tok ∈ [py "PCS"; py "PC"; py "PS"] ->
  match tail with [] => True | c :: _ => is_word c = false end ->
  run pcs_then Some (MState pre (tok ++ tail) caps)
  = Some (MState (rev tok ++ pre) tail
            ((2%nat, consumed pre (rev tok ++ pre)) :: caps)).
Proof.
  rewrite !elem_of_cons, elem_of_nil. intros Ht Hc.
  repeat (destruct Ht as [->|Ht];
          [destruct tail as [|c t];
           [vm_compute; reflexivity
           |pose proof (not_word_not_s c Hc) as Hs;
            vm_compute; vm_compute in Hc; vm_compute in Hs;
            first [rewrite Hc; reflexivity|rewrite Hs, Hc; reflexivity]]|]).
  destruct Ht.
Qed.

Lemma pcs_token_head (tok : str) :
  tok ∈ [py "PCS"; py "PC"; py "PS"] ->
  exists x r, tok = x :: r /\ is_space x = false /\ is_digit x = false.
Proof.
  rewrite !elem_of_cons, elem_of_nil. intros Ht.
  repeat (destruct Ht as [->|Ht]; [|]); try done; by eexists _, _.
Qed.

Lemma pcs_re_match (c0 : N) (d sp tok tail pre : str) :
  is_digit c0 = true -> digits_only d -> all_space sp ->
  tok ∈ [py "PCS"; py "PC"; py "PS"] ->
  match tail with [] => True | c :: _ => is_word c = false end ->
  run pcs_re Some (MState pre ((c0 :: d) ++ sp ++ tok ++ tail) [])
  = Some (MState (rev tok ++ rev sp ++ rev (c0 :: d) ++ pre) tail
            [(2%nat, tok); (1%nat, c0 :: d)]).
Proof.
  intros Hc0 Hd Hsp Ht Hc.
  destruct (pcs_token_head tok Ht) as (x & r & Htok & Hxs & Hxd).
  change pcs_re
    with (Seq (Group 1 (Plus is_digit)) (Seq (Star is_space) pcs_then)).
  cbn [run]. unfold Plus. cbn [run m_suf m_pre m_caps app]. rewrite Hc0.
  apply star_greedy; [exact Hd| |].
  - destruct Hsp as [|c sp Hcs Hsp]; [by rewrite Htok|].
    by apply space_not_digit.
  - cbn [m_pre m_suf m_caps].
    apply star_greedy; [exact Hsp|by rewrite Htok|].
    change (run pcs_then Some
              (MState (rev sp ++ rev d ++ c0 :: pre) (tok ++ tail)
                 [(1%nat, consumed pre (rev d ++ c0 :: pre))])
            = Some (MState (rev tok ++ rev sp ++ rev (c0 :: d) ++ pre) tail
                      [(2%nat, tok); (1%nat, c0 :: d)])).
    rewrite (pcs_then_match tok _ tail _ Ht Hc).
    assert (rev d ++ c0 :: pre = rev (c0 :: d) ++ pre) as ->
      by (simpl; by rewrite <- app_assoc).
    by rewrite !consumed_app, !rev_involutive.
Qed.

Lemma pcs_re_needs_digit (c : N) (pre suf : str) :
  is_digit c = false -> run pcs_re Some (MState pre (c :: suf) []) = None.
Proof.
  intros Hc.
  change pcs_re
    with (Seq (Group 1 (Plus is_digit)) (Seq (Star is_space) pcs_then)).
  cbn [run]. unfold Plus. cbn [run m_suf m_pre m_caps]. by rewrite Hc.
Qed.

(** X6. Case 1 end to end.  When the upper-cased, stripped name reads: text
    without a digit, a run of digits, optional white space, PCS, PC or
    PS, and then nothing or a non-word character, the units per carton
    are the number the digits spell.  The run is no longer than the 4300
    digits that [int] converts by default. *)
Theorem units_of_pcs_token (s p d sp tok tail : str) (c0 : N) :
  str_strip (str_upper s) = p ++ (c0 :: d) ++ sp ++ tok ++ tail ->
  Forall (fun c => is_digit c = false) p ->
  is_digit c0 = true -> digits_only d ->
  (length (c0 :: d) <= 4300)%nat ->
  all_space sp ->
  tok ∈ [py "PCS"; py "PC"; py "PS"] ->
  match tail with [] => True | c :: _ => is_word c = false end ->
  exists n,
    py_int (c0 :: d) = Return n
    /\ 0 <= n
    /\ extract_units_per_carton (CStr s) = Return (Some n).
Proof.
  intros Hs Hp Hc0 Hd Hlen Hsp Ht Hc.
  destruct (py_int_short_run (c0 :: d)) as (n & Hn & Hpos);
    [split; [done|by constructor]|exact Hlen|].
  exists n. split; [done|]. split; [done|].
  unfold extract_units_per_carton. rewrite Hs. unfold re_search.
  rewrite search_from_skip.
  2:{ eapply Forall_impl; [exact Hp|]. intros c Hcd pre suf.
      by apply pcs_re_needs_digit. }
  rewrite (search_from_here pcs_re _ _ _
             (pcs_re_match c0 d sp tok tail _ Hc0 Hd Hsp Ht Hc)).
  unfold int_group. change (group 1 _) with (Some (c0 :: d)).
  cbv iota beta. by rewrite Hn.
Qed.

Lemma units_of_pcs_token_witness :
  let s := py "Tissue box 96 pcs (soft)" in
  str_strip (str_upper s)
  = py "TISSUE BOX " ++ py "96" ++ py " " ++ py "PCS" ++ py " (SOFT)"
  /\ Forall (fun c => is_digit c = false) (py "TISSUE BOX ")
  /\ is_digit 57%N = true /\ digits_only (py "6")
  /\ (length (py "96") <= 4300)%nat /\ all_space (py " ")
  /\ py "PCS" ∈ [py "PCS"; py "PC"; py "PS"]
  /\ extract_units_per_carton (CStr s) = Return (Some 96).
Proof.
  intros s.
  assert (str_strip (str_upper s)
          = py "TISSUE BOX " ++ py "96" ++ py " " ++ py "PCS" ++ py " (SOFT)")
    as H1 by (vm_compute; reflexivity).
  assert (Forall (fun c => is_digit c = false) (py "TISSUE BOX ")) as H2
    by (by repeat constructor).
  assert (is_digit 57%N = true) as H3 by reflexivity.
  assert (digits_only (py "6")) as H4 by (by repeat constructor).
  assert (length (py "96") <= 4300)%nat as HL by (simpl; lia).
  assert (all_space (py " ")) as H5 by (by repeat constructor).
  assert (py "PCS" ∈ [py "PCS"; py "PC"; py "PS"]) as H6 by (by left).
  repeat (split; [assumption|]).
  destruct (units_of_pcs_token s (py "TISSUE BOX ") (py "6") (py " ")
              (py "PCS") (py " (SOFT)") 57%N H1 H2 H3 H4 HL H5 H6 eq_refl)
    as (n & Hn & _ & He).
  assert (n = 96) as -> by (vm_compute in Hn; congruence).
  exact He.
Defined.
End FirstToken.

(** ** Column names *)

Lemma lookup_list_to_map_find (l : list (str * str)) (k : str) :
  (list_to_map l : gmap str str) !! k
  = snd <$> find (fun e => str_eqb k (fst e)) l.
Proof.
  induction l as [|[a b] l IH]; [done|]. simpl.
  unfold str_eqb at 1. simpl. destruct (decide (k = a)) as [->|Hne].
  - rewrite bool_decide_eq_true_2 by done. by rewrite lookup_insert_eq.
  - rewrite bool_decide_eq_false_2 by done.
    by rewrite lookup_insert_ne.
Qed.

Ltac col_cases l :=
  unfold col_map_get, col_map; rewrite lookup_list_to_map_find;
  cbn [find fst snd];
  repeat match goal with
         | |- context [str_eqb l ?k] =>
             let H := fresh "H" in
             destruct (str_eqb l k) eqn:H;
             [apply bool_decide_eq_true in H; subst l
             |apply bool_decide_eq_false in H]
         end.

Lemma col_map_get_name (l : str) :
  col_map_get l = py "Product_Name" <-> l ∈ name_aliases.
Proof.
  unfold name_aliases. rewrite !elem_of_cons, elem_of_nil.
  col_cases l; simpl; split; try tauto; try discriminate;
    intros; intuition discriminate.
Qed.

Lemma col_map_get_supplier (l : str) :
  col_map_get l = py "Supplier" <-> l = py "Supplier".
Proof. col_cases l; simpl; split; try tauto; discriminate. Qed.

Lemma col_map_get_cases (l : str) :
  col_map_get l = l
  \/ col_map_get l ∈ [py "Product_Name"; py "Serial_Number"; py "Unit"].
Proof.
  rewrite !elem_of_cons, elem_of_nil. col_cases l; simpl; tauto.
Qed.

(** Renaming is idempotent: every label [col_map] produces is one it
    leaves alone. *)
Lemma col_map_get_idem (l : str) :
  col_map_get (col_map_get l) = col_map_get l.
Proof.
  destruct (col_map_get_cases l) as [H|H].
  - by rewrite H.
  - rewrite !elem_of_cons, elem_of_nil in H.
    destruct H as [->|[->|[->|[]]]]; reflexivity.
Qed.

Lemma has_column_iff (l : str) (df : frame) :
  has_column l df = true <-> exists c, c ∈ f_columns df /\ fst c = l.
Proof.
  unfold has_column. rewrite existsb_exists. split.
  - intros (c & Hin%list_elem_of_In & Hc%bool_decide_eq_true). by exists c.
  - intros (c & Hin & Hc). exists c.
    split; [by apply list_elem_of_In|by apply bool_decide_eq_true].
Qed.

Lemma has_column_false (l : str) (df : frame) :
  has_column l df = false <-> forall c, c ∈ f_columns df -> fst c <> l.
Proof.
  rewrite <- not_true_iff_false, has_column_iff. split.
  - intros H c Hin Hc. apply H. by exists c.
  - intros H (c & Hin & Hc). by apply (H c).
Qed.

Lemma has_column_rename (l : str) (df : frame) :
  has_column l (rename_columns df) = true
  <-> exists c, c ∈ f_columns df /\ col_map_get (fst c) = l.
Proof.
  rewrite has_column_iff. unfold rename_columns. simpl.
  change (map ?f ?x) with (f <$> x). split.
  - intros (c & (c0 & -> & Hin)%list_elem_of_fmap & Hc). by exists c0.
  - intros (c0 & Hin & Hc). exists (col_map_get (fst c0), snd c0).
    split; [|exact Hc]. apply list_elem_of_fmap. by exists c0.
Qed.

(** Assigning a column keeps every other label and creates the column
    when it was absent. *)
Lemma has_column_set (l k : str) (v : cell) (df : frame) :
  has_column l (set_column k v df) = true
  <-> l = k \/ has_column l df = true.
Proof.
  unfold set_column. destruct (has_column k df) eqn:Hk.
  - rewrite !has_column_iff. simpl. change (map ?f ?x) with (f <$> x). split.
    + intros (c & (c0 & -> & Hin)%list_elem_of_fmap & Hc). right.
      exists c0. split; [done|]. by destruct (str_eqb k (fst c0)).
    + intros [->|(c0 & Hin & Hc)].
      * apply has_column_iff in Hk as (c0 & Hin & Hc).
        eexists. split; [apply list_elem_of_fmap; by exists c0|].
        by destruct (str_eqb k (fst c0)).
      * eexists. split; [apply list_elem_of_fmap; by exists c0|].
        by destruct (str_eqb k (fst c0)).
  - rewrite !has_column_iff. simpl. split.
    + intros (c & [Hin|Hin%list_elem_of_singleton]%elem_of_app & Hc).
      * right. by exists c.
      * left. by subst c.
    + intros [->|(c & Hin & Hc)].
      * eexists. split; [apply elem_of_app; right; by left|done].
      * exists c. split; [apply elem_of_app; by left|done].
Qed.

Lemma map_id_on {A} (f : A -> A) (l : list A) :
  (forall x, x ∈ l -> f x = x) -> map f l = l.
Proof.
  induction l as [|a l IH]; [done|]. intros H. simpl.
  rewrite (H a) by (by left). rewrite IH; [done|].
  intros x Hx. apply H. by right.
Qed.

(** The columns after [df[k] = v], one by one. *)
Lemma set_column_columns (k : str) (v : cell) (df : frame) (c : str * list cell) :
  c ∈ f_columns (set_column k v df) <->
  (fst c <> k /\ c ∈ f_columns df)
  \/ (c = (k, repeat v (n_rows df))
      /\ (has_column k df = false \/ exists d, (k, d) ∈ f_columns df)).
Proof.
  unfold set_column. destruct (has_column k df) eqn:Hk; simpl.
  - change (map ?f ?x) with (f <$> x). rewrite list_elem_of_fmap. split.
    + intros ([l d] & -> & Hin). simpl.
      unfold str_eqb. destruct (decide (k = l)) as [->|Hne].
      * rewrite bool_decide_eq_true_2 by done. right.
        split; [done|]. right. by exists d.
      * rewrite bool_decide_eq_false_2 by done. left.
        split; [simpl; congruence|done].
    + intros [[Hne Hin]|[-> [?|[d Hin]]]]; [|done|].
      * exists c. split; [|done]. unfold str_eqb.
        by rewrite bool_decide_eq_false_2 by (by intros ->).
      * exists (k, d). split; [|done]. simpl. unfold str_eqb.
        by rewrite bool_decide_eq_true_2.
  - pose proof (proj1 (has_column_false k df) Hk) as Hk'.
    rewrite elem_of_app, list_elem_of_singleton. split.
    + intros [Hin| ->]; [left|right; split; [done|by left]].
      split; [by apply Hk'|done].
    + intros [[_ Hin]|[-> _]]; [by left|by right].
Qed.

Lemma set_column_n_rows (k : str) (v : cell) (df : frame) :
  n_rows (set_column k v df) = n_rows df.
Proof. unfold set_column. by destruct (has_column k df). Qed.

(** X7. [standardize_columns] fails exactly on a file none of whose labels
    is an alias of Product_Name, and then with [ValueError]. *)
Theorem standardize_columns_fails_iff (df : frame) (supplier_name : str) :
  (returns (standardize_columns df supplier_name) = true <->
   exists c, c ∈ f_columns df /\ fst c ∈ name_aliases)
  /\ (standardize_columns df supplier_name = Raise ValueError <->
      forall c, c ∈ f_columns df -> fst c ∉ name_aliases).
Proof.
  unfold standardize_columns. cbv zeta.
  destruct (has_column (py "Product_Name") (rename_columns df)) eqn:Hp;
    simpl.
  - apply has_column_rename in Hp as (c & Hin & Hc%col_map_get_name).
    split; split; try done.
    + intros _. by exists c.
    + intros H. by destruct (H c Hin).
  - split; split; try done.
    + intros (c & Hin & Hc%col_map_get_name). exfalso.
      apply not_true_iff_false in Hp. apply Hp, has_column_rename.
      by exists c.
    + intros _ c Hin Hc%col_map_get_name.
      apply not_true_iff_false in Hp. apply Hp, has_column_rename.
      by exists c.
Qed.

Lemma rename_columns_fixed (df : frame) :
  (forall c, c ∈ f_columns df -> col_map_get (fst c) = fst c) ->
  rename_columns df = df.
Proof.
  intros H. destruct df as [n cols]. unfold rename_columns. simpl in *.
  f_equal. apply map_id_on. intros [l d] Hin.
  pose proof (H (l, d) Hin) as E. simpl in *. by rewrite E.
Qed.

Lemma set_column_again (k : str) (v : cell) (df : frame) :
  set_column k v (set_column k v df) = set_column k v df.
Proof.
  assert (has_column k (set_column k v df) = true) as Hk
    by (apply has_column_set; by left).
  unfold set_column at 1. rewrite Hk, set_column_n_rows.
  destruct (set_column k v df) as [n cols] eqn:Hg. simpl. f_equal.
  - by rewrite <- (set_column_n_rows k v df), Hg.
  - apply map_id_on. intros [l d] Hin. simpl.
    unfold str_eqb. destruct (decide (k = l)) as [<-|Hne].
    + rewrite bool_decide_eq_true_2 by done.
      assert ((k, d) ∈ f_columns (set_column k v df)) as Hin'
        by (by rewrite Hg).
      apply set_column_columns in Hin' as [[Hne _]|[[= ->] _]]; [done|].
      done.
    + by rewrite bool_decide_eq_false_2.
Qed.

(** X8. A frame that went through [standardize_columns] goes through it
    again unchanged. *)
Theorem standardize_columns_idempotent (df g : frame) (supplier_name : str) :
  standardize_columns df supplier_name = Return g ->
  standardize_columns g supplier_name = Return g.
Proof.
  unfold standardize_columns. cbv zeta.
  destruct (has_column (py "Product_Name") (rename_columns df)) eqn:Hp;
    [|done].
  simpl. intros [= <-].
  set (g := set_column (py "Supplier") (CStr supplier_name)
                       (rename_columns df)).
  assert (rename_columns g = g) as ->.
  { apply rename_columns_fixed. intros c Hin.
    apply set_column_columns in Hin as [[_ Hin]|[-> _]]; [|reflexivity].
    unfold rename_columns in Hin. simpl in Hin.
    change (map ?f ?x) with (f <$> x) in Hin.
    apply list_elem_of_fmap in Hin as (c0 & -> & _). simpl.
    apply col_map_get_idem. }
  assert (has_column (py "Product_Name") g = true) as ->
    by (apply has_column_set; by right).
  simpl. subst g. by rewrite set_column_again.
Qed.

Lemma standardize_columns_idempotent_witness :
  let df := Frame 1 [(py "Item Name", [CStr (py "Rice 5KG")]);
                     (py "SL NO", [CStr (py "7")])] in
  exists g,
    standardize_columns df (py "Future") = Return g
    /\ standardize_columns g (py "Future") = Return g.
Proof.
  intros df.
  destruct (standardize_columns df (py "Future")) as [g|e] eqn:H;
    [|by vm_compute in H].
  exists g. split; [reflexivity|].
  exact (standardize_columns_idempotent df g (py "Future") H).
Defined.

(** X9. What [standardize_columns] returns: the same rows; a Supplier column
    holding the supplier name in every row; every other column under
    its standard label, with its cells untouched. *)
Theorem standardize_columns_keeps_data (df g : frame) (supplier_name : str) :
  standardize_columns df supplier_name = Return g ->
  n_rows g = n_rows df
  /\ (exists c, c ∈ f_columns g /\ fst c = py "Supplier")
  /\ (forall c, c ∈ f_columns g -> fst c = py "Supplier" ->
                snd c = repeat (CStr supplier_name) (n_rows df))
  /\ (forall l d, (l, d) ∈ f_columns df -> l <> py "Supplier" ->
                  (col_map_get l, d) ∈ f_columns g)
  /\ (forall l d, (l, d) ∈ f_columns g -> l <> py "Supplier" ->
                  exists l0, (l0, d) ∈ f_columns df /\ l = col_map_get l0).
Proof.
  unfold standardize_columns. cbv zeta.
  destruct (has_column (py "Product_Name") (rename_columns df)) eqn:Hp;
    [|done].
  simpl. intros [= <-]. split; [by rewrite set_column_n_rows|].
  split; [|split; [|split]].
  - apply has_column_iff, has_column_set. by left.
  - intros c Hin Hc. apply set_column_columns in Hin as [[Hne _]|[-> _]];
      [done|reflexivity].
  - intros l d Hin Hne. apply set_column_columns. left. simpl. split.
    + by rewrite col_map_get_supplier.
    + change (map ?f ?x) with (f <$> x). apply list_elem_of_fmap.
      by exists (l, d).
  - intros l d Hin Hne.
    apply set_column_columns in Hin as [[_ Hin]|[[= -> _] _]]; [|done].
    simpl in Hin. change (map ?f ?x) with (f <$> x) in Hin.
    apply list_elem_of_fmap in Hin as ([l0 d0] & [= -> ->] & Hin).
    by exists l0.
Qed.

Lemma standardize_columns_keeps_data_witness :
  let df := Frame 1 [(py "Item Name", [CStr (py "Rice 5KG")]);
                     (py "Supplier", [CStr (py "someone")])] in
  exists g,
    standardize_columns df (py "Future") = Return g
    /\ n_rows g = 1%nat
    /\ (py "Product_Name", [CStr (py "Rice 5KG")]) ∈ f_columns g
    /\ forall c, c ∈ f_columns g -> fst c = py "Supplier" ->
                 snd c = [CStr (py "Future")].
Proof.
  intros df.
  destruct (standardize_columns df (py "Future")) as [g|e] eqn:H;
    [|by vm_compute in H].
  exists g. split; [reflexivity|].
  destruct (standardize_columns_keeps_data df g (py "Future") H)
    as (Hn & _ & Hs & Hd & _).
  split; [exact Hn|]. split; [|exact Hs].
  apply (Hd (py "Item Name") [CStr (py "Rice 5KG")]); [by left|discriminate].
Defined.

Lemma ensure_columns_unfold (df : frame) :
  ensure_columns required_columns df
  = let df1 := if negb (has_column (py "Serial_Number") df)
               then set_column (py "Serial_Number") CNone df else df in
    if negb (has_column (py "Product_Name") df1)
    then set_column (py "Product_Name") CNone df1 else df1.
Proof. reflexivity. Qed.

(** X10. After [standardize_columns] and the loop over the required columns
    the frame has the three columns the pipeline reads; the loop adds at
    most Serial_Number, filled with [None], and never Product_Name. *)
Theorem required_columns_present (df g : frame) (supplier_name : str) :
  standardize_columns df supplier_name = Return g ->
  let h := ensure_columns required_columns g in
  has_column (py "Product_Name") h = true
  /\ has_column (py "Serial_Number") h = true
  /\ has_column (py "Supplier") h = true
  /\ h = (if has_column (py "Serial_Number") g then g
          else set_column (py "Serial_Number") CNone g).
Proof.
  intros Hg h.
  assert (has_column (py "Product_Name") g = true
          /\ has_column (py "Supplier") g = true) as [Hp Hs].
  { revert Hg. unfold standardize_columns. cbv zeta.
    destruct (has_column (py "Product_Name") (rename_columns df)) eqn:Hp;
      [|done].
    simpl. intros [= <-]. split; apply has_column_set; [by right|by left]. }
  subst h. rewrite ensure_columns_unfold. cbv zeta.
  destruct (has_column (py "Serial_Number") g) eqn:Hsn; simpl.
  - by rewrite Hp.
  - assert (has_column (py "Product_Name")
              (set_column (py "Serial_Number") CNone g) = true) as Hp'
      by (apply has_column_set; by right).
    rewrite Hp'. simpl. repeat split; try done.
    + apply has_column_set. by left.
    + apply has_column_set. by right.
Qed.

Lemma required_columns_present_witness :
  let df := Frame 1 [(py "Name", [CStr (py "Rice 5KG")])] in
  exists g,
    standardize_columns df (py "Future") = Return g
    /\ has_column (py "Serial_Number") g = false
    /\ has_column (py "Serial_Number")
         (ensure_columns required_columns g) = true.
Proof.
  intros df.
  destruct (standardize_columns df (py "Future")) as [g|e] eqn:H;
    [|by vm_compute in H].
  exists g. split; [reflexivity|].
  split; [by vm_compute in H; injection H as <-|].
  exact (proj1 (proj2 (required_columns_present df g (py "Future") H))).
Defined.

(** ** The supplier rule *)

Section SupplierRuleFacts.
Context {RT : Runtime}.

(** X11. The rule applied to the Unit column of the Amal Trading file has two
    results, and says CTN only for a cell that reads CTN once stripped
    and upper-cased.  It is stricter than the classifier used for the
    other suppliers: a text it calls CTN, [detect_packaging_type] calls
    CTN as well. *)
Theorem unit_packaging_strict (x : cell) :
  (unit_packaging x = py "CTN" \/ unit_packaging x = py "NON-CTN")
  /\ (unit_packaging x = py "CTN" <->
      str_upper (str_strip (cell_str x)) = py "CTN")
  /\ (forall s, x = CStr s -> unit_packaging x = py "CTN" ->
                detect_packaging_type x = py "CTN").
Proof.
  unfold unit_packaging, str_eqb.
  destruct (decide (str_upper (str_strip (cell_str x)) = py "CTN"))
    as [He|Hne].
  - rewrite bool_decide_eq_true_2 by done.
    split; [by left|]. split; [done|].
    intros s -> _. unfold detect_packaging_type. simpl in He.
    by rewrite He.
  - rewrite bool_decide_eq_false_2 by done.
    split; [by right|]. split; [|by intros s _ [=]].
    split; [by intros [=]|done].
Qed.
End SupplierRuleFacts.

Section SupplierRuleExamples.
Local Existing Instance ascii_runtime.

(** The converse fails, and a missing Unit cell is NON-CTN. *)
Lemma unit_packaging_examples :
  unit_packaging (CStr (py " ctn ")) = py "CTN"
  /\ unit_packaging (CStr (py "CTN BOX")) = py "NON-CTN"
  /\ detect_packaging_type (CStr (py "CTN BOX")) = py "CTN"
  /\ unit_packaging CNaN = py "NON-CTN"
  /\ unit_packaging CNone = py "NON-CTN".
Proof. repeat split; vm_compute; reflexivity. Qed.
End SupplierRuleExamples.

(** ** Consolidation of a catalogue without duplicates *)

Lemma drop_seen_distinct seen rows :
  NoDup (map dedup_key rows) ->
  (forall r, r ∈ rows -> dedup_key r ∉ seen) ->
  drop_seen seen rows = rows.
Proof.
  revert seen. induction rows as [|r rows IH]; intros seen Hnd Hs; [done|].
  simpl in *. apply NoDup_cons in Hnd as [Hr Hnd].
  destruct (decide (dedup_key r ∈ seen)) as [Hin|_].
  - by destruct (Hs r); [left|].
  - f_equal. apply IH; [done|]. intros r' Hr' Hin.
    apply elem_of_union in Hin as [Hin%elem_of_singleton|Hin].
    + apply Hr. rewrite <- Hin. change (map ?f ?l) with (f <$> l).
      apply list_elem_of_fmap. by exists r'.
    + by apply (Hs r'); [right|].
Qed.

(** X12. When the (Product_Name, Supplier) pairs of the batches are pairwise
    distinct no row is dropped: the catalogue is the concatenation of
    the batches, numbered in order.  In particular consolidating the
    rows of a consolidated catalogue gives the same catalogue. *)
Theorem final_df_without_duplicates (all_data : list (list product)) :
  all_data <> [] ->
  (NoDup (map dedup_key (concat all_data)) ->
   final_df all_data
   = Return (zip (product_ids (length (concat all_data))) (concat all_data)))
  /\ (forall out, final_df all_data = Return out ->
                  final_df [map snd out] = Return out).
Proof.
  intros Hne.
  assert (forall rows, NoDup (map dedup_key rows) ->
                       drop_duplicates rows = rows) as Hd.
  { intros rows Hnd. apply drop_seen_distinct; [done|]. set_solver. }
  assert (forall rows, pd_concat all_data = Return rows ->
            final_df all_data
            = Return (zip (product_ids (length (drop_duplicates rows)))
                          (drop_duplicates rows))) as Hf.
  { intros rows Hr. unfold final_df. by rewrite Hr. }
  assert (pd_concat all_data = Return (concat all_data)) as Hc
    by (by destruct all_data).
  split.
  - intros Hnd. by rewrite (Hf _ Hc), (Hd _ Hnd).
  - intros out. rewrite (Hf _ Hc). intros [= <-].
    set (rows := drop_duplicates (concat all_data)).
    change (map ?f ?l) with (f <$> l).
    rewrite snd_zip by (by rewrite product_ids_length).
    unfold final_df, pd_concat. simpl concat. rewrite app_nil_r.
    unfold mbind, outcome_bind.
    rewrite (Hd rows); [done|]. apply drop_seen_NoDup.
Qed.

Lemma final_df_without_duplicates_witness :
  let all_data := [[crate "1"; crate "2"]; [crate "1"]] in
  let single := [[crate "1"]] in
  all_data <> [] /\ single <> []
  /\ NoDup (map dedup_key (concat single))
  /\ final_df single
     = Return (zip (product_ids (length (concat single))) (concat single))
  /\ exists out, final_df all_data = Return out
                 /\ final_df [map snd out] = Return out.
Proof.
  intros all_data single.
  assert (all_data <> []) as Hne by discriminate.
  assert (single <> []) as Hne' by discriminate.
  assert (NoDup (map dedup_key (concat single))) as Hnd
    by (simpl; apply NoDup_singleton).
  split; [exact Hne|]. split; [exact Hne'|]. split; [exact Hnd|].
  split; [exact (proj1 (final_df_without_duplicates single Hne') Hnd)|].
  destruct (final_df all_data) as [out|e] eqn:H; [|by vm_compute in H].
  exists out. split; [reflexivity|].
  exact (proj2 (final_df_without_duplicates all_data Hne) out H).
Defined.

(** ** The scorer: tokens, failure and unrelated texts *)

Lemma consumed_two_more (pre cs : str) (c c' : N) :
  consumed pre (rev cs ++ c' :: c :: pre) = c :: c' :: cs.
Proof.
  change (rev cs ++ c' :: c :: pre) with (rev cs ++ [c'; c] ++ pre).
  rewrite app_assoc, consumed_app, rev_app_distr, rev_involutive.
  reflexivity.
Qed.

Lemma normalize_l2_terms (row : sparse_row) :
  row_terms (normalize_l2 row) = row_terms row.
Proof.
  unfold normalize_l2, row_terms. destruct (b64_eqb _ _); [done|].
  rewrite map_map. simpl. done.
Qed.

Lemma row_lookup_absent (t : str) (row : sparse_row) :
  t ∉ row_terms row -> row_lookup t row = None.
Proof.
  unfold row_lookup, row_terms. induction row as [|[u v] row IH]; [done|].
  simpl. intros Hn. unfold str_eqb at 1. simpl.
  rewrite bool_decide_eq_false_2 by (intros ->; apply Hn; by left).
  apply IH. intros Hin. apply Hn. by right.
Qed.

(** Rows without a common term have the dot product 0.0. *)
Lemma sparse_dot_disjoint (x y : sparse_row) :
  (forall t, t ∈ row_terms x -> t ∉ row_terms y) ->
  sparse_dot x y = b64_zero.
Proof.
  unfold sparse_dot. generalize b64_zero.
  induction x as [|[t v] x IH]; intros acc H; [done|]. simpl.
  rewrite row_lookup_absent by (apply H; by left).
  apply IH. intros u Hu. apply H. by right.
Qed.

Lemma count_token_pos (t : str) (doc : list str) :
  count_token t doc <> 0%nat -> t ∈ doc.
Proof.
  unfold count_token. induction doc as [|u doc IH]; [done|].
  rewrite filter_cons. destruct (decide (str_eqb t u)) as [He|Hne].
  - intros _. apply Is_true_true, bool_decide_eq_true in He. subst u.
    by left.
  - intros H. right. by apply IH.
Qed.

Section ScorerMore.
Context {RT : Runtime}.

Lemma tfidf_row_terms vocab doc doc1 doc2 t :
  t ∈ row_terms (tfidf_row vocab doc doc1 doc2) -> t ∈ doc.
Proof.
  unfold tfidf_row, row_terms. induction vocab as [|u vocab IH]; simpl.
  - by intros ?%elem_of_nil.
  - destruct (Nat.eqb_spec (count_token u doc) 0) as [Hz|Hnz]; [exact IH|].
    simpl. rewrite elem_of_cons. intros [->|H]; [|by apply IH].
    by apply count_token_pos.
Qed.

Lemma vocabulary_empty_iff (doc1 doc2 : list str) :
  vocabulary doc1 doc2 = [] <-> doc1 = [] /\ doc2 = [].
Proof.
  split.
  - intros Hv. destruct doc1 as [|t d]; [destruct doc2 as [|t d]|]; [done|..];
      exfalso; by apply (vocabulary_nonempty _ _) in Hv.
  - by intros [-> ->].
Qed.

(** X13. The scorer fails exactly when neither text has a term, and then
    with [ValueError]; with a term on either side it returns. *)
Theorem compute_similarity_raises_iff (a b : str) :
  (forall e, compute_similarity a b = Raise e <->
             e = ValueError /\ tokenize a = [] /\ tokenize b = [])
  /\ (returns (compute_similarity a b) = true <->
      tokenize a <> [] \/ tokenize b <> []).
Proof.
  unfold compute_similarity. cbv zeta.
  destruct (vocabulary (tokenize a) (tokenize b)) as [|t v] eqn:Hv.
  - apply vocabulary_empty_iff in Hv as [-> ->]. split.
    + intros e. split; [by intros [= <-]|by intros [-> _]].
    + split; [done|]. by intros [?|?].
  - assert (~ (tokenize a = [] /\ tokenize b = [])) as Hn.
    { intros H%vocabulary_empty_iff. congruence. }
    split.
    + intros e. split; [done|]. intros (_ & Ha & Hb). by destruct Hn.
    + split; [|done]. intros _.
      destruct (tokenize a); [|by left]. destruct (tokenize b); [|by right].
      by destruct Hn.
Qed.

(** X14. Texts without a common term score exactly 0.0. *)
Theorem compute_similarity_unrelated (a b : str) :
  tokenize a <> [] \/ tokenize b <> [] ->
  (forall t, t ∈ tokenize a -> t ∉ tokenize b) ->
  compute_similarity a b = Return b64_zero.
Proof.
  intros Hne Hdis. unfold compute_similarity. cbv zeta.
  destruct (vocabulary (tokenize a) (tokenize b)) as [|t v] eqn:Hv.
  - apply vocabulary_empty_iff in Hv as [Ha Hb]. by destruct Hne.
  - rewrite <- Hv. f_equal. apply sparse_dot_disjoint. intros u.
    rewrite !normalize_l2_terms. intros Hu%tfidf_row_terms Hu'%tfidf_row_terms.
    by apply (Hdis u).
Qed.

(** A term is a run of two or more word characters: single letters and
    single digits of a title never take part in the score. *)
Theorem tokenize_terms (text : str) (t : str) :
  t ∈ tokenize text ->
  (2 <= length t)%nat /\ Forall (fun c => is_word c = true) t.
Proof.
  unfold tokenize, findall_whole, re_findall.
  change (map ?f ?l) with (f <$> l).
  intros (x & -> & Hin)%list_elem_of_fmap.
  apply findall_from_sound in Hin as (suf' & Hrun).
  apply run_sound in Hrun as (st' & Hst & [= <-]).
  unfold token_re in Hst. cbn -[steps] in Hst.
  destruct Hst as (s1 & [_ ->] & s2 & (c & u & Hs & Hc & ->)
                   & s3 & Hplus & [_ ->]).
  simpl in Hplus.
  destruct Hplus as (s4 & (c' & u' & Hs' & Hc' & ->) & (cs & u'' & _ & Hcs & ->)).
  simpl. rewrite consumed_two_more. split; [simpl; lia|].
  by repeat constructor.
Qed.
End ScorerMore.

Lemma compute_similarity_unrelated_witness :
  let a := py "pepsi can" in
  let b := py "rice 5 kg" in
  (tokenize (RT := ascii_runtime) a <> []
   \/ tokenize (RT := ascii_runtime) b <> [])
  /\ (forall t, t ∈ tokenize (RT := ascii_runtime) a ->
                t ∉ tokenize (RT := ascii_runtime) b)
  /\ compute_similarity (RT := ascii_runtime) a b = Return b64_zero.
Proof.
  intros a b.
  assert (tokenize (RT := ascii_runtime) a = [py "pepsi"; py "can"]) as Ha
    by (vm_compute; reflexivity).
  assert (tokenize (RT := ascii_runtime) b = [py "rice"; py "kg"]) as Hb
    by (vm_compute; reflexivity).
  assert (tokenize (RT := ascii_runtime) a <> []
          \/ tokenize (RT := ascii_runtime) b <> []) as H1
    by (left; rewrite Ha; discriminate).
  assert (forall t, t ∈ tokenize (RT := ascii_runtime) a ->
                    t ∉ tokenize (RT := ascii_runtime) b) as H2.
  { intros t. rewrite Ha, Hb. rewrite !elem_of_cons, !elem_of_nil.
    intros [->|[->|[]]] [H|[H|[]]]; discriminate H. }
  split; [exact H1|]. split; [exact H2|].
  exact (compute_similarity_unrelated (RT := ascii_runtime) a b H1 H2).
Defined.

Lemma tokenize_terms_witness :
  let text := py "7 UP 150 ml x 30" in
  py "up" ∈ tokenize (RT := ascii_runtime) text
  /\ (2 <= length (py "up"))%nat
  /\ Forall (fun c => is_word (RT := ascii_runtime) c = true) (py "up").
Proof.
  intros text.
  assert (py "up" ∈ tokenize (RT := ascii_runtime) text) as H
    by (vm_compute; left).
  split; [exact H|].
  exact (tokenize_terms (RT := ascii_runtime) text (py "up") H).
Defined.

(** ** The match resolver: what a record looks like afterwards *)

Section ResolverMore.
Context {RT : Runtime}.

(** The whole of a successful [process_record]. *)
Lemma process_record_parts rec out row :
  process_record rec = Return (out, row) ->
  exists input_title st,
    get_input_title rec = Return input_title
    /\ score_slots rec input_title slot_range resolver_init = Return st
    /\ let matched := reaches_threshold (best_similarity st) in
       let status := if matched then py "Available" else py "Not Available" in
       let matched_url :=
         if matched then best_url st else not_available_everywhere in
       out = <[py "status" := VStr status]>
               (<[py "matched_url" := matched_url]>
                  (<[py "best_similarity" :=
                       match best_similarity st with
                       | None => VInt 0
                       | Some b => VFloat (py_round3 b)
                       end]> (similarities st ∪ rec)))
       /\ row = (rec !! py "id", rec !! py "serial_number", input_title,
                 matched_url, status).
Proof.
  unfold process_record. cbv zeta.
  intros (input_title & Ht & H)%bind_Return_inv.
  apply bind_Return_inv in H as (st & Hs & H).
  exists input_title, st. split; [done|]. split; [done|].
  destruct (reaches_threshold (best_similarity st));
    apply bind_Return_inv in H as ([] & _ & H);
    apply bind_Return_inv in H as ([] & _ & H);
    apply bind_Return_inv in H as ([] & _ & H);
    apply bind_Return_inv in H as ([] & _ & H);
    apply bind_Return_inv in H as ([] & _ & H);
    by injection H as <- <-.
Qed.

Lemma bind_Return {A B} (a : A) (f : A -> outcome B) : Return a ≫= f = f a.
Proof. reflexivity. Qed.

Lemma sql_bind_bindable (v : value) :
  bindable v -> returns (sql_bind (Some v)) = true.
Proof.
  destruct v as [| | z | | s |]; simpl; try done.
  - by intros ->.
  - unfold utf8_text, utf8_encodable. by intros ->.
Qed.

Lemma sql_bind_storable (v : option value) :
  storable v -> returns (sql_bind v) = true.
Proof.
  destruct v as [x|]; [|done]. intros H. by apply sql_bind_bindable, H.
Qed.

(** The parts put together again. *)
Lemma process_record_build rec input_title st :
  get_input_title rec = Return input_title ->
  score_slots rec input_title slot_range resolver_init = Return st ->
  returns (sql_bind (rec !! py "id")) = true ->
  returns (sql_bind (rec !! py "serial_number")) = true ->
  returns (sql_bind (Some (VStr input_title))) = true ->
  (reaches_threshold (best_similarity st) = true -> bindable (best_url st)) ->
  returns (process_record rec) = true.
Proof.
  intros Ht Hs Hid Hsn Htitle Hurl. unfold process_record. cbv zeta.
  rewrite Ht, bind_Return, Hs, bind_Return.
  destruct (sql_bind (rec !! py "id")); [|done].
  destruct (sql_bind (rec !! py "serial_number")); [|done].
  destruct (sql_bind (Some (VStr input_title))); [|done].
  destruct (reaches_threshold (best_similarity st)); [|done].
  specialize (Hurl eq_refl). apply sql_bind_bindable in Hurl.
  rewrite !bind_Return. by destruct (sql_bind (Some (best_url st))).
Qed.

Lemma score_slots_skipped rec input_title slots st :
  (forall i, i ∈ slots -> slot_skipped rec i) ->
  score_slots rec input_title slots st = Return st.
Proof.
  induction slots as [|i slots IH]; [done|]. intros H. simpl.
  rewrite score_slot_skipped by (apply H; by left). simpl.
  apply IH. intros j Hj. apply H. by right.
Qed.

(** X15. A record none of whose slots has a usable title comes out unmatched:
    no similarity is written, best_similarity is the integer 0 and
    matched_url is the sentinel; the database row says the same.  The
    input title, the id and the serial number have to be values that
    [sqlite3] can bind. *)
Theorem no_candidate_unmatched (rec : record) (input_title : str) :
  get_input_title rec = Return input_title ->
  utf8_text input_title ->
  (forall i, i ∈ slot_range -> slot_skipped rec i) ->
  storable (rec !! py "id") ->
  storable (rec !! py "serial_number") ->
  process_record rec
  = Return (<[py "status" := VStr (py "Not Available")]>
              (<[py "matched_url" := not_available_everywhere]>
                 (<[py "best_similarity" := VInt 0]> rec)),
            (rec !! py "id", rec !! py "serial_number", input_title,
             not_available_everywhere, py "Not Available")).
Proof.
  intros Ht Htitle Hskip Hid%sql_bind_storable Hsn%sql_bind_storable.
  apply (sql_bind_bindable (VStr input_title)) in Htitle.
  unfold process_record. cbv zeta.
  rewrite Ht, bind_Return, (score_slots_skipped _ _ _ _ Hskip), bind_Return.
  destruct (sql_bind (rec !! py "id")) as [[]|]; [|done].
  destruct (sql_bind (rec !! py "serial_number")) as [[]|]; [|done].
  destruct (sql_bind (Some (VStr input_title))) as [[]|]; [|done].
  simpl. by rewrite (left_id_L ∅ (∪) rec).
Qed.

(** X16. The row inserted in the database agrees with the record written to
    the output file: same id and serial number, the stripped input
    title, and the status and matched_url fields of the record; the
    status is one of two texts, and "Not Available" goes with the
    sentinel. *)
Theorem process_record_row_agrees (rec out : record) (row : db_row) :
  process_record rec = Return (out, row) ->
  exists input_title matched_url status,
    row = (rec !! py "id", rec !! py "serial_number", input_title,
           matched_url, status)
    /\ get_input_title rec = Return input_title
    /\ out !! py "status" = Some (VStr status)
    /\ out !! py "matched_url" = Some matched_url
    /\ (status = py "Available"
        \/ status = py "Not Available"
           /\ matched_url = not_available_everywhere).
Proof.
  intros (input_title & st & Ht & _ & H)%process_record_parts.
  cbv zeta in H. destruct H as [-> ->].
  eexists _, _, _. split; [reflexivity|]. split; [done|].
  split; [by rewrite lookup_insert_eq|].
  split; [rewrite lookup_insert_ne by done; by rewrite lookup_insert_eq|].
  destruct (reaches_threshold (best_similarity st)); [by left|by right].
Qed.

(** X17. [main] touches nothing else: a key of the record other than status,
    matched_url, best_similarity and the five url_i_similarity keys
    keeps its value, and no other key appears. *)
Theorem process_record_frame (rec out : record) (row : db_row) (k : str) :
  process_record rec = Return (out, row) ->
  k ∉ result_keys ->
  (forall i, i ∈ slot_range -> k <> url_similarity_key i) ->
  out !! k = rec !! k.
Proof.
  intros (input_title & st & _ & Hs & H)%process_record_parts Hk Hsim.
  cbv zeta in H. destruct H as [-> _].
  unfold result_keys in Hk. rewrite !not_elem_of_cons in Hk.
  destruct Hk as (H1 & H2 & H3 & _).
  rewrite !lookup_insert_ne by done.
  apply lookup_union_r.
  destruct (similarities st !! k) eqn:Hl; [|done]. exfalso.
  destruct (score_slots_final _ _ _ Hs) as [_ Hrec].
  destruct (Hrec k) as (j & s & Hj & -> & _); [by rewrite Hl|].
  by apply (Hsim j).
Qed.

Lemma score_slot_all_recorded rec input_title seen i st st' :
  score_slot rec input_title i st = Return st' ->
  all_recorded rec input_title seen st ->
  all_recorded rec input_title (seen ++ [i]) st'.
Proof.
  intros [[Hskip ->]|(s0 & Hsc & Hsims & _)]%score_slot_scored Hall j s.
  - intros [Hj|Hj%list_elem_of_singleton]%elem_of_app Hs; [by apply Hall|].
    subst j. by apply slot_scored_not_skipped in Hs.
  - rewrite Hsims. intros Hj Hs.
    destruct (decide (j = i)) as [->|Hne].
    + rewrite (slot_scored_unique _ _ _ _ _ Hs Hsc).
      by rewrite lookup_insert_eq.
    + rewrite lookup_insert_ne by (by intros ?%url_similarity_key_inj).
      apply elem_of_app in Hj as [Hj|Hj%list_elem_of_singleton]; [|done].
      by apply Hall.
Qed.

Lemma score_slots_all_recorded rec input_title slots seen st st' :
  score_slots rec input_title slots st = Return st' ->
  all_recorded rec input_title seen st ->
  all_recorded rec input_title (seen ++ slots) st'.
Proof.
  revert seen st. induction slots as [|i slots IH]; intros seen st; simpl.
  - intros [= <-]. by rewrite app_nil_r.
  - destruct (score_slot rec input_title i st) as [st1|] eqn:H1; simpl;
      [|done].
    intros H Hall.
    replace (seen ++ i :: slots) with ((seen ++ [i]) ++ slots)
      by (by rewrite <- app_assoc).
    apply (IH _ _ H). by apply (score_slot_all_recorded _ _ _ _ _ _ H1).
Qed.

(** X18. Every scored slot is on record: the output holds, under
    url_i_similarity, the similarity of slot i rounded to three
    decimals. *)
Theorem scored_slot_recorded (rec out : record) (row : db_row)
    (input_title : str) (i : Z) (s : float) :
  process_record rec = Return (out, row) ->
  get_input_title rec = Return input_title ->
  i ∈ slot_range ->
  slot_scored rec input_title i s ->
  out !! url_similarity_key i = Some (VFloat (py_round3 s)).
Proof.
  intros (t & st & Ht & Hs & H)%process_record_parts Ht' Hi Hsc.
  assert (t = input_title) as -> by congruence.
  cbv zeta in H. destruct H as [-> _].
  destruct (url_similarity_key_fresh i) as (H1 & H2 & H3).
  rewrite !lookup_insert_ne by done.
  apply lookup_union_Some_l.
  apply (score_slots_all_recorded _ _ _ [] _ _ Hs); [|done|done].
  by intros j s' ?%elem_of_nil.
Qed.

Lemma compute_similarity_returns (a b : str) :
  (forall e, compute_similarity a b = Raise e -> tokenize a = [] /\ tokenize b = [])
  /\ (tokenize a <> [] \/ tokenize b <> [] ->
      exists s, compute_similarity a b = Return s).
Proof.
  unfold compute_similarity. cbv zeta.
  destruct (vocabulary (tokenize a) (tokenize b)) as [|t v] eqn:Hv.
  - destruct (tokenize a) as [|x l]; [destruct (tokenize b) as [|x l]|].
    + split; [done|]. by intros [?|?].
    + by apply vocabulary_nonempty in Hv.
    + by apply vocabulary_nonempty in Hv.
  - split; [done|]. intros _. by eexists.
Qed.

(** The slot loop goes through on a record whose titles are texts and
    whose input title has a term, and what it selects can be stored. *)
Lemma score_slots_well_formed rec input_title slots st :
  tokenize (uni_lower input_title) <> [] ->
  (forall i, i ∈ slots -> slot_well_formed rec i) ->
  best_url st = VNull \/ bindable (best_url st) ->
  exists st', score_slots rec input_title slots st = Return st'
              /\ (best_url st' = VNull \/ bindable (best_url st')).
Proof.
  intros Htok. revert st. induction slots as [|i slots IH]; intros st Hwf Hb.
  - by exists st.
  - simpl.
    assert (exists st1, score_slot rec input_title i st = Return st1
                        /\ (best_url st1 = VNull \/ bindable (best_url st1)))
      as (st1 & -> & Hb1).
    { destruct (Hwf i) as [Hskip|(title & url & Ht & Hu & Hbind)];
        [by left| |].
      - exists st. by rewrite score_slot_skipped.
      - unfold score_slot. rewrite Ht.
        destruct (truthy (VStr title)); simpl; [|by exists st].
        destruct (proj2 (compute_similarity_returns
                           (uni_lower input_title) (uni_lower title)))
          as [s ->]; [by left|].
        simpl. rewrite Hu.
        destruct (beats s (best_similarity st)); eexists; split;
          try reflexivity; simpl; [by right|done]. }
    simpl. apply IH; [|done]. intros j Hj. apply Hwf. by right.
Qed.

(** X19. A record is processed without an exception when its input title is
    absent or a text that UTF-8 can encode, that title has a term, every
    slot is either without a usable title or has a text as title and a
    URL that can be bound, and id and serial number are absent or can be
    bound. *)
Theorem well_formed_record_processed (rec : record) (input_title : str) :
  get_input_title rec = Return input_title ->
  utf8_text input_title ->
  tokenize (uni_lower input_title) <> [] ->
  (forall i, i ∈ slot_range -> slot_well_formed rec i) ->
  storable (rec !! py "id") ->
  storable (rec !! py "serial_number") ->
  returns (process_record rec) = true.
Proof.
  intros Ht Htitle Htok Hwf Hid%sql_bind_storable Hsn%sql_bind_storable.
  apply (sql_bind_bindable (VStr input_title)) in Htitle.
  destruct (score_slots_well_formed rec input_title slot_range resolver_init
              Htok Hwf (or_introl eq_refl)) as (st & Hs & Hb).
  apply (process_record_build rec input_title st); try done.
  intros Hreach. destruct Hb as [Hnull|Hb]; [|done].
  by rewrite Hnull.
Qed.

(** X20. The record loop is element-wise: it returns exactly when every
    record is processed, with one output record and one database row
    per input record, in order. *)
Theorem process_all_elementwise (data outs : list record)
    (rows : list db_row) :
  process_all data = Return (outs, rows) <->
  length outs = length rows
  /\ Forall2 (fun rec p => process_record rec = Return p)
             data (zip outs rows).
Proof.
  revert outs rows. induction data as [|rec data IH]; intros outs rows.
  - simpl. split.
    + intros [= <- <-]. split; [done|constructor].
    + intros [Hlen H]. destruct outs, rows; try done; inversion H.
  - simpl. split.
    + intros (r & Hr & H)%bind_Return_inv.
      apply bind_Return_inv in H as ([os rs] & Hrs & [= <- <-]).
      apply IH in Hrs as [Hlen Hall]. simpl. split; [by rewrite Hlen|].
      constructor; [by destruct r|done].
    + intros [Hlen H]. destruct outs as [|o os], rows as [|w rs];
        try done; [inversion H|].
      simpl in *. apply Forall2_cons in H as [Hr Hall].
      rewrite Hr, bind_Return.
      rewrite (proj2 (IH os rs)); [done|]. split; [lia|done].
Qed.

(** X21. The first record that fails ends the loop with its exception,
    whatever comes after it. *)
Theorem process_all_first_failure (pre post : list record) (rec : record)
    (e : exn) :
  Forall (fun r => returns (process_record r) = true) pre ->
  process_record rec = Raise e ->
  process_all (pre ++ rec :: post) = Raise e.
Proof.
  intros Hpre Hrec. induction Hpre as [|r pre Hr Hpre IH]; simpl.
  - by rewrite Hrec.
  - destruct (process_record r); [|done]. by rewrite bind_Return, IH.
Qed.
End ResolverMore.

Section ResolverMoreExamples.
Local Existing Instance ascii_runtime.

Ltac each_slot :=
  intros i; unfold slot_range; rewrite !elem_of_cons, elem_of_nil;
  intros [->|[->|[->|[->|[->|[]]]]]].

Lemma no_candidate_unmatched_witness :
  get_input_title untitled_record = Return (py "Pepsi Can")
  /\ utf8_text (py "Pepsi Can")
  /\ (forall i, i ∈ slot_range -> slot_skipped untitled_record i)
  /\ storable (untitled_record !! py "id")
  /\ storable (untitled_record !! py "serial_number")
  /\ process_record untitled_record
     = Return (<[py "status" := VStr (py "Not Available")]>
                 (<[py "matched_url" := not_available_everywhere]>
                    (<[py "best_similarity" := VInt 0]> untitled_record)),
               (untitled_record !! py "id",
                untitled_record !! py "serial_number", py "Pepsi Can",
                not_available_everywhere, py "Not Available")).
Proof.
  assert (get_input_title untitled_record = Return (py "Pepsi Can")) as H1
    by (vm_compute; reflexivity).
  assert (utf8_text (py "Pepsi Can")) as H0 by reflexivity.
  assert (forall i, i ∈ slot_range -> slot_skipped untitled_record i) as H2
    by (each_slot; left; vm_compute; reflexivity).
  assert (storable (untitled_record !! py "id")) as H3
    by (intros x Hx; vm_compute in Hx; injection Hx as <-; reflexivity).
  assert (storable (untitled_record !! py "serial_number")) as H4
    by (intros x Hx; vm_compute in Hx; discriminate Hx).
  split; [exact H1|]. split; [exact H0|]. split; [exact H2|].
  split; [exact H3|]. split; [exact H4|].
  exact (no_candidate_unmatched untitled_record (py "Pepsi Can")
           H1 H0 H2 H3 H4).
Defined.

Lemma process_record_row_agrees_witness :
  match process_record pepsi_record with
  | Return (out, row) =>
      exists input_title matched_url status,
        row = (pepsi_record !! py "id", pepsi_record !! py "serial_number",
               input_title, matched_url, status)
        /\ get_input_title pepsi_record = Return input_title
        /\ out !! py "status" = Some (VStr status)
        /\ out !! py "matched_url" = Some matched_url
        /\ (status = py "Available"
            \/ status = py "Not Available"
               /\ matched_url = not_available_everywhere)
  | Raise _ => False
  end.
Proof.
  assert (returns (process_record pepsi_record) = true) as Hr
    by (vm_compute; reflexivity).
  destruct (process_record pepsi_record) as [[out row]|e] eqn:Hp;
    [|discriminate Hr].
  exact (process_record_row_agrees pepsi_record out row Hp).
Defined.

Lemma process_record_frame_witness :
(py "url_1" ∉ result_keys)
  /\ (forall i, i ∈ slot_range -> py "url_1" <> url_similarity_key i)
  /\ match process_record pepsi_record with
     | Return (out, row) => out !! py "url_1" = pepsi_record !! py "url_1"
     | Raise _ => False
     end.
Proof.
  assert (py "url_1" ∉ result_keys) as H1.
  { unfold result_keys. rewrite !not_elem_of_cons.
    repeat split; try discriminate. apply not_elem_of_nil. }
  assert (forall i, i ∈ slot_range -> py "url_1" <> url_similarity_key i)
    as H2 by (each_slot; discriminate).
  split; [exact H1|]. split; [exact H2|].
  assert (returns (process_record pepsi_record) = true) as Hr
    by (vm_compute; reflexivity).
  destruct (process_record pepsi_record) as [[out row]|e] eqn:Hp;
    [|discriminate Hr].
  exact (process_record_frame pepsi_record out row (py "url_1") Hp H1 H2).
Defined.

Lemma scored_slot_recorded_witness :
  get_input_title pepsi_record = Return (py "Pepsi Can")
  /\ 1 ∈ slot_range
  /\ match process_record pepsi_record,
           compute_similarity (uni_lower (py "Pepsi Can"))
                              (uni_lower (py "Pepsi Can")) with
     | Return (out, row), Return s =>
         slot_scored pepsi_record (py "Pepsi Can") 1 s
         /\ out !! url_similarity_key 1 = Some (VFloat (py_round3 s))
     | _, _ => False
     end.
Proof.
  assert (get_input_title pepsi_record = Return (py "Pepsi Can")) as H1
    by (vm_compute; reflexivity).
  assert (1 ∈ slot_range) as H2 by (by left).
  split; [exact H1|]. split; [exact H2|].
  assert (returns (process_record pepsi_record) = true) as Hr
    by (vm_compute; reflexivity).
  assert (returns (compute_similarity (uni_lower (py "Pepsi Can"))
                     (uni_lower (py "Pepsi Can"))) = true) as Hc
    by (vm_compute; reflexivity).
  destruct (process_record pepsi_record) as [[out row]|e] eqn:Hp;
    [|discriminate Hr].
  destruct (compute_similarity _ _) as [s|e] eqn:Hs; [|discriminate Hc].
  assert (slot_scored pepsi_record (py "Pepsi Can") 1 s) as H3.
  { exists (VStr (py "Pepsi Can")), (uni_lower (py "Pepsi Can")).
    split; [vm_compute; reflexivity|]. split; [reflexivity|].
    split; [reflexivity|exact Hs]. }
  split; [exact H3|].
  exact (scored_slot_recorded pepsi_record out row (py "Pepsi Can") 1 s
           Hp H1 H2 H3).
Defined.

Lemma well_formed_record_processed_witness :
  get_input_title pepsi_record = Return (py "Pepsi Can")
  /\ utf8_text (py "Pepsi Can")
  /\ tokenize (uni_lower (py "Pepsi Can")) <> []
  /\ (forall i, i ∈ slot_range -> slot_well_formed pepsi_record i)
  /\ storable (pepsi_record !! py "id")
  /\ storable (pepsi_record !! py "serial_number")
  /\ returns (process_record pepsi_record) = true.
Proof.
  assert (get_input_title pepsi_record = Return (py "Pepsi Can")) as H1
    by (vm_compute; reflexivity).
  assert (utf8_text (py "Pepsi Can")) as H0 by reflexivity.
  assert (tokenize (uni_lower (py "Pepsi Can")) <> []) as H2
    by (vm_compute; discriminate).
  assert (forall i, i ∈ slot_range -> slot_well_formed pepsi_record i) as H3.
  { each_slot; [right|left; left; vm_compute; reflexivity..].
    exists (py "Pepsi Can"), (VStr (py "https://example.org/2")).
    split; [vm_compute; reflexivity|].
    split; [vm_compute; reflexivity|reflexivity]. }
  assert (storable (pepsi_record !! py "id")) as H4
    by (intros x Hx; vm_compute in Hx; discriminate Hx).
  assert (storable (pepsi_record !! py "serial_number")) as H5
    by (intros x Hx; vm_compute in Hx; discriminate Hx).
  split; [exact H1|]. split; [exact H0|]. split; [exact H2|].
  split; [exact H3|]. split; [exact H4|]. split; [exact H5|].
  exact (well_formed_record_processed pepsi_record (py "Pepsi Can")
           H1 H0 H2 H3 H4 H5).
Defined.

Lemma process_all_first_failure_witness :
  Forall (fun r => returns (process_record r) = true) [pepsi_record]
  /\ process_record blank_record = Raise ValueError
  /\ process_all ([pepsi_record] ++ blank_record :: [pepsi_record])
     = Raise ValueError.
Proof.
  assert (Forall (fun r => returns (process_record r) = true) [pepsi_record])
    as H1 by (constructor; [vm_compute; reflexivity|constructor]).
  assert (process_record blank_record = Raise ValueError) as H2
    by (vm_compute; reflexivity).
  split; [exact H1|]. split; [exact H2|].
  exact (process_all_first_failure [pepsi_record] [pepsi_record] blank_record
           ValueError H1 H2).
Defined.
End ResolverMoreExamples.
